(** * Encrypted-chat store: the decryption pipeline of [useChatStore.js]
    and the authenticated transport of [apiService.js].

    The development is a shallow embedding: every JavaScript function that a
    property talks about is written as a Rocq function over an explicit
    state.  JavaScript [Map]s are insertion-ordered, and the LRU cache relies
    on that order, so a [Map] is an association list in insertion order.
    Promise continuations and timer callbacks are defunctionalised: a pending
    timer or call carries a first-order description of the closure that runs
    when the environment fires or settles it. *)

From Stdlib Require Import ZArith List String Ascii Bool Arith Lia Sorted.
From Stdlib Require Import DecimalString.
From Equations Require Import Equations.
Import ListNotations.
Open Scope string_scope.
Open Scope list_scope.

(* ================================================================== *)
(** * Part I. Definitions *)
(* ================================================================== *)

(** ** JavaScript [Map] with string keys

    Entries are kept in insertion order.  [set] on a key that is present
    overwrites the value in place (the entry keeps its position); on an
    absent key it appends.  [delete] removes the entry of the key. *)
Module JSMap.

Definition t (V : Type) : Type := list (string * V).

Definition empty {V} : t V := [].

Definition is_key {V} (k : string) (p : string * V) : bool :=
  String.eqb (fst p) k.

Definition has {V} (k : string) (m : t V) : bool := existsb (is_key k) m.

Fixpoint get {V} (k : string) (m : t V) : option V :=
  match m with
  | [] => None
  | (k', v) :: rest => if String.eqb k' k then Some v else get k rest
  end.

Definition delete {V} (k : string) (m : t V) : t V :=
  filter (fun p => negb (is_key k p)) m.

Fixpoint overwrite {V} (k : string) (v : V) (m : t V) : t V :=
  match m with
  | [] => []
  | (k', v') :: rest =>
      if String.eqb k' k then (k', v) :: rest else (k', v') :: overwrite k v rest
  end.

Definition set {V} (k : string) (v : V) (m : t V) : t V :=
  if has k m then overwrite k v m else m ++ [(k, v)].

Definition size {V} (m : t V) : Z := Z.of_nat (List.length m).

Definition keys {V} (m : t V) : list string := map fst m.

(** [m.keys().next().value]; [None] stands for [undefined] (empty map). *)
Definition firstKey {V} (m : t V) : option string :=
  match m with
  | [] => None
  | (k, _) :: _ => Some k
  end.

(** Representation invariant: a [Map] holds one entry per key. *)
Definition wf {V} (m : t V) : Prop := NoDup (keys m).

End JSMap.

(** ** [class LRUCache] (useChatStore.js, lines 26-64) *)
Module LRUCache.

Record t : Type := mk { maxSize : Z; cache : JSMap.t string }.

(** [constructor(maxSize)] *)
Definition new (maxSize : Z) : t := mk maxSize JSMap.empty.

(** [get(key)]: [null] on a miss; on a hit the entry is deleted and set
    again, which moves it to the end of the map. *)
Definition get (key : string) (c : t) : option string * t :=
  match JSMap.get key (cache c) with
  | None => (None, c)
  | Some value =>
      (Some value,
       mk (maxSize c) (JSMap.set key value (JSMap.delete key (cache c))))
  end.

(** The capacity check at the head of [set] (lines 44-47): at or over
    capacity the first key of the map is deleted; on an empty map the first
    key is [undefined] and the deletion does nothing. *)
Definition evict (c : t) : JSMap.t string :=
  if (JSMap.size (cache c) >=? maxSize c)%Z then
    match JSMap.firstKey (cache c) with
    | Some firstKey => JSMap.delete firstKey (cache c)
    | None => cache c
    end
  else cache c.

(** [set(key, value)] *)
Definition set (key value : string) (c : t) : t :=
  mk (maxSize c) (JSMap.set key value (evict c)).

Definition has (key : string) (c : t) : bool := JSMap.has key (cache c).

Definition clear (c : t) : t := mk (maxSize c) JSMap.empty.

Definition size (c : t) : Z := JSMap.size (cache c).

(** What a read of the cache returns, without the reordering of [get]. *)
Definition peek (key : string) (c : t) : option string :=
  JSMap.get key (cache c).

Definition keys (c : t) : list string := JSMap.keys (cache c).

(** The key that [set] removes in its capacity check, if any. *)
Definition evicted (c : t) : option string :=
  if (JSMap.size (cache c) >=? maxSize c)%Z then JSMap.firstKey (cache c)
  else None.

(** Calls a client can make on a cache. *)
Inductive op : Type :=
| OpGet (key : string)
| OpSet (key value : string)
| OpHas (key : string)
| OpClear.

Definition step (o : op) (c : t) : t :=
  match o with
  | OpGet key => snd (get key c)
  | OpSet key value => set key value c
  | OpHas _ => c
  | OpClear => clear c
  end.

Definition run (ops : list op) (c : t) : t :=
  fold_left (fun c o => step o c) ops c.

(** *** Recency, in the words of the specification

    An entry is _touched_ when it is created by a [set] or returned by a
    [get].  [Clock] records, next to a cache, the number of calls made so
    far and the time of the last touch of every key.  It is a ghost: no
    operation of the cache reads it. *)
Record Clock : Type := mkClock { now : nat; lastTouch : string -> nat }.

Definition clock0 : Clock := mkClock 0 (fun _ => 0%nat).

Definition tick (g : Clock) : Clock := mkClock (S (now g)) (lastTouch g).

Definition touch (key : string) (g : Clock) : Clock :=
  mkClock (S (now g))
          (fun k => if String.eqb k key then now g else lastTouch g k).

(** Does [set key _] create the entry of [key] (as opposed to overwriting
    the value of an entry that survives the capacity check)? *)
Definition creates (key : string) (c : t) : bool :=
  negb (JSMap.has key (evict c)).

Definition stepClock (o : op) (c : t) (g : Clock) : Clock :=
  match o with
  | OpGet key => if has key c then touch key g else tick g
  | OpSet key _ => if creates key c then touch key g else tick g
  | OpHas _ | OpClear => tick g
  end.

Fixpoint runClock (ops : list op) (c : t) (g : Clock) : t * Clock :=
  match ops with
  | [] => (c, g)
  | o :: rest => runClock rest (step o c) (stepClock o c g)
  end.

End LRUCache.

(** ** JavaScript values shared by both files *)

(** A thrown [Error]: its [name], its [message] and, for errors of the
    document store, its [code] (the empty string when there is none). *)
Record JsError : Type := mkError { name : string; message : string; code : string }.

(** [new Error(message)] *)
Definition newError (msg : string) : JsError := mkError "Error" msg "".

(** [haystack.includes(needle)] *)
Fixpoint includes (needle haystack : string) : bool :=
  String.prefix needle haystack ||
  match haystack with
  | EmptyString => false
  | String _ rest => includes needle rest
  end.

(** Truthiness of a string that may be [null] or [undefined]. *)
Definition truthy (s : option string) : bool :=
  match s with
  | None | Some EmptyString => false
  | Some _ => true
  end.

(** How a promise of [decryptChatMessageAPI] settles.  A fulfilled call
    carries a non-empty plaintext: the function throws on an empty one
    (apiService.js, line 390). *)
Inductive Settled : Type :=
| Fulfilled (plaintext : string)
| Rejected (reason : JsError).

(** ** apiService.js: the authenticated transport *)
Module Api.

Record Response : Type := mkResponse { status : Z; body : string }.

(** [response.ok] *)
Definition ok (r : Response) : bool :=
  (200 <=? status r)%Z && (status r <=? 299)%Z.

(** What the identity provider answers when asked for a fresh token
    ([onAuthStateChanged] followed by [user.getIdToken(true)]). *)
Inductive Identity : Type :=
| SignedIn (idToken : string)
| SignedOut
| TokenError (e : JsError)       (* getIdToken rejects *)
| ObserverError (e : JsError).   (* the auth-state observer reports an error *)

(** How a [fetch] ends. *)
Inductive FetchOutcome : Type :=
| Responds (r : Response)
| Throws (e : JsError).

(** The world outside the module: the n-th reading of [Date.now()], the
    n-th answer of the identity provider and the n-th [fetch]. *)
Record World : Type := mkWorld {
  dateNow : nat -> Z;
  identity : nat -> Identity;
  network : nat -> FetchOutcome
}.

(** One [fetch] as issued: the URL, the bearer token of its
    [Authorization] header and the request body. *)
Record Request : Type := mkRequest { url : string; bearer : string; payload : string }.

(** The module's state: [tokenCache] (without [refreshPromise], which only
    shares a refresh between concurrent callers), [responseCache], and how
    much of the world has been consumed. *)
Record State : Type := mkState {
  token : option string;
  expiryTime : option Z;
  responseCache : JSMap.t (Response * Z);
  clockReads : nat;
  identityAsked : nat;
  fetched : list Request
}.

Definition CACHE_TTL : Z := 5000.

(** [Date.now()] *)
Definition now (w : World) (s : State) : Z * State :=
  (dateNow w (clockReads s),
   mkState (token s) (expiryTime s) (responseCache s)
           (S (clockReads s)) (identityAsked s) (fetched s)).

Definition setToken (t : option string) (e : option Z) (s : State) : State :=
  mkState t e (responseCache s) (clockReads s) (identityAsked s) (fetched s).

Definition setResponseCache (m : JSMap.t (Response * Z)) (s : State) : State :=
  mkState (token s) (expiryTime s) m (clockReads s) (identityAsked s) (fetched s).

(** [getCachedResponse(key)] (lines 76-85) *)
Definition getCachedResponse (w : World) (key : string) (s : State)
  : option Response * State :=
  match JSMap.get key (responseCache s) with
  | Some (data, timestamp) =>
      let '(t, s1) := now w s in
      if (t - timestamp <? CACHE_TTL)%Z then (Some data, s1)
      else (None, setResponseCache (JSMap.delete key (responseCache s1)) s1)
  | None => (None, setResponseCache (JSMap.delete key (responseCache s)) s)
  end.

(** [cacheResponse(key, response)] (lines 61-71); the clean-up timer it
    arms deletes the entry once it is older than the TTL, when
    [getCachedResponse] refuses it anyway. *)
Definition cacheResponse (w : World) (key : string) (r : Response) (s : State)
  : State :=
  let '(t, s1) := now w s in
  setResponseCache (JSMap.set key (r, t) (responseCache s1)) s1.

(** The refresh of [getCurrentUserToken] (lines 104-138): the identity
    provider is asked for a fresh token, which is cached for fifty minutes;
    [null] when nobody is signed in. *)
Definition refreshToken (w : World) (s : State)
  : (JsError + option string) * State :=
  let s1 := mkState (token s) (expiryTime s) (responseCache s)
                    (clockReads s) (S (identityAsked s)) (fetched s) in
  match identity w (identityAsked s) with
  | SignedIn idToken =>
      let '(t, s2) := now w s1 in
      (inr (Some idToken),
       setToken (Some idToken) (Some (t + 50 * 60 * 1000)%Z) s2)
  | SignedOut => (inr None, setToken None None s1)
  | TokenError e => (inl e, setToken None None s1)
  | ObserverError e => (inl e, s1)
  end.

(** [getCurrentUserToken()] (lines 92-141): the cached token while it is
    valid, else a refresh. *)
Definition getCurrentUserToken (w : World) (s : State)
  : (JsError + option string) * State :=
  match token s, expiryTime s with
  | Some tok, Some expiry =>
      if truthy (Some tok) && negb (expiry =? 0)%Z then
        let '(t, s1) := now w s in
        if (t <? expiry)%Z then (inr (Some tok), s1) else refreshToken w s1
      else refreshToken w s
  | _, _ => refreshToken w s
  end.

(** [fetch(url, {..., headers})] *)
Definition fetch (w : World) (rq : Request) (s : State) : FetchOutcome * State :=
  (network w (List.length (fetched s)),
   mkState (token s) (expiryTime s) (responseCache s)
           (clockReads s) (identityAsked s) (fetched s ++ [rq])).

(** The [catch] block of [makeAuthenticatedRequest] (lines 213-224). *)
Definition rethrow (error : JsError) : JsError :=
  if String.eqb (name error) "AbortError" then
    newError "Request timeout. The server took too long to respond."
  else if String.eqb (name error) "TypeError" && includes "fetch" (message error) then
    newError "Network error. Please check your internet connection."
  else error.

Definition maxRetries : nat := 2.

(** [response.status === 401 || response.status === 403] *)
Definition isAuthFailure (r : Response) : bool :=
  (status r =? 401)%Z || (status r =? 403)%Z.

(** The cache key [`${url}:${JSON.stringify(options.body)}`]. *)
Definition cacheKeyOf (url payload : string) : string :=
  (url ++ ":" ++ payload)%string.

(** The cache check at the head of [makeAuthenticatedRequest]
    (lines 165-173). *)
Definition lookup (w : World) (useCache : bool) (url payload : string) (s : State)
  : option Response * State :=
  if useCache then getCachedResponse w (cacheKeyOf url payload) s else (None, s).

(** [makeAuthenticatedRequest(url, options, retryCount, useCache)]
    (lines 161-225).  The recursion is the one of the source: on a 401 or
    403 answer with [retryCount < maxRetries] the cached token is dropped
    and the function calls itself with [retryCount + 1]. *)
Equations? makeAuthenticatedRequest (w : World) (url payload : string)
  (retryCount : nat) (useCache : bool) (s : State)
  : (JsError + Response) * State by wf (maxRetries - retryCount) lt :=
makeAuthenticatedRequest w url payload retryCount useCache s
  with lookup w useCache url payload s => {
  | (Some cached, s1) := (inr cached, s1);
  | (None, s1) with getCurrentUserToken w s1 => {
    | (inl error, s2) := (inl (rethrow error), s2);
    | (inr None, s2) :=
        (inl (rethrow (newError "Authentication required. Please sign in.")), s2);
    | (inr (Some idToken), s2) with truthy (Some idToken) => {
      | false :=
        (inl (rethrow (newError "Authentication required. Please sign in.")), s2);
      | true with fetch w (mkRequest url idToken payload) s2 => {
        | (Throws error, s3) := (inl (rethrow error), s3);
        | (Responds response, s3)
            with isAuthFailure response, lt_dec retryCount maxRetries => {
          | true, left _ :=
              makeAuthenticatedRequest w url payload (S retryCount) useCache
                                       (setToken None None s3);
          | _, _ :=
              (inr response,
               if useCache && ok response
               then cacheResponse w (cacheKeyOf url payload) response s3
               else s3) } } } } }.
Proof.
  unfold maxRetries in *.
  destruct retryCount as [|[|n]]; lia.
Qed.

(** Hypotheses on a call and on the world, used to state properties. *)

(** The response cache holds nothing for the request (always so when the
    caller does not ask for caching). *)
Definition cacheMiss (useCache : bool) (url payload : string) (s : State) : Prop :=
  useCache = true -> JSMap.get (cacheKeyOf url payload) (responseCache s) = None.

(** Every [fetch] is answered with status 401 or 403. *)
Definition alwaysAuthFailure (w : World) : Prop :=
  forall n, match network w n with
            | Responds r => isAuthFailure r = true
            | Throws _ => False
            end.

(** The identity provider always hands out a (non-empty) token. *)
Definition alwaysSignedIn (w : World) : Prop :=
  forall n, match identity w n with
            | SignedIn t => truthy (Some t) = true
            | _ => False
            end.

End Api.

(** ** JavaScript [Set] of strings, in insertion order *)
Module JSSet.

Definition t : Type := list string.

Definition empty : t := [].

Definition has (x : string) (s : t) : bool := existsb (String.eqb x) s.

Definition add (x : string) (s : t) : t := if has x s then s else s ++ [x].

Definition delete (x : string) (s : t) : t :=
  filter (fun y => negb (String.eqb y x)) s.

End JSSet.

(** Truthiness of a string field; a field that is absent is represented by
    the empty string, which is falsy as well. *)
Definition nonEmpty (s : string) : bool :=
  match s with
  | EmptyString => false
  | String _ _ => true
  end.

(** A message as the decryption pipeline reads it: its identifier, the
    ciphertext and the key version. *)
Module Message.

Record t : Type := mk {
  id : string;
  messageCiphertextKMS : string;
  kmsKeyVersionName : string
}.

End Message.

(** The value [{ plaintext }] that the decrypt calls resolve to. *)
Record DecryptResult : Type := mkResult { plaintext : string }.

(** [batchDecryptMessages] (apiService.js, lines 432-447), given how the
    promises of the per-item [decryptChatMessageAPI] calls settled
    ([Promise.allSettled] never rejects): a rejected item becomes the
    result [{ plaintext: '[Error: Failed to decrypt]' }]. *)
Definition batchDecryptMessages (settled : list Settled) : list DecryptResult :=
  map (fun result =>
         match result with
         | Fulfilled p => mkResult p
         | Rejected _ => mkResult "[Error: Failed to decrypt]"
         end) settled.

(** ** useChatStore.js: the decryption pipeline *)
Module ChatStore.

Definition MAX_DECRYPTION_RETRIES : nat := 3.
Definition DECRYPTION_RETRY_DELAY : Z := 1000.
Definition MAX_CONCURRENT_DECRYPTIONS : nat := 5.
Definition DECRYPTION_TIMEOUT : Z := 30000.
Definition INITIAL_CHAT_LIMIT : nat := 20.
Definition CHAT_PAGE_SIZE : nat := 10.
Definition MAX_MESSAGES_IN_MEMORY : Z := 1000.

(** The closures handed to [setTimeout].  [captured] is the value of the
    React state [decryptingMessageIds] that the enclosing
    [decryptSingleMessage] closed over when it was created; it is not the
    current state. *)
Inductive Callback : Type :=
| ProcessBatch (captured : JSSet.t)
    (* line 217: () => processBatchDecryption() *)
| DecryptionTimeout (messageId : string) (captured : JSSet.t)
    (* lines 242-253 *)
| Retry (message : Message.t) (captured : JSSet.t).
    (* lines 286-296 *)

(** The continuations of the two [await]s. *)
Inductive Pending : Type :=
| AwaitSingle (message : Message.t) (retryCount : nat) (timeoutId : nat)
              (captured : JSSet.t)
    (* line 260: await decryptChatMessageAPI(...) *)
| AwaitBatch (batch : list Message.t) (captured : JSSet.t).
    (* line 172: await batchDecryptMessages(...) *)

Record Timer : Type := mkTimer { timerId : nat; delay : Z; callback : Callback }.

(** What the hook does to the outside, in order. *)
Inductive Event : Type :=
| DecryptCall (ciphertext kmsKeyVersionName : string)
    (* one call of decryptChatMessageAPI *)
| SetTimeout (timerId : nat) (delay : Z) (callback : Callback)
| ClearTimeout (timerId : nat).

(** The refs and the state of the hook that the pipeline uses, together
    with the part of the JavaScript event loop that belongs to it: the
    timers that are armed and the calls that are in flight.  The forced
    re-render [setChats(prev => [...prev])] changes none of these and is
    left out; [decryptionQueuesRef] is never written and is left out. *)
Record Hook : Type := mkHook {
  mounted : bool;
  decryptedMessagesCache : LRUCache.t;
  decryptingMessageIds : JSSet.t;
  retryCounts : JSMap.t nat;
  decryptionTimeouts : JSMap.t nat;
  batchDecryptionQueue : list Message.t;
  batchDecryptionTimeout : option nat;
  timers : list Timer;
  awaiting : list (nat * Pending);
  nextId : nat;
  trace : list Event
}.

(** The hook right after it is mounted. *)
Definition initial : Hook :=
  mkHook true (LRUCache.new MAX_MESSAGES_IN_MEMORY) JSSet.empty JSMap.empty
         JSMap.empty [] None [] [] 1 [].

Definition setCache (c : LRUCache.t) (h : Hook) : Hook :=
  mkHook (mounted h) c (decryptingMessageIds h) (retryCounts h)
         (decryptionTimeouts h) (batchDecryptionQueue h)
         (batchDecryptionTimeout h) (timers h) (awaiting h) (nextId h) (trace h).

Definition setDecryptingMessageIds (s : JSSet.t) (h : Hook) : Hook :=
  mkHook (mounted h) (decryptedMessagesCache h) s (retryCounts h)
         (decryptionTimeouts h) (batchDecryptionQueue h)
         (batchDecryptionTimeout h) (timers h) (awaiting h) (nextId h) (trace h).

Definition setRetryCounts (m : JSMap.t nat) (h : Hook) : Hook :=
  mkHook (mounted h) (decryptedMessagesCache h) (decryptingMessageIds h) m
         (decryptionTimeouts h) (batchDecryptionQueue h)
         (batchDecryptionTimeout h) (timers h) (awaiting h) (nextId h) (trace h).

Definition setDecryptionTimeouts (m : JSMap.t nat) (h : Hook) : Hook :=
  mkHook (mounted h) (decryptedMessagesCache h) (decryptingMessageIds h)
         (retryCounts h) m (batchDecryptionQueue h)
         (batchDecryptionTimeout h) (timers h) (awaiting h) (nextId h) (trace h).

Definition setQueue (q : list Message.t) (h : Hook) : Hook :=
  mkHook (mounted h) (decryptedMessagesCache h) (decryptingMessageIds h)
         (retryCounts h) (decryptionTimeouts h) q
         (batchDecryptionTimeout h) (timers h) (awaiting h) (nextId h) (trace h).

Definition setBatchTimeout (t : option nat) (h : Hook) : Hook :=
  mkHook (mounted h) (decryptedMessagesCache h) (decryptingMessageIds h)
         (retryCounts h) (decryptionTimeouts h) (batchDecryptionQueue h)
         t (timers h) (awaiting h) (nextId h) (trace h).

(** [setTimeout(callback, delay)]: arms a timer and returns its id. *)
Definition setTimeout (cb : Callback) (d : Z) (h : Hook) : nat * Hook :=
  (nextId h,
   mkHook (mounted h) (decryptedMessagesCache h) (decryptingMessageIds h)
          (retryCounts h) (decryptionTimeouts h) (batchDecryptionQueue h)
          (batchDecryptionTimeout h)
          (timers h ++ [mkTimer (nextId h) d cb]) (awaiting h)
          (S (nextId h)) (trace h ++ [SetTimeout (nextId h) d cb])).

Definition dropTimer (id : nat) (h : Hook) : Hook :=
  mkHook (mounted h) (decryptedMessagesCache h) (decryptingMessageIds h)
         (retryCounts h) (decryptionTimeouts h) (batchDecryptionQueue h)
         (batchDecryptionTimeout h)
         (filter (fun t => negb (Nat.eqb (timerId t) id)) (timers h))
         (awaiting h) (nextId h) (trace h).

(** [clearTimeout(id)]: disarms the timer if it is still armed. *)
Definition clearTimeout (id : nat) (h : Hook) : Hook :=
  let h1 := dropTimer id h in
  mkHook (mounted h1) (decryptedMessagesCache h1) (decryptingMessageIds h1)
         (retryCounts h1) (decryptionTimeouts h1) (batchDecryptionQueue h1)
         (batchDecryptionTimeout h1) (timers h1) (awaiting h1) (nextId h1)
         (trace h1 ++ [ClearTimeout id]).

(** The hook reaches an [await]: the calls go out, the continuation waits. *)
Definition await (calls : list Event) (k : Pending) (h : Hook) : Hook :=
  mkHook (mounted h) (decryptedMessagesCache h) (decryptingMessageIds h)
         (retryCounts h) (decryptionTimeouts h) (batchDecryptionQueue h)
         (batchDecryptionTimeout h) (timers h)
         (awaiting h ++ [(nextId h, k)]) (S (nextId h)) (trace h ++ calls).

Definition dropPending (id : nat) (h : Hook) : Hook :=
  mkHook (mounted h) (decryptedMessagesCache h) (decryptingMessageIds h)
         (retryCounts h) (decryptionTimeouts h) (batchDecryptionQueue h)
         (batchDecryptionTimeout h) (timers h)
         (filter (fun p => negb (Nat.eqb (fst p) id)) (awaiting h))
         (nextId h) (trace h).

Definition cacheSet (key value : string) (h : Hook) : Hook :=
  setCache (LRUCache.set key value (decryptedMessagesCache h)) h.

Definition decryptCallOf (m : Message.t) : Event :=
  DecryptCall (Message.messageCiphertextKMS m) (Message.kmsKeyVersionName m).

(** [retryCountsRef.current.get(messageId) || 0] *)
Definition retryCountOf (messageId : string) (counts : JSMap.t nat) : nat :=
  match JSMap.get messageId counts with
  | Some n => n
  | None => 0%nat
  end.

(** [decryptSingleMessage(message)] up to its [await] (lines 225-263). *)
Definition decryptSingleMessage (captured : JSSet.t) (message : Message.t)
  (h : Hook) : Hook :=
  if negb (mounted h) then h
  else
    let messageId := Message.id message in
    let retryCount := retryCountOf messageId (retryCounts h) in
    if (MAX_DECRYPTION_RETRIES <=? retryCount)%nat then
      if mounted h then
        cacheSet messageId
                 "[Error al descifrar - Límite de reintentos alcanzado]" h
      else h
    else
      let h1 := setDecryptingMessageIds
                  (JSSet.add messageId (decryptingMessageIds h)) h in
      let '(timeoutId, h2) :=
        setTimeout (DecryptionTimeout messageId captured) DECRYPTION_TIMEOUT h1 in
      let h3 := setDecryptionTimeouts
                  (JSMap.set messageId timeoutId (decryptionTimeouts h2)) h2 in
      await [decryptCallOf message]
            (AwaitSingle message retryCount timeoutId captured) h3.

(** The rest of [decryptSingleMessage] (lines 265-311), run when the call
    settles: the [try] continuation, the [catch] block and [finally]. *)
Definition resumeSingle (message : Message.t) (retryCount timeoutId : nat)
  (captured : JSSet.t) (outcome : Settled) (h : Hook) : Hook :=
  let messageId := Message.id message in
  let h1 := clearTimeout timeoutId h in
  let h2 := setDecryptionTimeouts
              (JSMap.delete messageId (decryptionTimeouts h1)) h1 in
  let h3 :=
    match outcome with
    | Fulfilled plaintext =>
        if mounted h2 then
          let h' := cacheSet messageId plaintext h2 in
          setRetryCounts (JSMap.delete messageId (retryCounts h')) h'
        else h2
    | Rejected _ =>
        if mounted h2 then
          if (retryCount <? MAX_DECRYPTION_RETRIES - 1)%nat then
            let delay := (DECRYPTION_RETRY_DELAY * 2 ^ Z.of_nat retryCount)%Z in
            let h' := setRetryCounts
                        (JSMap.set messageId (retryCount + 1)%nat (retryCounts h2))
                        h2 in
            snd (setTimeout (Retry message captured) delay h')
          else
            let h' := cacheSet messageId "[Error al descifrar]" h2 in
            setRetryCounts (JSMap.delete messageId (retryCounts h')) h'
        else h2
    end in
  if mounted h3 then
    setDecryptingMessageIds (JSSet.delete messageId (decryptingMessageIds h3)) h3
  else h3.

(** [processBatchDecryption()] up to its [await] (lines 161-172):
    [batchDecryptMessages] starts one [decryptChatMessageAPI] call per
    message of the batch. *)
Definition processBatchDecryption (captured : JSSet.t) (h : Hook) : Hook :=
  if negb (mounted h) || (List.length (batchDecryptionQueue h) =? 0)%nat then h
  else
    let batch := firstn MAX_CONCURRENT_DECRYPTIONS (batchDecryptionQueue h) in
    let h1 := setQueue (skipn MAX_CONCURRENT_DECRYPTIONS (batchDecryptionQueue h)) h in
    await (map decryptCallOf batch) (AwaitBatch batch captured) h1.

(** The body of [results.forEach] (lines 174-184). *)
Definition storeResult (h : Hook) (entry : Message.t * DecryptResult) : Hook :=
  let '(message, result) := entry in
  if mounted h && nonEmpty (plaintext result) then
    let h' := cacheSet (Message.id message) (plaintext result) h in
    setDecryptingMessageIds
      (JSSet.delete (Message.id message) (decryptingMessageIds h')) h'
  else h.

(** The rest of [processBatchDecryption] (lines 174-198): on the results
    of the batch call, or in the [catch] block when that call throws.  The
    results are paired with the batch by index; [batchDecryptMessages]
    returns as many results as it was given messages. *)
Definition resumeBatch (batch : list Message.t) (captured : JSSet.t)
  (answer : JsError + list DecryptResult) (h : Hook) : Hook :=
  match answer with
  | inr results =>
      let h1 := fold_left storeResult (combine batch results) h in
      if (0 <? List.length (batchDecryptionQueue h1))%nat
      then processBatchDecryption captured h1
      else h1
  | inl _ =>
      fold_left (fun h msg => decryptSingleMessage captured msg h) batch h
  end.

(** [queueBatchDecryption(message)] (lines 204-220).  A stored timer id is
    truthy: browsers number timers from 1. *)
Definition queueBatchDecryption (captured : JSSet.t) (message : Message.t)
  (h : Hook) : Hook :=
  if negb (nonEmpty (Message.messageCiphertextKMS message)) ||
     LRUCache.has (Message.id message) (decryptedMessagesCache h)
  then h
  else
    let h1 := setQueue (batchDecryptionQueue h ++ [message]) h in
    let h2 := match batchDecryptionTimeout h1 with
              | Some t => clearTimeout t h1
              | None => h1
              end in
    let '(t, h3) := setTimeout (ProcessBatch captured) 100 h2 in
    setBatchTimeout (Some t) h3.

(** [decryptMessageIfNeeded(message)] (lines 317-327); the state
    [decryptingMessageIds] it reads is the one of the latest render. *)
Definition decryptMessageIfNeeded (captured : JSSet.t) (message : Message.t)
  (h : Hook) : Hook :=
  if negb (nonEmpty (Message.messageCiphertextKMS message)) ||
     negb (nonEmpty (Message.kmsKeyVersionName message)) ||
     LRUCache.has (Message.id message) (decryptedMessagesCache h) ||
     JSSet.has (Message.id message) (decryptingMessageIds h)
  then h
  else queueBatchDecryption captured message h.

(** A timer fires: its callback runs. *)
Definition runCallback (cb : Callback) (h : Hook) : Hook :=
  match cb with
  | ProcessBatch captured => processBatchDecryption captured h
  | DecryptionTimeout messageId captured =>
      if mounted h && JSSet.has messageId captured then
        let h1 := setDecryptingMessageIds
                    (JSSet.delete messageId (decryptingMessageIds h)) h in
        cacheSet messageId "[Error al descifrar - Tiempo agotado]" h1
      else h
  | Retry message captured =>
      if mounted h then
        let h1 := setDecryptingMessageIds
                    (JSSet.delete (Message.id message) (decryptingMessageIds h))
                    h in
        decryptSingleMessage captured message h1
      else h
  end.

(** What the environment can do to the hook: the read path asks for a
    message ([decryptMessageIfNeeded]), an armed timer fires, or a call that
    is in flight settles.  A batch call settles with the outcome of each of
    its per-item calls, by position in the batch. *)
Inductive Input : Type :=
| Ask (message : Message.t) (captured : JSSet.t)
| Fire (timerId : nat)
| SettleSingle (callId : nat) (outcome : Settled)
| SettleBatch (callId : nat) (outcomes : nat -> Settled).

Definition findTimer (id : nat) (h : Hook) : option Timer :=
  find (fun t => Nat.eqb (timerId t) id) (timers h).

Definition findPending (id : nat) (h : Hook) : option Pending :=
  option_map snd (find (fun p => Nat.eqb (fst p) id) (awaiting h)).

(** One turn of the event loop; [None] when the input is not possible
    (the timer is not armed, the call is not in flight). *)
Definition react (i : Input) (h : Hook) : option Hook :=
  match i with
  | Ask message captured => Some (decryptMessageIfNeeded captured message h)
  | Fire id =>
      match findTimer id h with
      | Some t => Some (runCallback (callback t) (dropTimer id h))
      | None => None
      end
  | SettleSingle id outcome =>
      match findPending id h with
      | Some (AwaitSingle message retryCount timeoutId captured) =>
          Some (resumeSingle message retryCount timeoutId captured outcome
                             (dropPending id h))
      | _ => None
      end
  | SettleBatch id outcomes =>
      match findPending id h with
      | Some (AwaitBatch batch captured) =>
          Some (resumeBatch batch captured
                  (inr (batchDecryptMessages
                          (map outcomes (seq 0 (List.length batch)))))
                  (dropPending id h))
      | _ => None
      end
  end.

Fixpoint run (inputs : list Input) (h : Hook) : option Hook :=
  match inputs with
  | [] => Some h
  | i :: rest =>
      match react i h with
      | Some h' => run rest h'
      | None => None
      end
  end.



(** Readings of a trace. *)
Definition decryptCalls (tr : list Event) : list (string * string) :=
  flat_map (fun e => match e with
                     | DecryptCall c k => [(c, k)]
                     | _ => []
                     end) tr.

Definition retryDelays (tr : list Event) : list Z :=
  flat_map (fun e => match e with
                     | SetTimeout _ d (Retry _ _) => [d]
                     | _ => []
                     end) tr.

(** The result cache of the hook has the configured capacity and does not
    exceed it. *)
Definition cacheBounded (h : Hook) : Prop :=
  LRUCache.maxSize (decryptedMessagesCache h) = MAX_MESSAGES_IN_MEMORY /\
  (LRUCache.size (decryptedMessagesCache h) <= MAX_MESSAGES_IN_MEMORY)%Z.


End ChatStore.

(** ** The document store (collection "chats") *)
Module Firestore.

(** A message as stored in a chat document. *)
Record StoredMessage : Type := mkStored {
  id : string;
  messageCiphertextKMS : string;
  kmsKeyVersionName : string;
  originalSender : string;
  timestamp : Z
}.

Record ChatDoc : Type := mkDoc {
  docId : string;
  userId : string;
  title : string;
  createdAt : Z;
  messages : list StoredMessage
}.

Definition t : Type := list ChatDoc.

Definition sameMessage (a b : StoredMessage) : bool :=
  String.eqb (id a) (id b) &&
  String.eqb (messageCiphertextKMS a) (messageCiphertextKMS b) &&
  String.eqb (kmsKeyVersionName a) (kmsKeyVersionName b) &&
  String.eqb (originalSender a) (originalSender b) &&
  Z.eqb (timestamp a) (timestamp b).

(** [arrayUnion(m)]: the element is added unless an equal one is there. *)
Definition arrayUnion (m : StoredMessage) (l : list StoredMessage)
  : list StoredMessage :=
  if existsb (sameMessage m) l then l else l ++ [m].

Definition exists_ (ref : string) (db : t) : bool :=
  existsb (fun d => String.eqb (docId d) ref) db.

(** The effect of [updateDoc(ref, { messages: arrayUnion(m) })]. *)
Definition appendMessage (ref : string) (m : StoredMessage) (db : t) : t :=
  map (fun d =>
         if String.eqb (docId d) ref
         then mkDoc (docId d) (userId d) (title d) (createdAt d)
                    (arrayUnion m (messages d))
         else d) db.

(** The effect of [deleteDoc(ref)]. *)
Definition remove (ref : string) (db : t) : t :=
  filter (fun d => negb (String.eqb (docId d) ref)) db.

(** What the live subscription of a user shows: the chats whose [userId]
    is the user's. *)
Definition visibleTo (uid : string) (db : t) : t :=
  filter (fun d => String.eqb (userId d) uid) db.


End Firestore.

(** ** useChatStore.js: the chat mutators *)
Module ChatMutator.

(** The collaborators of one mutator call: how the crypto service answers
    an encrypt call, whether the store refuses a write (and with which
    error), the identifier the store gives a new document, and the values
    of [uuidv4()], [Timestamp.now()] and [serverTimestamp()]. *)
Record World : Type := mkWorld {
  encryptChatMessageAPI : string -> JsError + (string * string);
  addDocFails : option JsError;
  newDocId : string;
  updateDocFails : option JsError;
  deleteDocFails : option JsError;
  uuidv4 : string;
  timestampNow : Z;
  serverTimestamp : Z
}.

(** The store and the hook's [error] state. *)
Record State : Type := mkState { db : Firestore.t; error : option string }.

Definition setError (e : option string) (s : State) : State := mkState (db s) e.

Definition setDb (d : Firestore.t) (s : State) : State := mkState d (error s).

(** ASCII white space; strings are sequences of code units, and texts are
    taken to be ASCII where [trim] and [length] are concerned. *)
Definition isSpace (c : ascii) : bool :=
  let n := nat_of_ascii c in
  (Nat.eqb n 32 || (Nat.leb 9 n && Nat.leb n 13))%bool.

Fixpoint trimStart (s : string) : string :=
  match s with
  | String c rest => if isSpace c then trimStart rest else s
  | EmptyString => EmptyString
  end.

(** The string without its trailing white space. *)
Fixpoint trimEnd (s : string) : string :=
  match s with
  | String c rest =>
      match trimEnd rest with
      | EmptyString => if isSpace c then EmptyString else String c EmptyString
      | kept => String c kept
      end
  | EmptyString => EmptyString
  end.

(** [s.trim()] *)
Definition trim (s : string) : string := trimEnd (trimStart s).

(** [text.substring(0, 40) + (text.length > 40 ? '...' : '')] (line 517) *)
Definition titleOf (text : string) : string :=
  (String.substring 0 40 text ++
   (if (40 <? String.length text)%nat then "..." else ""))%string.

(** [err.message || "Please try again."] *)
Definition messageOr (err : JsError) : string :=
  if nonEmpty (message err) then message err else "Please try again.".

Definition notFound : JsError :=
  mkError "FirebaseError" "No document to update" "not-found".

(** [addDoc(collection(db, "chats"), chatData)] *)
Definition addDoc (w : World) (uid chatTitle : string) (s : State)
  : (JsError + string) * State :=
  match addDocFails w with
  | Some err => (inl err, s)
  | None =>
      (inr (newDocId w),
       setDb (db s ++ [Firestore.mkDoc (newDocId w) uid chatTitle
                                       (serverTimestamp w) []]) s)
  end.

(** [updateDoc(ref, { messages: arrayUnion(m) })]; the store refuses the
    update of a document that does not exist. *)
Definition updateDoc (w : World) (ref : string) (m : Firestore.StoredMessage)
  (s : State) : (JsError + unit) * State :=
  match updateDocFails w with
  | Some err => (inl err, s)
  | None =>
      if Firestore.exists_ ref (db s)
      then (inr tt, setDb (Firestore.appendMessage ref m (db s)) s)
      else (inl notFound, s)
  end.

(** [deleteDoc(ref)] *)
Definition deleteDoc (w : World) (ref : string) (s : State)
  : (JsError + unit) * State :=
  match deleteDocFails w with
  | Some err => (inl err, s)
  | None => (inr tt, setDb (Firestore.remove ref (db s)) s)
  end.

(** The [catch] block of [createNewChat] (lines 539-552). *)
Definition createFailed {A} (err : JsError) (s : State) : (JsError + A) * State :=
  let errorMessage :=
    ("Failed to create chat. " ++
     (if includes "encrypt" (message err)
      then "Unable to secure your message. " else "") ++
     messageOr err)%string in
  (inl (newError errorMessage), setError (Some errorMessage) s).

(** [createNewChat(firstMessageText)] (lines 499-553) *)
Definition createNewChat (userId : option string) (firstMessageText : string)
  (w : World) (s : State) : (JsError + string) * State :=
  match userId with
  | Some uid =>
      if negb (truthy userId) then (inl (newError "User not authenticated."), s)
      else if negb (nonEmpty (trim firstMessageText))
      then (inl (newError "Message cannot be empty."), s)
      else
        let s0 := setError None s in
        match encryptChatMessageAPI w (trim firstMessageText) with
        | inl err => createFailed err s0
        | inr (ciphertext, keyVersion) =>
            match addDoc w uid (titleOf firstMessageText) s0 with
            | (inl err, s1) => createFailed err s1
            | (inr chatRef, s1) =>
                let firstMessageToStore :=
                  Firestore.mkStored (uuidv4 w) ciphertext keyVersion "user"
                                     (timestampNow w) in
                match updateDoc w chatRef firstMessageToStore s1 with
                | (inl err, s2) => createFailed err s2
                | (inr _, s2) => (inr chatRef, s2)
                end
            end
        end
  | None => (inl (newError "User not authenticated."), s)
  end.

(** The [catch] block of [addMessageToChat] (lines 588-603). *)
Definition addFailed {A} (err : JsError) (s : State) : (JsError + A) * State :=
  let errorMessage :=
    ("Failed to send message. " ++
     (if includes "encrypt" (message err)
      then "Unable to secure your message. "
      else if String.eqb (code err) "not-found" then "Chat not found. " else "") ++
     messageOr err)%string in
  (inl (newError errorMessage), setError (Some errorMessage) s).

(** [addMessageToChat(chatId, { text, sender })] (lines 558-604) *)
Definition addMessageToChat (userId : option string) (chatId text sender : string)
  (w : World) (s : State) : (JsError + unit) * State :=
  if negb (truthy userId) || negb (nonEmpty chatId)
  then (inl (newError "User or chat ID missing"), s)
  else if negb (nonEmpty (trim text)) || negb (nonEmpty sender)
  then (inl (newError "Invalid message data."), s)
  else
    let s0 := setError None s in
    match encryptChatMessageAPI w (trim text) with
    | inl err => addFailed err s0
    | inr (ciphertext, keyVersion) =>
        let messageToStore :=
          Firestore.mkStored (uuidv4 w) ciphertext keyVersion sender
                             (timestampNow w) in
        match updateDoc w chatId messageToStore s0 with
        | (inl err, s1) => addFailed err s1
        | (inr _, s1) => (inr tt, s1)
        end
    end.

(** A chat as the hook holds it in memory. *)
Record Chat : Type := mkChat {
  chatId : string;
  chatUserId : string;
  chatTitle : string;
  chatCreatedAt : Z;
  chatMessages : list Message.t
}.

(** The body of [chatMessages.forEach] in [deleteChat] (lines 624-639):
    the message leaves the in-progress set and the retry state, and its
    timeout timer, if one is recorded, is cleared. *)
Definition purge (h : ChatStore.Hook) (msg : Message.t) : ChatStore.Hook :=
  let h1 := ChatStore.setDecryptingMessageIds
              (JSSet.delete (Message.id msg) (ChatStore.decryptingMessageIds h)) h in
  let h2 := ChatStore.setRetryCounts
              (JSMap.delete (Message.id msg) (ChatStore.retryCounts h1)) h1 in
  match JSMap.get (Message.id msg) (ChatStore.decryptionTimeouts h2) with
  | Some timeoutId =>
      let h3 := ChatStore.clearTimeout timeoutId h2 in
      ChatStore.setDecryptionTimeouts
        (JSMap.delete (Message.id msg) (ChatStore.decryptionTimeouts h3)) h3
  | None => h2
  end.

(** The [catch] block of [deleteChat] (lines 646-661). *)
Definition deleteFailed {A} (err : JsError) (s : State) : (JsError + A) * State :=
  let errorMessage :=
    ("Failed to delete chat. " ++
     (if String.eqb (code err) "permission-denied"
      then "You don't have permission to delete this chat."
      else if String.eqb (code err) "not-found" then "Chat not found."
      else messageOr err))%string in
  (inl (newError errorMessage), setError (Some errorMessage) s).

(** [deleteChat(chatIdToDelete)] (lines 609-662); [chats] is the list the
    callback closed over. *)
Definition deleteChat (userId : option string) (chats : list Chat)
  (chatIdToDelete : string) (w : World) (h : ChatStore.Hook) (s : State)
  : (JsError + unit) * ChatStore.Hook * State :=
  if negb (truthy userId) then
    let errorMsg := "User not authenticated. Cannot delete chat." in
    (inl (newError errorMsg), h, setError (Some errorMsg) s)
  else
    let s0 := setError None s in
    let chatMessagesToPurge :=
      match find (fun chat => String.eqb (chatId chat) chatIdToDelete) chats with
      | Some chat => chatMessages chat
      | None => []
      end in
    let h1 := fold_left purge chatMessagesToPurge h in
    match deleteDoc w chatIdToDelete s0 with
    | (inl err, s1) => let '(r, s2) := deleteFailed err s1 in (r, h1, s2)
    | (inr _, s1) => (inr tt, h1, s1)
    end.

End ChatMutator.

(** ** useChatStore.js: pagination of the chat list *)
Module ChatSync.

(** The one-shot query of [loadMoreChats] (lines 338-344). *)
Record Query : Type := mkQuery {
  ofUser : string;
  startAfter : Firestore.ChatDoc;
  limit : nat
}.

(** The React state and the refs that pagination uses. *)
Record View : Type := mkView {
  chats : list ChatMutator.Chat;
  loadingMore : bool;
  hasMore : bool;
  error : option string;
  lastVisibleChat : option Firestore.ChatDoc;
  loadedChatsCount : nat;
  queries : list Query   (* the queries issued so far, oldest first *)
}.

Section LoadMore.

(** [getDocs]: the answer of the store to a query, or its failure. *)
Variable getDocs : Query -> JsError + list Firestore.ChatDoc.

(** The mapping of a stored document to a chat (lines 353-373).  It draws
    a fresh identifier and the current time for fields that are missing in
    the stored data, so it is a parameter here. *)
Variable toChat : Firestore.ChatDoc -> ChatMutator.Chat.

(** [loadMoreChats()] (lines 332-386), from the call to the end of its
    [finally] block. *)
Definition loadMoreChats (userId : option string) (v : View) : View :=
  match userId, lastVisibleChat v with
  | Some uid, Some cursor =>
      if negb (truthy userId) || loadingMore v || negb (hasMore v) then v
      else
        let q := mkQuery uid cursor ChatStore.CHAT_PAGE_SIZE in
        match getDocs q with
        | inr docs =>
            match docs with
            | [] =>
                (* snapshot.empty *)
                mkView (chats v) false false (error v) (lastVisibleChat v)
                       (loadedChatsCount v) (queries v ++ [q])
            | _ :: _ =>
                let newChats := map toChat docs in
                mkView (chats v ++ newChats) false
                       (Nat.eqb (List.length docs) ChatStore.CHAT_PAGE_SIZE)
                       (error v) (last (map Some docs) None)
                       (loadedChatsCount v + List.length newChats)
                       (queries v ++ [q])
            end
        | inl _ =>
            mkView (chats v) false (hasMore v)
                   (Some "Failed to load more chats") (lastVisibleChat v)
                   (loadedChatsCount v) (queries v ++ [q])
        end
  | _, _ => v
  end.

(** The store honours the [limit] of a query. *)
Definition honoursLimit : Prop :=
  forall q docs, getDocs q = inr docs -> (List.length docs <= limit q)%nat.

End LoadMore.

End ChatSync.

(** ** apiService.js: the token cache, the clean-up timer and the error texts *)
Module ApiClient.

Definition clearTokenCache (s : Api.State) : Api.State :=
  Api.setToken None None s.

(** The callback of the clean-up timer that [cacheResponse] arms
    (lines 68-70): it deletes whatever the cache holds for the key. *)
Definition cleanupTimer (key : string) (s : Api.State) : Api.State :=
  Api.setResponseCache (JSMap.delete key (Api.responseCache s)) s.

Definition handleApiError (error : JsError) (context : string) : string :=
  if includes "Authentication required" (message error) then
    "Please sign in to continue."
  else if includes "Network error" (message error) then
    "Connection error. Please check your internet and try again."
  else if includes "Too many requests" (message error) then
    "You're sending messages too quickly. Please slow down."
  else if includes "Server error" (message error) then
    "The service is temporarily unavailable. Please try again later."
  else if includes "timeout" (message error) then
    "Request timed out. Please try again."
  else if nonEmpty (message error) && negb (includes "API Error" (message error)) then
    message error
  else
    ("An error occurred in " ++ context ++ ". Please try again.")%string.

End ApiClient.

(** ** apiService.js: [debounceRequest] (lines 29-56)

    The entries of [requestQueue] are objects that the timer callbacks
    keep a reference to, so they live in a heap and the queue maps a key to
    the address of its entry.  A thunk [fn] is known by a name of type
    [Fn]; what it returns or throws is decided by the environment when the
    call settles. *)
Module Debounce.

Section WithThunks.

Variables Fn A : Type.

(** How the awaited [fn()] ends. *)
Inductive Outcome : Type :=
| Returns (result : A)
| ThrowsError (error : JsError).

(** A promise handed to a caller. *)
Inductive PromiseState : Type :=
| Pending
| Settled (outcome : Outcome).

(** An entry of [requestQueue]: the promises waiting (by number) and the
    id of the timer last armed for it. *)
Record Entry : Type := mkEntry { promises : list nat; timeout : option nat }.

(** An armed timer: its callback closed over [key], [fn] and [entry]. *)
Record Timer : Type := mkTimer {
  timerId : nat; delay : Z; key : string; fn : Fn; entry : nat
}.

(** A timer callback waiting at [await fn()]. *)
Record Call : Type := mkCall { callId : nat; callKey : string; callEntry : nat }.

Record State : Type := mkState {
  requestQueue : JSMap.t nat;
  heap : list Entry;
  issued : list PromiseState;   (* the promises returned so far *)
  timers : list Timer;
  running : list Call;
  nextId : nat;                 (* ids of timers and calls *)
  started : list Fn             (* the thunks called so far, in order *)
}.

(** The module when it is loaded. *)
Definition empty : State := mkState JSMap.empty [] [] [] [] 1 [].

Fixpoint updateEntry (ref : nat) (f : Entry -> Entry) (h : list Entry) : list Entry :=
  match h, ref with
  | [], _ => []
  | e :: rest, O => f e :: rest
  | e :: rest, S n => e :: updateEntry n f rest
  end.

Definition entryAt (ref : nat) (h : list Entry) : Entry :=
  nth ref h (mkEntry [] None).

(** [clearTimeout(id)] *)
Definition clearTimeout (id : option nat) (ts : list Timer) : list Timer :=
  match id with
  | Some t => filter (fun x => negb (Nat.eqb (timerId x) t)) ts
  | None => ts
  end.

(** [debounceRequest(key, fn, delay)]: the number of the promise returned
    and the state after the executor has run. *)
Definition debounceRequest (k : string) (f : Fn) (d : Z) (s : State) : nat * State :=
  let p := List.length (issued s) in
  let issued' := issued s ++ [Pending] in
  let '(queue1, heap1, timers1) :=
    match JSMap.get k (requestQueue s) with
    | Some existing =>
        (requestQueue s,
         updateEntry existing
           (fun e => mkEntry (promises e ++ [p]) (timeout e)) (heap s),
         clearTimeout (timeout (entryAt existing (heap s))) (timers s))
    | None =>
        (JSMap.set k (List.length (heap s)) (requestQueue s),
         heap s ++ [mkEntry [p] None],
         timers s)
    end in
  match JSMap.get k queue1 with
  | Some ref =>
      (p, mkState queue1
                  (updateEntry ref (fun e => mkEntry (promises e) (Some (nextId s))) heap1)
                  issued'
                  (timers1 ++ [mkTimer (nextId s) d k f ref])
                  (running s) (S (nextId s)) (started s))
  | None => (p, mkState queue1 heap1 issued' timers1 (running s) (nextId s) (started s))
  end.

(** The timer fires: the callback calls [fn()] and waits for it. *)
Definition fire (id : nat) (s : State) : option State :=
  match find (fun t => Nat.eqb (timerId t) id) (timers s) with
  | Some t =>
      Some (mkState (requestQueue s) (heap s) (issued s)
                    (filter (fun x => negb (Nat.eqb (timerId x) id)) (timers s))
                    (running s ++ [mkCall (nextId s) (key t) (entry t)])
                    (S (nextId s)) (started s ++ [fn t]))
  | None => None
  end.

(** [p.resolve(result)] or [p.reject(error)]: settles the promise unless it
    is settled already. *)
Fixpoint settlePromise (p : nat) (o : Outcome) (ps : list PromiseState)
  : list PromiseState :=
  match ps, p with
  | [], _ => []
  | Pending :: rest, O => Settled o :: rest
  | x :: rest, O => x :: rest
  | x :: rest, S n => x :: settlePromise n o rest
  end.

(** [fn()] settles: the rest of the timer callback (lines 47-53). *)
Definition settle (id : nat) (o : Outcome) (s : State) : option State :=
  match find (fun c => Nat.eqb (callId c) id) (running s) with
  | Some c =>
      Some (mkState (JSMap.delete (callKey c) (requestQueue s)) (heap s)
                    (fold_left (fun ps p => settlePromise p o ps)
                               (promises (entryAt (callEntry c) (heap s)))
                               (issued s))
                    (timers s)
                    (filter (fun x => negb (Nat.eqb (callId x) id)) (running s))
                    (nextId s) (started s))
  | None => None
  end.

(** What happens to the module: a caller calls, a timer fires, a thunk
    settles. *)
Inductive Input : Type :=
| Request (k : string) (f : Fn) (d : Z)
| Fire (id : nat)
| Settle (id : nat) (o : Outcome).

Definition react (i : Input) (s : State) : option State :=
  match i with
  | Request k f d => Some (snd (debounceRequest k f d s))
  | Fire id => fire id s
  | Settle id o => settle id o s
  end.

Fixpoint run (inputs : list Input) (s : State) : option State :=
  match inputs with
  | [] => Some s
  | i :: rest =>
      match react i s with
      | Some s' => run rest s'
      | None => None
      end
  end.

(** The state after [n + 1] calls for [k] in a row, the last one with the
    thunk [f] and the delay [d]. *)
Definition afterBurst (k : string) (n : nat) (f : Fn) (d : Z) : State :=
  mkState [(k, 0%nat)] [mkEntry (seq 0 (S n)) (Some (S n))]
          (repeat Pending (S n)) [mkTimer (S n) d k f 0] [] (S (S n)) [].

End WithThunks.

Arguments Returns {A} result.
Arguments ThrowsError {A} error.
Arguments Pending {A}.
Arguments Settled {A} outcome.
Arguments mkTimer {Fn} timerId delay key fn entry.
Arguments timerId {Fn} t.
Arguments empty {Fn A}.
Arguments debounceRequest {Fn A} k f d s.
Arguments fire {Fn A} id s.
Arguments settle {Fn A} id o s.
Arguments Request {Fn A} k f d.
Arguments Fire {Fn A} id.
Arguments Settle {Fn A} id o.
Arguments react {Fn A} i s.
Arguments run {Fn A} inputs s.
Arguments afterBurst {Fn A} k n f d.
Arguments requestQueue {Fn A} s.
Arguments heap {Fn A} s.
Arguments issued {Fn A} s.
Arguments timers {Fn A} s.
Arguments running {Fn A} s.
Arguments nextId {Fn A} s.
Arguments started {Fn A} s.
Arguments settlePromise {A} p o ps.

End Debounce.

(** ** useChatStore.js: the life cycle of the hook *)
Module HookLifecycle.

Definition setMounted (b : bool) (h : ChatStore.Hook) : ChatStore.Hook :=
  ChatStore.mkHook b (ChatStore.decryptedMessagesCache h)
    (ChatStore.decryptingMessageIds h) (ChatStore.retryCounts h)
    (ChatStore.decryptionTimeouts h) (ChatStore.batchDecryptionQueue h)
    (ChatStore.batchDecryptionTimeout h) (ChatStore.timers h)
    (ChatStore.awaiting h) (ChatStore.nextId h) (ChatStore.trace h).

(** The set [visibleMessageIds] that [cleanupMemory] builds (lines 146-149). *)
Definition visibleMessageIds (chats : list ChatMutator.Chat) : JSSet.t :=
  fold_left
    (fun ids chat =>
       fold_left (fun ids msg => JSSet.add (Message.id msg) ids)
                 (ChatMutator.chatMessages chat) ids)
    chats JSSet.empty.

(** The loop over [retryCountsRef.current] (lines 151-155): the entry of a
    message that is not visible is deleted. *)
Definition dropInvisible (visible : JSSet.t) (counts : JSMap.t nat) : JSMap.t nat :=
  fold_left
    (fun m entry =>
       if negb (JSSet.has (fst entry) visible) then JSMap.delete (fst entry) m else m)
    counts counts.

(** [cleanupMemory()] (lines 140-156); [chats] is the list that the
    callback closed over. *)
Definition cleanupMemory (chats : list ChatMutator.Chat) (h : ChatStore.Hook)
  : ChatStore.Hook :=
  if negb (ChatStore.mounted h) then h
  else ChatStore.setRetryCounts
         (dropInvisible (visibleMessageIds chats) (ChatStore.retryCounts h)) h.

(** The hook together with the interval of its periodic clean-up
    ([memoryCleanupIntervalRef], armed or not). *)
Record Component : Type := mkComponent {
  hook : ChatStore.Hook;
  memoryCleanupInterval : bool
}.

(** The mount effect (lines 108-115). *)
Definition mount (h : ChatStore.Hook) : Component :=
  mkComponent (setMounted true h) true.

(** The clean-up of the mount effect (lines 116-134), run when the
    component unmounts.  [decryptionQueuesRef] is never written and is left
    out. *)
Definition unmount (c : Component) : Component :=
  let h1 := setMounted false (hook c) in
  let h2 := match ChatStore.batchDecryptionTimeout h1 with
            | Some t => ChatStore.clearTimeout t h1
            | None => h1
            end in
  let h3 := fold_left (fun h entry => ChatStore.clearTimeout (snd entry) h)
                      (ChatStore.decryptionTimeouts h2) h2 in
  let h4 := ChatStore.setDecryptionTimeouts JSMap.empty h3 in
  let h5 := ChatStore.setRetryCounts JSMap.empty h4 in
  mkComponent
    (ChatStore.setCache (LRUCache.clear (ChatStore.decryptedMessagesCache h5)) h5)
    false.

(** What can happen to a mounted or unmounted component: a move of the
    pipeline, a tick of the clean-up interval, or the unmount.  The interval
    was created by the mount effect of the first render and calls that
    render's [cleanupMemory], which closed over the initial, empty [chats]. *)
Inductive Input : Type :=
| Pipeline (i : ChatStore.Input)
| CleanupTick
| Unmount.

Definition react (i : Input) (c : Component) : option Component :=
  match i with
  | Pipeline p =>
      option_map (fun h => mkComponent h (memoryCleanupInterval c))
                 (ChatStore.react p (hook c))
  | CleanupTick =>
      if memoryCleanupInterval c
      then Some (mkComponent (cleanupMemory [] (hook c)) true)
      else None
  | Unmount => Some (unmount c)
  end.

Fixpoint run (inputs : list Input) (c : Component) : option Component :=
  match inputs with
  | [] => Some c
  | i :: rest =>
      match react i c with
      | Some c' => run rest c'
      | None => None
      end
  end.

(** The cache after the values [entries] were stored in it, in order. *)
Definition stores (entries : list (string * string)) (c : LRUCache.t) : LRUCache.t :=
  fold_left (fun c entry => LRUCache.set (fst entry) (snd entry) c) entries c.

(** A message is listed in one of the chats. *)
Definition listed (messageId : string) (chats : list ChatMutator.Chat) : bool :=
  existsb (fun chat =>
             existsb (fun msg => String.eqb (Message.id msg) messageId)
                     (ChatMutator.chatMessages chat)) chats.

(** Only the debounce timer of the batcher is armed and only batch calls
    are in flight. *)
Definition batchOnly (h : ChatStore.Hook) : Prop :=
  Forall (fun t => exists captured,
              ChatStore.callback t = ChatStore.ProcessBatch captured)
         (ChatStore.timers h) /\
  Forall (fun p => exists batch captured,
              snd p = ChatStore.AwaitBatch batch captured)
         (ChatStore.awaiting h).

End HookLifecycle.

(** ** App.jsx: what the chat window shows for a message *)
Module App.

(** The fields of a rendered message that depend on the decryption state
    (lines 38-60); the other fields are copied from the message. *)
Record Shown : Type := mkShown {
  text : option string;          (* [None] is [undefined] *)
  isDecrypting : bool;
  hasErrorDecrypting : bool
}.

(** [decryptedText === "[Error al descifrar]"] *)
Definition isErrorMarker (decryptedText : option string) : bool :=
  match decryptedText with
  | Some t => String.eqb t "[Error al descifrar]"
  | None => false
  end.

(** The body of [activeChatDetails.messages.map] (lines 38-60), for a
    message without a [text] field of its own.  [decryptedMessagesMap] is
    the copy of the cache that the hook hands out, [decryptingMessageIds]
    its state of that name. *)
Definition activeChatMessage (decryptedMessagesMap : JSMap.t string)
  (decryptingMessageIds : JSSet.t) (msg : Message.t) : Shown :=
  let decryptedText := JSMap.get (Message.id msg) decryptedMessagesMap in
  let isCurrentlyDecrypting := JSSet.has (Message.id msg) decryptingMessageIds in
  let displayText :=
    if nonEmpty (Message.messageCiphertextKMS msg) then
      if isErrorMarker decryptedText then Some "[Error al descifrar]"
      else if truthy decryptedText then decryptedText
      else Some (if isCurrentlyDecrypting then "" else "Cargando mensaje...")
    else None in
  mkShown displayText
          (isCurrentlyDecrypting ||
           (nonEmpty (Message.messageCiphertextKMS msg) &&
            negb (truthy decryptedText) && negb (isErrorMarker decryptedText)))
          (isErrorMarker decryptedText).

(** [decryptedMessagesMap] (useChatStore.js, lines 99-105): the entries of
    the cache, copied at the render that follows a write (every write to
    the cache is followed by [setChats], which makes the memo recompute). *)
Definition decryptedMessagesMap (h : ChatStore.Hook) : JSMap.t string :=
  fold_left (fun map entry => JSMap.set (fst entry) (snd entry) map)
            (LRUCache.cache (ChatStore.decryptedMessagesCache h)) JSMap.empty.

(** What the window shows for a message, given the hook. *)
Definition shown (h : ChatStore.Hook) (msg : Message.t) : Shown :=
  activeChatMessage (decryptedMessagesMap h) (ChatStore.decryptingMessageIds h) msg.

End App.

(** ** useChatStore.js: the live subscription to the chat list *)
Module ChatSubscription.

(** The view of the chat list together with [loadingChats]. *)
Record Screen : Type := mkScreen { view : ChatSync.View; loadingChats : bool }.

Section Snapshot.

(** The mapping of a stored document to a chat (lines 429-455), a
    parameter as in [ChatSync]. *)
Variable toChat : Firestore.ChatDoc -> ChatMutator.Chat.

(** The callback of [onSnapshot] for a snapshot (lines 426-464);
    [mounted] is [mountedRef.current]. *)
Definition onSnapshot (mounted : bool) (docs : list Firestore.ChatDoc)
  (sc : Screen) : Screen :=
  if negb mounted then sc
  else
    let v := view sc in
    mkScreen
      (ChatSync.mkView (map toChat docs) (ChatSync.loadingMore v)
         (Nat.eqb (List.length docs) ChatStore.INITIAL_CHAT_LIMIT) None
         match docs with
         | [] => ChatSync.lastVisibleChat v
         | _ :: _ => last (map Some docs) None
         end
         (List.length docs) (ChatSync.queries v))
      false.

(** The callback of [onSnapshot] for an error (lines 465-485). *)
Definition onSnapshotError (mounted : bool) (err : JsError) (sc : Screen) : Screen :=
  if negb mounted then sc
  else
    let v := view sc in
    let errorMessage :=
      ("Failed to load chats. " ++
       (if String.eqb (code err) "permission-denied" then
          "You don't have permission to access these chats."
        else if String.eqb (code err) "unavailable" then
          "The service is temporarily unavailable. Please try again later."
        else if String.eqb (code err) "failed-precondition" then
          "Please ensure you have the required indexes set up in Firestore."
        else if nonEmpty (message err) then message err
        else "An unknown error occurred."))%string in
    mkScreen
      (ChatSync.mkView [] (ChatSync.loadingMore v) (ChatSync.hasMore v)
         (Some errorMessage) (ChatSync.lastVisibleChat v)
         (ChatSync.loadedChatsCount v) (ChatSync.queries v))
      false.

End Snapshot.

(** The head of the subscription effect (lines 395-413), run when
    [userId] changes: what it does to the view. *)
Definition resubscribe (userId : option string) (sc : Screen) : Screen :=
  let v := view sc in
  if negb (truthy userId) then
    mkScreen (ChatSync.mkView [] (ChatSync.loadingMore v) true None None 0
                              (ChatSync.queries v)) false
  else
    mkScreen (ChatSync.mkView (ChatSync.chats v) (ChatSync.loadingMore v) true None
                              None 0 (ChatSync.queries v)) true.

End ChatSubscription.

(** ** chatCryptoKMS.js: the two HTTP functions behind the crypto service *)
Module CloudFunctions.

(** A text between double quotes. *)
Definition quoted (s : string) : string :=
  (String (ascii_of_nat 34) s ++ String (ascii_of_nat 34) EmptyString)%string.

(** [s.split(separator)] for a separator that is not empty: the pieces
    between the occurrences of the separator, found from left to right.
    [skip] counts the characters of a separator that was just found. *)
Fixpoint splitFrom (separator : string) (skip : nat) (piece s : string)
  : list string :=
  match s with
  | EmptyString => [piece]
  | String c rest =>
      match skip with
      | S n => splitFrom separator n piece rest
      | O =>
          if String.prefix separator s
          then piece :: splitFrom separator (String.length separator - 1) "" rest
          else splitFrom separator 0 (piece ++ String c EmptyString)%string rest
      end
  end.

Definition split (separator s : string) : list string :=
  splitFrom separator 0 "" s.

(** [s.lastIndexOf(search)], counting from [i] for the first character of
    [s]; -1 when [search] does not occur. *)
Fixpoint lastIndexOfFrom (search s : string) (i : Z) : Z :=
  match s with
  | EmptyString => if String.prefix search s then i else (-1)%Z
  | String _ rest =>
      let later := lastIndexOfFrom search rest (i + 1) in
      if (0 <=? later)%Z then later
      else if String.prefix search s then i else (-1)%Z
  end.

Definition lastIndexOf (search s : string) : Z := lastIndexOfFrom search s 0.

(** [s.substring(0, end)]; a negative [end] counts as 0. *)
Definition substringTo (finish : Z) (s : string) : string :=
  String.substring 0 (Z.to_nat finish) s.

(** A field of the JSON body of a request: missing, a string, or a value
    of another type. *)
Inductive Field : Type :=
| Missing
| Text (s : string)
| NotText.

(** The request, as far as the functions read it. *)
Record Request : Type := mkRequest {
  method : string;
  origin : option string;          (* req.headers.origin *)
  authorization : option string;   (* req.headers.authorization *)
  body : string -> Field           (* req.body, by field name *)
}.

(** What [res.send] or [res.json] sends. *)
Inductive Sent : Type :=
| Plain (text : string)
| Json (fields : list (string * string)).

Record Response : Type := mkResponse {
  headers : JSMap.t string;
  status : Z;
  sent : Sent
}.

(** The [code] of a thrown error. *)
Inductive Code : Type :=
| NoCode
| Num (n : Z)
| Str (s : string).

(** An error thrown in the [try] block, as far as the [catch] block looks
    at it: whether it is an [HttpsError], the [status] of its
    [httpErrorCode] if it has one, its [code] and its [message]. *)
Record Failure : Type := mkFailure {
  instanceofHttpsError : bool;
  httpErrorCode : option Z;
  code : Code;
  message : string
}.

(** [new Error(message)] *)
Definition plainError (msg : string) : Failure := mkFailure false None NoCode msg.

(** [new functions.https.HttpsError('internal', message)] *)
Definition internalError (msg : string) : Failure :=
  mkFailure true (Some 500%Z) (Str "internal") msg.

Definition truthyCode (c : Code) : bool :=
  match c with
  | NoCode => false
  | Num n => negb (n =? 0)%Z
  | Str s => nonEmpty s
  end.

(** The code inside a template literal. *)
Definition showCode (c : Code) : string :=
  match c with
  | NoCode => "undefined"
  | Num n => NilZero.string_of_int (Z.to_int n)
  | Str s => s
  end.

(** [process.env] *)
Record Env : Type := mkEnv {
  FUNCTIONS_EMULATOR : option string;
  KEYRING_SECRET_PATH_ENV : option string
}.

Section WithServices.

(** The bytes of a [Buffer], with the conversions the functions use. *)
Variable Buffer : Type.
Variable fromUtf8 : string -> Buffer.     (* Buffer.from(text) *)
Variable fromBase64 : string -> Buffer.   (* Buffer.from(text, 'base64') *)
Variable toBase64 : Buffer -> string.     (* buffer.toString('base64') *)
Variable toUtf8 : Buffer -> string.       (* buffer.toString('utf8') *)

(** What [kmsClient.encrypt] resolves to. *)
Record EncryptResponse : Type := mkEncryptResponse {
  encryptedCiphertext : option Buffer;
  encryptedName : string
}.

(** What [kmsClient.decrypt] resolves to. *)
Record DecryptResponse : Type := mkDecryptResponse {
  decryptedPlaintext : option Buffer;
  cryptoKeyVersion : string
}.

(** The services the functions call. *)
Record Services : Type := mkServices {
  verifyIdToken : string -> option Failure;   (* [None]: the token is valid *)
  kmsEncrypt : string -> Buffer -> Failure + EncryptResponse;
  kmsDecrypt : string -> Buffer -> Failure + DecryptResponse
}.

(** The calls made to the services, in order. *)
Inductive ServiceCall : Type :=
| VerifyIdToken (idToken : string)
| KmsEncrypt (name : string) (plaintext : Buffer)
| KmsDecrypt (name : string) (ciphertext : Buffer).

(** The result of a request: the response, the module variable
    [validatedKmsKeyPath] afterwards, and the service calls made. *)
Record Outcome : Type := mkOutcome {
  response : Response;
  validatedKmsKeyPath : option string;
  calls : list ServiceCall
}.

Definition allowedOrigins : list string :=
  ["http://localhost:5173"; "https://saas-stream-react-gcp.web.app";
   "https://saas-stream-react-gcp.firebaseapp.com"].

(** [allowedOrigins.includes(origin)] *)
Definition isAllowed (o : option string) : bool :=
  match o with
  | Some x => existsb (String.eqb x) allowedOrigins
  | None => false
  end.

(** The headers set before the method is looked at (lines 37-42). *)
Definition corsHeaders (rq : Request) : JSMap.t string :=
  let h := match origin rq with
           | Some o =>
               if isAllowed (origin rq)
               then JSMap.set "Access-Control-Allow-Origin" o JSMap.empty
               else JSMap.empty
           | None => JSMap.empty
           end in
  JSMap.set "Access-Control-Allow-Credentials" "true" h.

(** The answer to a preflight request (lines 44-50). *)
Definition preflight (rq : Request) : Response :=
  mkResponse
    (JSMap.set "Access-Control-Max-Age" "3600"
       (JSMap.set "Access-Control-Allow-Headers" "Content-Type, Authorization"
          (JSMap.set "Access-Control-Allow-Methods" "POST, OPTIONS"
             (corsHeaders rq))))
    204 (Plain "").

(** [req.headers.authorization?.split('Bearer ')[1]] *)
Definition idTokenOf (rq : Request) : option string :=
  match authorization rq with
  | Some header => nth_error (split "Bearer " header) 1
  | None => None
  end.

(** [process.env.FUNCTIONS_EMULATOR !== 'true'] *)
Definition notEmulated (env : Env) : bool :=
  match FUNCTIONS_EMULATOR env with
  | Some v => negb (String.eqb v "true")
  | None => true
  end.

(** The part of [getAndValidateKmsKeyPath] that reads the environment
    (lines 19-31). *)
Definition readKmsKeyPath (env : Env) (validated : option string)
  : (Failure + string) * option string :=
  if truthy (KEYRING_SECRET_PATH_ENV env) then
    let keyPath :=
      ChatMutator.trim (match KEYRING_SECRET_PATH_ENV env with
                        | Some v => v
                        | None => ""
                        end) in
    if negb (includes "/keyRings/" keyPath) ||
       negb (includes "/cryptoKeys/" keyPath) ||
       negb (includes "/cryptoKeyVersions/" keyPath)
    then
      (inl (plainError
              ("Invalid KMS CryptoKeyVersion path format provided in " ++
               quoted "KEYRING_SECRET_PATH_ENV" ++ ".")%string), validated)
    else (inr keyPath, Some keyPath)
  else
    (inl (internalError
            "Server configuration error: KMS key path environment variable missing."),
     validated).

(** [getAndValidateKmsKeyPath()] (lines 13-32): the path, or the error
    thrown, and the module variable [validatedKmsKeyPath] afterwards. *)
Definition getAndValidateKmsKeyPath (env : Env) (validated : option string)
  : (Failure + string) * option string :=
  match validated with
  | Some path =>
      if nonEmpty path then (inr path, validated) else readKmsKeyPath env validated
  | None => readKmsKeyPath env validated
  end.

(** The token check (lines 57-72): the response that ends the request, if
    any, and the service calls made. *)
Definition authenticate (sv : Services) (env : Env) (rq : Request)
  : option Response * list ServiceCall :=
  let idToken := idTokenOf rq in
  if negb (truthy idToken) && notEmulated env then
    (Some (mkResponse (corsHeaders rq) 401
                      (Plain "Unauthorized: Missing Firebase ID Token.")), [])
  else
    match idToken with
    | Some t =>
        if nonEmpty t then
          match verifyIdToken sv t with
          | Some _ =>
              (Some (mkResponse (corsHeaders rq) 401
                                (Plain "Unauthorized: Invalid Firebase ID Token.")),
               [VerifyIdToken t])
          | None => (None, [VerifyIdToken t])
          end
        else (None, [])
    | None => (None, [])
    end.

(** [error.message || 'Unknown internal error'] *)
Definition messageOr (error : Failure) : string :=
  if nonEmpty (message error) then message error else "Unknown internal error".

(** The [catch] block of [encryptChatMessage] (lines 94-104). *)
Definition encryptFailed (rq : Request) (error : Failure) : Response :=
  if instanceofHttpsError error ||
     match httpErrorCode error with
     | Some st => negb (st =? 0)%Z
     | None => false
     end
  then
    mkResponse (corsHeaders rq)
               match httpErrorCode error with Some st => st | None => 500%Z end
               (Json [("error", message error)])
  else if truthyCode (code error) then
    mkResponse (corsHeaders rq) 500
               (Json [("error",
                       ("KMS Client Error: " ++ message error ++ " (Code: " ++
                        showCode (code error) ++ ")")%string)])
  else
    mkResponse (corsHeaders rq) 500
               (Json [("error", ("Failed to encrypt message. " ++ messageOr error)%string)]).

(** [encryptChatMessage] (lines 35-105) *)
Definition encryptChatMessage (sv : Services) (env : Env)
  (validated : option string) (rq : Request) : Outcome :=
  if String.eqb (method rq) "OPTIONS" then mkOutcome (preflight rq) validated []
  else if negb (String.eqb (method rq) "POST") then
    mkOutcome (mkResponse (corsHeaders rq) 405 (Plain "Method Not Allowed"))
              validated []
  else
    match authenticate sv env rq with
    | (Some refusal, made) => mkOutcome refusal validated made
    | (None, made) =>
        match body rq "plaintext" with
        | Text plaintext =>
            if nonEmpty plaintext then
              match getAndValidateKmsKeyPath env validated with
              | (inl error, validated') =>
                  mkOutcome (encryptFailed rq error) validated' made
              | (inr activeKeyPath, validated') =>
                  let plaintextBuffer := fromUtf8 plaintext in
                  let made' := made ++ [KmsEncrypt activeKeyPath plaintextBuffer] in
                  match kmsEncrypt sv activeKeyPath plaintextBuffer with
                  | inl error => mkOutcome (encryptFailed rq error) validated' made'
                  | inr encryptResponse =>
                      match encryptedCiphertext encryptResponse with
                      | Some ciphertext =>
                          mkOutcome
                            (mkResponse (corsHeaders rq) 200
                               (Json [("ciphertext", toBase64 ciphertext);
                                      ("kmsKeyVersionName",
                                       encryptedName encryptResponse)]))
                            validated' made'
                      | None =>
                          mkOutcome
                            (encryptFailed rq
                               (plainError "KMS encryption did not return ciphertext."))
                            validated' made'
                      end
                  end
              end
            else
              mkOutcome
                (mkResponse (corsHeaders rq) 400
                   (Json [("error",
                           ("Missing or invalid " ++ quoted "plaintext" ++
                            " in request body.")%string)]))
                validated made
        | _ =>
            mkOutcome
              (mkResponse (corsHeaders rq) 400
                 (Json [("error",
                         ("Missing or invalid " ++ quoted "plaintext" ++
                          " in request body.")%string)]))
              validated made
        end
    end.

(** The path of the key that [decryptChatMessage] derives from the name of
    a key version (line 162). *)
Definition cryptoKeyPathOf (kmsKeyVersionName : string) : string :=
  substringTo (lastIndexOf "/cryptoKeyVersions/" kmsKeyVersionName)
              kmsKeyVersionName.

(** The [catch] block of [decryptChatMessage] (lines 188-194). *)
Definition decryptFailed (rq : Request) (kmsKeyVersionName : string)
  (error : Failure) : Response :=
  match code error with
  | Num 3 =>
      mkResponse (corsHeaders rq) 400
        (Json [("error",
                ("KMS Decryption Invalid Argument: " ++ message error ++
                 ". Used CryptoKey path: " ++
                 cryptoKeyPathOf kmsKeyVersionName)%string)])
  | _ =>
      mkResponse (corsHeaders rq) 500
        (Json [("error", ("Failed to decrypt message. " ++ messageOr error)%string)])
  end.

Definition badRequest (rq : Request) (text : string) : Response :=
  mkResponse (corsHeaders rq) 400 (Json [("error", text)]).

(** [decryptChatMessage] (lines 108-195) *)
Definition decryptChatMessage (sv : Services) (env : Env)
  (validated : option string) (rq : Request) : Outcome :=
  if String.eqb (method rq) "OPTIONS" then mkOutcome (preflight rq) validated []
  else if negb (String.eqb (method rq) "POST") then
    mkOutcome (mkResponse (corsHeaders rq) 405 (Plain "Method Not Allowed"))
              validated []
  else
    match authenticate sv env rq with
    | (Some refusal, made) => mkOutcome refusal validated made
    | (None, made) =>
        match body rq "ciphertext" with
        | Text ciphertext =>
            if nonEmpty ciphertext then
              match body rq "kmsKeyVersionName" with
              | Text kmsKeyVersionName =>
                  if nonEmpty kmsKeyVersionName &&
                     includes "/cryptoKeyVersions/" kmsKeyVersionName
                  then
                    let cryptoKeyPathForDecrypt := cryptoKeyPathOf kmsKeyVersionName in
                    let ciphertextBuffer := fromBase64 ciphertext in
                    let made' :=
                      made ++ [KmsDecrypt cryptoKeyPathForDecrypt ciphertextBuffer] in
                    match kmsDecrypt sv cryptoKeyPathForDecrypt ciphertextBuffer with
                    | inl error =>
                        mkOutcome (decryptFailed rq kmsKeyVersionName error)
                                  validated made'
                    | inr decryptResponse =>
                        match decryptedPlaintext decryptResponse with
                        | Some plaintext =>
                            mkOutcome
                              (mkResponse (corsHeaders rq) 200
                                 (Json [("plaintext", toUtf8 plaintext)]))
                              validated made'
                        | None =>
                            mkOutcome
                              (decryptFailed rq kmsKeyVersionName
                                 (plainError "KMS decryption did not return plaintext."))
                              validated made'
                        end
                    end
                  else
                    mkOutcome
                      (badRequest rq "Invalid or missing kmsKeyVersionName format.")
                      validated made
              | _ =>
                  mkOutcome
                    (badRequest rq "Invalid or missing kmsKeyVersionName format.")
                    validated made
              end
            else
              mkOutcome
                (badRequest rq ("Missing or invalid " ++ quoted "ciphertext" ++
                                " in request body.")%string)
                validated made
        | _ =>
            mkOutcome
              (badRequest rq ("Missing or invalid " ++ quoted "ciphertext" ++
                              " in request body.")%string)
              validated made
        end
    end.

(** The caller has shown a token that the identity service accepts, or
    the function runs in the emulator and no token was sent. *)
Definition authenticated (sv : Services) (env : Env) (rq : Request) : Prop :=
  (exists t, idTokenOf rq = Some t /\ nonEmpty t = true /\ verifyIdToken sv t = None) \/
  (truthy (idTokenOf rq) = false /\ FUNCTIONS_EMULATOR env = Some "true").

(** A call to the key management service. *)
Definition isKmsCall (c : ServiceCall) : bool :=
  match c with
  | VerifyIdToken _ => false
  | KmsEncrypt _ _ | KmsDecrypt _ _ => true
  end.

End WithServices.

Arguments mkServices {Buffer} verifyIdToken kmsEncrypt kmsDecrypt.
Arguments verifyIdToken {Buffer} s _.
Arguments response {Buffer} o.
Arguments validatedKmsKeyPath {Buffer} o.
Arguments calls {Buffer} o.
Arguments VerifyIdToken {Buffer} idToken.
Arguments KmsEncrypt {Buffer} name plaintext.
Arguments KmsDecrypt {Buffer} name ciphertext.
Arguments authenticate {Buffer} sv env rq.
Arguments authenticated {Buffer} sv env rq.
Arguments isKmsCall {Buffer} c.
Arguments encryptChatMessage {Buffer} fromUtf8 toBase64 sv env validated rq.
Arguments decryptChatMessage {Buffer} fromBase64 toUtf8 sv env validated rq.

(** No character of the text is a slash. *)
Definition slashFree (s : string) : bool :=
  negb (includes "/" s).

End CloudFunctions.

(** ** apiService.js: [encryptChatMessageAPI] (lines 233-239, 306-349) *)
Module ApiCrypto.

(** [validateApiUrl(urlKey, url, serviceName)] (lines 233-239): the error
    it throws, if any.  [url] is the value of the environment variable,
    [None] when it is not set. *)
Definition validateApiUrl (urlKey : string) (url : option string)
  (serviceName : string) : option JsError :=
  if negb (truthy url) ||
     includes "URL_PLACEHOLDER" (match url with Some u => u | None => "" end)
  then
    Some (newError (serviceName ++ " URL (" ++ urlKey ++
                    ") is not configured. Please check your environment variables.")%string)
  else None.

(** The status inside a template literal. *)
Definition showStatus (r : Api.Response) : string :=
  NilZero.string_of_int (Z.to_int (Api.status r)).

Section WithPlatform.

(** [JSON.stringify] of an object with string fields. *)
Variable stringify : list (string * string) -> string.

(** [response.json()]: the parsed body, a JSON object with string fields,
    or the error it rejects with. *)
Variable json : Api.Response -> JsError + JSMap.t string.

(** [response.statusText] *)
Variable statusText : Api.Response -> string.

(** The [catch] block of [encryptChatMessageAPI] (lines 339-348). *)
Definition encryptionFailed (error : JsError) : JsError :=
  if includes "Network error" (message error)
  then newError "Unable to encrypt message. Please check your connection and try again."
  else error.

(** What [encryptChatMessageAPI] does with the response (lines 317-338). *)
Definition readEncryptResponse (response : Api.Response)
  : JsError + JSMap.t string :=
  if negb (Api.ok response) then
    let errorData :=
      match json response with
      | inr data => data
      | inl _ =>
          [("message",
            ("Encryption API Error: " ++ showStatus response ++ " " ++
             statusText response)%string)]
      end in
    if (Api.status response =? 413)%Z then
      inl (newError "Message too large. Please try a shorter message.")
    else
      inl (newError
             (if truthy (JSMap.get "message" errorData)
              then match JSMap.get "message" errorData with
                   | Some m => m
                   | None => ""
                   end
              else ("Encryption failed: " ++ showStatus response)%string))
  else
    match json response with
    | inl error => inl error
    | inr result =>
        if negb (truthy (JSMap.get "ciphertext" result)) ||
           negb (truthy (JSMap.get "kmsKeyVersionName" result))
        then inl (newError "Invalid encryption response format")
        else inr result
    end.

(** [encryptChatMessageAPI(plaintext)] (lines 306-349);
    [API_GATEWAY_ENCRYPT_URL] is the value of the environment variable. *)
Definition encryptChatMessageAPI (API_GATEWAY_ENCRYPT_URL : option string)
  (w : Api.World) (plaintext : string) (s : Api.State)
  : (JsError + JSMap.t string) * Api.State :=
  match validateApiUrl "VITE_ENCRYPT_CHAT_API_URL" API_GATEWAY_ENCRYPT_URL
                       "Encrypt chat API" with
  | Some error => (inl error, s)
  | None =>
      match Api.makeAuthenticatedRequest w
              (match API_GATEWAY_ENCRYPT_URL with Some u => u | None => "" end)
              (stringify [("plaintext", plaintext)]) 0 false s with
      | (inl error, s1) => (inl (encryptionFailed error), s1)
      | (inr response, s1) =>
          match readEncryptResponse response with
          | inl error => (inl (encryptionFailed error), s1)
          | inr result => (inr result, s1)
          end
      end
  end.

(** The encrypt call as the chat mutators see it: the two fields they
    take from the result. *)
Definition encryptor (API_GATEWAY_ENCRYPT_URL : option string) (w : Api.World)
  (s : Api.State) (plaintext : string) : JsError + (string * string) :=
  match fst (encryptChatMessageAPI API_GATEWAY_ENCRYPT_URL w plaintext s) with
  | inl error => inl error
  | inr result =>
      inr (match JSMap.get "ciphertext" result with Some c => c | None => "" end,
           match JSMap.get "kmsKeyVersionName" result with Some k => k | None => "" end)
  end.

End WithPlatform.

(** The chat mutators wired to the encrypt call of [apiService.js]. *)
Definition mutatorWorld (stringify : list (string * string) -> string)
  (json : Api.Response -> JsError + JSMap.t string)
  (statusText : Api.Response -> string)
  (url : option string) (w : Api.World) (s : Api.State)
  (store : ChatMutator.World) : ChatMutator.World :=
  ChatMutator.mkWorld (encryptor stringify json statusText url w s)
    (ChatMutator.addDocFails store) (ChatMutator.newDocId store)
    (ChatMutator.updateDocFails store) (ChatMutator.deleteDocFails store)
    (ChatMutator.uuidv4 store) (ChatMutator.timestampNow store)
    (ChatMutator.serverTimestamp store).

End ApiCrypto.

(** ** App.jsx: sending a message (lines 73-126) *)
Module AppSend.

(** The collaborators of the handlers: those of every call to a chat
    mutator, by the number of mutator calls made before it, and what
    [getBotResponse] settles with. *)
Record World : Type := mkWorld {
  mutator : nat -> ChatMutator.World;
  getBotResponse : string -> JsError + string
}.

(** The state of the component and of the hook, with a record of the
    calls to [toast.error] and to [getBotResponse], oldest first. *)
Record State : Type := mkState {
  activeChatId : option string;
  isBotReplying : bool;
  toasts : list string;
  prompts : list string;
  mutations : nat;
  store : ChatMutator.State
}.

Definition setActiveChatId (v : option string) (s : State) : State :=
  mkState v (isBotReplying s) (toasts s) (prompts s) (mutations s) (store s).

Definition setIsBotReplying (v : bool) (s : State) : State :=
  mkState (activeChatId s) v (toasts s) (prompts s) (mutations s) (store s).

(** [toast.error(text)] *)
Definition toastError (text : string) (s : State) : State :=
  mkState (activeChatId s) (isBotReplying s) (toasts s ++ [text]) (prompts s)
          (mutations s) (store s).

(** A call to one of the mutators of the hook. *)
Definition mutate {A : Type}
  (call : ChatMutator.World -> ChatMutator.State -> (JsError + A) * ChatMutator.State)
  (w : World) (s : State) : (JsError + A) * State :=
  let '(r, st) := call (mutator w (mutations s)) (store s) in
  (r, mkState (activeChatId s) (isBotReplying s) (toasts s) (prompts s)
              (S (mutations s)) st).

(** [await getBotResponse(userPrompt)] *)
Definition askBot (userPrompt : string) (w : World) (s : State)
  : (JsError + string) * State :=
  (getBotResponse w userPrompt,
   mkState (activeChatId s) (isBotReplying s) (toasts s)
           (prompts s ++ [userPrompt]) (mutations s) (store s)).

(** [fetchBotResponse(chatId, userPrompt)] (lines 105-126); [currentUser]
    is the [uid] of the user, [None] when nobody is signed in. *)
Definition fetchBotResponse (currentUser : option string)
  (chatId userPrompt : string) (w : World) (s : State) : State :=
  if negb (nonEmpty chatId) ||
     match currentUser with Some _ => false | None => true end
  then setIsBotReplying false s
  else
    let attempt : (JsError + unit) * State :=
      match askBot userPrompt w s with
      | (inl error, s1) => (inl error, s1)
      | (inr botResponseText, s1) =>
          mutate (ChatMutator.addMessageToChat currentUser chatId
                    botResponseText "bot") w s1
      end in
    match attempt with
    | (inr _, s2) => setIsBotReplying false s2
    | (inl fetchError, s2) =>
        let s3 :=
          toastError ("Falló la obtención de respuesta del bot: " ++
                      message fetchError)%string s2 in
        let s4 :=
          if nonEmpty chatId
          then snd (mutate (ChatMutator.addMessageToChat currentUser chatId
                              ("Lo siento, encontré un error: " ++
                               message fetchError)%string "system") w s3)
          else s3 in
        setIsBotReplying false s4
    end.

(** [handleSendMessage({ text })] (lines 73-103) *)
Definition handleSendMessage (currentUser : option string) (text : string)
  (w : World) (s : State) : State :=
  match currentUser with
  | None => toastError "Por favor, inicia sesión para enviar mensajes." s
  | Some _ =>
      if negb (nonEmpty text) || String.eqb (ChatMutator.trim text) ""
      then s
      else
        let attempt : option JsError * State :=
          if negb (truthy (activeChatId s)) then
            let s1 := setIsBotReplying true s in
            match mutate (ChatMutator.createNewChat currentUser text) w s1 with
            | (inl sendError, s2) => (Some sendError, s2)
            | (inr newChatId, s2) =>
                let s3 := setActiveChatId (Some newChatId) s2 in
                (None, fetchBotResponse currentUser newChatId text w s3)
            end
          else
            let currentChatId :=
              match activeChatId s with Some c => c | None => "" end in
            let s1 := setIsBotReplying true s in
            match mutate (ChatMutator.addMessageToChat currentUser currentChatId
                            text "user") w s1 with
            | (inl sendError, s2) => (Some sendError, s2)
            | (inr _, s2) =>
                (None, fetchBotResponse currentUser currentChatId text w s2)
            end in
        match attempt with
        | (Some sendError, s') =>
            setIsBotReplying false
              (toastError ("Error al enviar mensaje: " ++ message sendError)%string s')
        | (None, s') => s'
        end
  end.


End AppSend.

(** ** Scenarios and vocabulary used to state the properties *)

(** The access pattern of the specification's test: A, B, C, touch(A), D. *)
Definition abcTouchD : list LRUCache.op :=
  [LRUCache.OpSet "A" "a"; LRUCache.OpSet "B" "b"; LRUCache.OpSet "C" "c";
   LRUCache.OpGet "A"; LRUCache.OpSet "D" "d"].

(** No key of [c] moved and none was added: the keys of [c'] are those keys
    of [c] that are still present, in the order they have in [c]. *)
Definition keepsRecencyOrder (c c' : LRUCache.t) : Prop :=
  LRUCache.keys c' = filter (fun k => LRUCache.has k c') (LRUCache.keys c).

(** A world in which every request is answered 401 although the identity
    provider keeps handing out tokens. *)
Definition unauthorizedWorld : Api.World :=
  Api.mkWorld (fun n => Z.of_nat n)
              (fun n => Api.SignedIn (if Nat.eqb n 0 then "stale" else "renewed"))
              (fun _ => Api.Responds (Api.mkResponse 401 "")).

(** The state of [apiService.js] when it is loaded: nothing cached. *)
Definition freshApiState : Api.State :=
  Api.mkState None None JSMap.empty 0 0 [].

(** A ciphertext message. *)
Definition msg1 : Message.t := Message.mk "m1" "cipher-1" "key-v1".

(** [P] holds of the hook after the environment has made the moves
    [inputs], all of which are possible. *)
Definition after (inputs : list ChatStore.Input) (h : ChatStore.Hook)
  (P : ChatStore.Hook -> Prop) : Prop :=
  match ChatStore.run inputs h with
  | Some h' => P h'
  | None => False
  end.

(** A crypto service that answers every encrypt call with the same
    ciphertext, and a store that accepts every write. *)
Definition obligingWorld : ChatMutator.World :=
  ChatMutator.mkWorld (fun _ => inr ("Q0lQSEVSVEVYVA==", "keys/chat/1"))
                      None "chat-1" None None "uuid-1" 1700 1600.

(** The same, but the store refuses [updateDoc]. *)
Definition updateRefusedWorld : ChatMutator.World :=
  ChatMutator.mkWorld (fun _ => inr ("Q0lQSEVSVEVYVA==", "keys/chat/1"))
                      None "chat-1"
                      (Some (mkError "FirebaseError" "The service is unavailable" "unavailable"))
                      None "uuid-1" 1700 1600.

(** A store without documents and no error shown. *)
Definition emptyStore : ChatMutator.State := ChatMutator.mkState [] None.

(** A chat document of user "u1" without messages. *)
Definition docNamed (name : string) : Firestore.ChatDoc :=
  Firestore.mkDoc name "u1" name 0 [].

(** A store that has three more chats behind the cursor and honours the
    limit of a query. *)
Definition lastPage (q : ChatSync.Query) : JsError + list Firestore.ChatDoc :=
  inr (firstn (ChatSync.limit q) [docNamed "c21"; docNamed "c22"; docNamed "c23"]).

(** A mapping of documents to chats that keeps the stored fields. *)
Definition plainChat (d : Firestore.ChatDoc) : ChatMutator.Chat :=
  ChatMutator.mkChat (Firestore.docId d) (Firestore.userId d)
                     (Firestore.title d) (Firestore.createdAt d) [].

(** The view after the first twenty chats were loaded. *)
Definition twentyLoaded : ChatSync.View :=
  ChatSync.mkView [] false true None (Some (docNamed "c20")) 20 [].

(** Seven ciphertext messages. *)
Definition numbered (n : string) : Message.t :=
  Message.mk ("m" ++ n)%string ("cipher-" ++ n)%string "key-v1".

Definition sevenMessages : list Message.t :=
  map numbered ["1"; "2"; "3"; "4"; "5"; "6"; "7"].

(** The hook with the seven messages in its queue. *)
Definition sevenQueued : ChatStore.Hook :=
  ChatStore.mkHook true (LRUCache.new ChatStore.MAX_MESSAGES_IN_MEMORY) JSSet.empty JSMap.empty
         JSMap.empty sevenMessages None [] [] 1 [].

(** A world in which the user is signed in and every request is answered
    with status 200; the clock advances by one millisecond per reading. *)
Definition servingWorld : Api.World :=
  Api.mkWorld (fun n => Z.of_nat n) (fun _ => Api.SignedIn "token-1")
              (fun _ => Api.Responds (Api.mkResponse 200 "{}")).

(** The mounted hook while the batch call for [msg1] is in flight. *)
Definition msg1InFlight : HookLifecycle.Component :=
  HookLifecycle.mkComponent
    (ChatStore.processBatchDecryption []
       (ChatStore.mkHook true (LRUCache.new ChatStore.MAX_MESSAGES_IN_MEMORY)
          JSSet.empty JSMap.empty JSMap.empty [msg1] None [] [] 2 []))
    true.

(** A world in which nobody can be reached: every [fetch] fails. *)
Definition offlineWorld : Api.World :=
  Api.mkWorld (fun n => Z.of_nat n) (fun _ => Api.SignedIn "token-1")
              (fun _ => Api.Throws (mkError "TypeError" "Failed to fetch" "")).


(** The bot cannot be reached, the crypto service and the store work. *)
Definition silentBotWorld : AppSend.World :=
  AppSend.mkWorld (fun _ => obligingWorld)
                  (fun _ => inl (newError "Too many requests. Please wait a moment and try again.")).

(* ================================================================== *)
(** * Part II. Properties *)
(* ================================================================== *)

(** ** Facts about [JSMap] *)
Module JSMapFacts.
Import JSMap.

Section WithValues.
Context {V : Type}.
Implicit Types (m : t V) (k : string) (v : V).

Lemma has_get m k : has k m = true <-> get k m <> None.
Proof.
  induction m as [|[k' v'] m IH]; simpl.
  - split; [discriminate | congruence].
  - unfold is_key; simpl. destruct (String.eqb k' k); simpl.
    + split; [discriminate | reflexivity].
    + exact IH.
Qed.

Lemma has_false_get m k : has k m = false <-> get k m = None.
Proof.
  induction m as [|[k' v'] m IH]; simpl.
  - split; reflexivity.
  - unfold is_key; simpl. destruct (String.eqb k' k); simpl.
    + split; discriminate.
    + exact IH.
Qed.

Lemma has_cons m k k' v :
  has k ((k', v) :: m) = String.eqb k' k || has k m.
Proof. reflexivity. Qed.

Lemma delete_cons m k k' v :
  delete k ((k', v) :: m) =
  if String.eqb k' k then delete k m else (k', v) :: delete k m.
Proof.
  unfold delete; simpl. unfold is_key at 1; simpl.
  destruct (String.eqb k' k); reflexivity.
Qed.

Lemma has_as_get m k :
  has k m = match get k m with Some _ => true | None => false end.
Proof.
  induction m as [|[k' v'] m IH]; simpl; [reflexivity|].
  unfold is_key; simpl. destruct (String.eqb k' k); simpl; auto.
Qed.

Lemma has_in m k : has k m = true <-> In k (keys m).
Proof.
  induction m as [|[k' v'] m IH]; simpl.
  - split; [discriminate | tauto].
  - unfold is_key; simpl. destruct (String.eqb_spec k' k) as [->|Hne]; simpl.
    + split; auto.
    + rewrite IH. split; [auto | intros [E|H]; [congruence | exact H]].
Qed.

Lemma keys_delete m k :
  keys (delete k m) = filter (fun x => negb (String.eqb x k)) (keys m).
Proof.
  induction m as [|[k' v'] m IH]; simpl; [reflexivity|].
  unfold is_key; simpl. destruct (String.eqb k' k); simpl; congruence.
Qed.

Lemma keys_overwrite m k v : keys (overwrite k v m) = keys m.
Proof.
  induction m as [|[k' v'] m IH]; simpl; [reflexivity|].
  destruct (String.eqb k' k); simpl; congruence.
Qed.

Lemma keys_set m k v :
  keys (set k v m) = if has k m then keys m else keys m ++ [k].
Proof.
  unfold set. destruct (has k m).
  - apply keys_overwrite.
  - unfold keys. rewrite map_app. reflexivity.
Qed.

Lemma get_overwrite_same m k v :
  has k m = true -> get k (overwrite k v m) = Some v.
Proof.
  induction m as [|[k' v'] m IH]; simpl; [discriminate|].
  unfold is_key; simpl. destruct (String.eqb k' k) eqn:E; simpl.
  - rewrite E. reflexivity.
  - rewrite E. exact IH.
Qed.

Lemma get_overwrite_other m k k' v :
  k' <> k -> get k' (overwrite k v m) = get k' m.
Proof.
  intros Hne. induction m as [|[k0 v0] m IH]; simpl; [reflexivity|].
  destruct (String.eqb_spec k0 k) as [->|Hk]; simpl.
  - destruct (String.eqb_spec k k'); [congruence | reflexivity].
  - rewrite IH. reflexivity.
Qed.

Lemma get_app_new m k v :
  has k m = false -> get k (m ++ [(k, v)]) = Some v.
Proof.
  induction m as [|[k' v'] m IH]; simpl.
  - rewrite String.eqb_refl. reflexivity.
  - unfold is_key; simpl. destruct (String.eqb k' k); simpl; [discriminate | exact IH].
Qed.

Lemma get_app_other m k k' v :
  k' <> k -> get k' (m ++ [(k, v)]) = get k' m.
Proof.
  intros Hne. induction m as [|[k0 v0] m IH]; simpl.
  - destruct (String.eqb_spec k k'); [congruence | reflexivity].
  - rewrite IH. reflexivity.
Qed.

Lemma get_set_same m k v : get k (set k v m) = Some v.
Proof.
  unfold set. destruct (has k m) eqn:E.
  - apply get_overwrite_same, E.
  - apply get_app_new, E.
Qed.

Lemma get_set_other m k k' v : k' <> k -> get k' (set k v m) = get k' m.
Proof.
  intros Hne. unfold set. destruct (has k m).
  - apply get_overwrite_other, Hne.
  - apply get_app_other, Hne.
Qed.

Lemma get_delete_same m k : get k (delete k m) = None.
Proof.
  induction m as [|[k' v'] m IH]; simpl; [reflexivity|].
  unfold is_key; simpl. destruct (String.eqb k' k) eqn:E; simpl; [exact IH|].
  rewrite E. exact IH.
Qed.

Lemma get_delete_other m k k' : k' <> k -> get k' (delete k m) = get k' m.
Proof.
  intros Hne. induction m as [|[k0 v0] m IH]; simpl; [reflexivity|].
  unfold is_key; simpl. destruct (String.eqb_spec k0 k) as [->|Hk]; simpl.
  - destruct (String.eqb_spec k k'); [congruence | exact IH].
  - rewrite IH. reflexivity.
Qed.

Lemma has_set_same m k v : has k (set k v m) = true.
Proof. rewrite has_as_get, get_set_same. reflexivity. Qed.

Lemma has_set_other m k k' v : k' <> k -> has k' (set k v m) = has k' m.
Proof. intros. rewrite !has_as_get, get_set_other by assumption. reflexivity. Qed.

Lemma has_delete_same m k : has k (delete k m) = false.
Proof. rewrite has_as_get, get_delete_same. reflexivity. Qed.

Lemma has_delete_other m k k' : k' <> k -> has k' (delete k m) = has k' m.
Proof. intros. rewrite !has_as_get, get_delete_other by assumption. reflexivity. Qed.

Lemma length_delete m k : (List.length (delete k m) <= List.length m)%nat.
Proof. apply filter_length_le. Qed.

Lemma length_set m k v :
  List.length (set k v m) =
  if has k m then List.length m else S (List.length m).
Proof.
  rewrite <- !(length_map fst). fold (keys (set k v m)). fold (keys m).
  rewrite keys_set. destruct (has k m); [reflexivity|].
  rewrite length_app. simpl. lia.
Qed.

Lemma wf_delete m k : wf m -> wf (delete k m).
Proof. unfold wf. rewrite keys_delete. apply NoDup_filter. Qed.

Lemma wf_set m k v : wf m -> wf (set k v m).
Proof.
  unfold wf. rewrite keys_set. destruct (has k m) eqn:E; [auto|].
  intros H. apply NoDup_app; [exact H | repeat constructor; simpl; tauto |].
  intros x Hx [<-|[]]. apply has_in in Hx. congruence.
Qed.

End WithValues.
End JSMapFacts.

(** ** Facts about sorted lists used for the recency order *)
Section SortedFacts.
Context {A : Type}.
Implicit Types (R : A -> A -> Prop) (l : list A).

Lemma StronglySorted_filter R (p : A -> bool) l :
  StronglySorted R l -> StronglySorted R (filter p l).
Proof.
  induction 1 as [|a l Hl IH Ha]; simpl; [constructor|].
  destruct (p a); [|exact IH].
  constructor; [exact IH|].
  rewrite Forall_forall in *. intros x Hx. apply Ha.
  apply filter_In in Hx. tauto.
Qed.

Lemma StronglySorted_snoc R l y :
  StronglySorted R l -> Forall (fun x => R x y) l ->
  StronglySorted R (l ++ [y]).
Proof.
  induction 1 as [|a l Hl IH Ha]; simpl; intros Hy.
  - repeat constructor.
  - inversion Hy; subst. constructor; [auto|].
    apply Forall_app. split; [exact Ha | repeat constructor; assumption].
Qed.

Lemma StronglySorted_ext_in R R' l :
  (forall a b, In a l -> In b l -> R a b -> R' a b) ->
  StronglySorted R l -> StronglySorted R' l.
Proof.
  intros Hext H. induction H as [|a l Hl IH Ha]; [constructor|].
  constructor.
  - apply IH. intros; apply Hext; simpl; auto.
  - rewrite Forall_forall in *. intros x Hx.
    apply Hext; simpl; auto.
Qed.

End SortedFacts.

(** ** Facts about [LRUCache] *)
Module LRUFacts.
Import LRUCache.

Lemma maxSize_step o c : maxSize (step o c) = maxSize c.
Proof.
  destruct o; simpl; try reflexivity.
  unfold get. destruct (JSMap.get key (cache c)); reflexivity.
Qed.

Lemma maxSize_run ops c : maxSize (run ops c) = maxSize c.
Proof.
  revert c. induction ops as [|o ops IH]; intros c; simpl; [reflexivity|].
  unfold run in IH. rewrite IH. apply maxSize_step.
Qed.

Lemma fst_runClock ops c g : fst (runClock ops c g) = run ops c.
Proof.
  revert c g. induction ops as [|o ops IH]; intros c g; simpl; [reflexivity|].
  apply IH.
Qed.

(** The map left by the capacity check is a sub-map of the cache. *)
Lemma keys_evict c :
  JSMap.keys (evict c) =
  match evicted c with
  | Some e => filter (fun x => negb (String.eqb x e)) (keys c)
  | None => keys c
  end.
Proof.
  unfold evict, evicted, keys.
  destruct (JSMap.size (cache c) >=? maxSize c)%Z; [|reflexivity].
  destruct (JSMap.firstKey (cache c)); [|reflexivity].
  apply JSMapFacts.keys_delete.
Qed.

Lemma evicted_first c e :
  evicted c = Some e -> exists rest, keys c = e :: rest.
Proof.
  unfold evicted, keys.
  destruct (JSMap.size (cache c) >=? maxSize c)%Z; [|discriminate].
  destruct (cache c) as [|[k v] m]; simpl; [discriminate|].
  intros [= ->]. eauto.
Qed.

(** At least one slot is free after the capacity check. *)
Lemma size_evict c :
  (1 <= maxSize c)%Z -> (size c <= maxSize c)%Z ->
  (JSMap.size (evict c) < maxSize c)%Z.
Proof.
  unfold evict, size, JSMap.size. intros Hcap Hsz.
  destruct (Z.geb_spec (Z.of_nat (List.length (cache c))) (maxSize c)) as [Hge|Hlt];
    [|lia].
  destruct (cache c) as [|[k v] m] eqn:E; cbn [JSMap.firstKey List.length] in *;
    [lia|].
  assert (List.length (JSMap.delete k ((k, v) :: m)) <= List.length m)%nat as Hd.
  { rewrite JSMapFacts.delete_cons, String.eqb_refl.
    apply JSMapFacts.length_delete. }
  lia.
Qed.

Lemma size_set key value c :
  (1 <= maxSize c)%Z -> (size c <= maxSize c)%Z ->
  (size (set key value c) <= maxSize c)%Z.
Proof.
  intros Hcap Hsz. pose proof (size_evict c Hcap Hsz) as He.
  unfold size, set, JSMap.size in *. simpl.
  rewrite JSMapFacts.length_set. destruct (JSMap.has key (evict c)); lia.
Qed.

Lemma length_delete_present {V} (m : JSMap.t V) k :
  JSMap.has k m = true ->
  (List.length (JSMap.delete k m) < List.length m)%nat.
Proof.
  induction m as [|[k' v'] m IH]; [discriminate|].
  rewrite JSMapFacts.has_cons, JSMapFacts.delete_cons.
  destruct (String.eqb k' k); cbn [orb List.length].
  - intros _. pose proof (JSMapFacts.length_delete m k). lia.
  - intros H. specialize (IH H). lia.
Qed.

Lemma size_get key c : (size (snd (get key c)) <= size c)%Z.
Proof.
  unfold get, size, JSMap.size.
  destruct (JSMap.get key (cache c)) as [v|] eqn:E; simpl; [|lia].
  rewrite JSMapFacts.length_set, JSMapFacts.has_delete_same.
  assert (JSMap.has key (cache c) = true) as Hh
      by (apply JSMapFacts.has_get; congruence).
  pose proof (length_delete_present (cache c) key Hh). lia.
Qed.

Lemma size_step o c :
  (1 <= maxSize c)%Z -> (size c <= maxSize c)%Z ->
  (size (step o c) <= maxSize c)%Z.
Proof.
  intros Hcap Hsz. destruct o; simpl.
  - pose proof (size_get key c). lia.
  - apply size_set; assumption.
  - exact Hsz.
  - unfold size, JSMap.size; simpl. lia.
Qed.

Lemma size_run ops c :
  (1 <= maxSize c)%Z -> (size c <= maxSize c)%Z ->
  (size (run ops c) <= maxSize c)%Z.
Proof.
  revert c. induction ops as [|o ops IH]; intros c Hcap Hsz; simpl; [exact Hsz|].
  unfold run in *. simpl.
  rewrite <- (maxSize_step o c). apply IH; rewrite maxSize_step; auto.
  apply size_step; assumption.
Qed.

(** Every cache reached from an empty one holds one entry per key. *)
Lemma wf_step o c : JSMap.wf (cache c) -> JSMap.wf (cache (step o c)).
Proof.
  intros Hwf. destruct o as [key|key value|key|]; simpl.
  - unfold get. destruct (JSMap.get key (cache c)); simpl; [|exact Hwf].
    apply JSMapFacts.wf_set, JSMapFacts.wf_delete, Hwf.
  - apply JSMapFacts.wf_set. unfold evict.
    destruct (JSMap.size (cache c) >=? maxSize c)%Z; [|exact Hwf].
    destruct (JSMap.firstKey (cache c)); [|exact Hwf].
    apply JSMapFacts.wf_delete, Hwf.
  - exact Hwf.
  - constructor.
Qed.

Lemma wf_run ops cap : JSMap.wf (cache (run ops (new cap))).
Proof.
  unfold run. generalize (new cap) (NoDup_nil string : JSMap.wf (cache (new cap))).
  induction ops as [|o ops IH]; intros c Hc; simpl; [exact Hc|].
  apply IH, wf_step, Hc.
Qed.

(** The recency invariant: the map order is the order of last touches. *)
Definition ordered (c : t) (g : Clock) : Prop :=
  StronglySorted (fun a b => (lastTouch g a < lastTouch g b)%nat) (keys c) /\
  Forall (fun k => (lastTouch g k < now g)%nat) (keys c).

Lemma ordered_sub (ks : list string) c g (p : string -> bool) :
  ordered c g ->
  StronglySorted (fun a b => (lastTouch g a < lastTouch g b)%nat)
                 (filter p (keys c)) /\
  Forall (fun k => (lastTouch g k < now g)%nat) (filter p (keys c)).
Proof.
  intros [Hs Hf]. split.
  - apply StronglySorted_filter, Hs.
  - rewrite Forall_forall in *. intros x Hx. apply Hf.
    apply filter_In in Hx. tauto.
Qed.

Lemma ordered_tick (ks : list string) g :
  StronglySorted (fun a b => (lastTouch g a < lastTouch g b)%nat) ks ->
  Forall (fun k => (lastTouch g k < now g)%nat) ks ->
  StronglySorted (fun a b => (lastTouch (tick g) a < lastTouch (tick g) b)%nat) ks /\
  Forall (fun k => (lastTouch (tick g) k < now (tick g))%nat) ks.
Proof.
  intros Hs Hf. split; [exact Hs|]. simpl.
  eapply Forall_impl; [|exact Hf]. simpl. intros; lia.
Qed.

Lemma ordered_touch (ks : list string) key g :
  ~ In key ks ->
  StronglySorted (fun a b => (lastTouch g a < lastTouch g b)%nat) ks ->
  Forall (fun k => (lastTouch g k < now g)%nat) ks ->
  StronglySorted
    (fun a b => (lastTouch (touch key g) a < lastTouch (touch key g) b)%nat)
    (ks ++ [key]) /\
  Forall (fun k => (lastTouch (touch key g) k < now (touch key g))%nat)
         (ks ++ [key]).
Proof.
  intros Hnin Hs Hf.
  assert (forall x, In x ks -> lastTouch (touch key g) x = lastTouch g x) as Hsame.
  { intros x Hx. simpl. destruct (String.eqb_spec x key); [subst; tauto | reflexivity]. }
  assert (lastTouch (touch key g) key = now g) as Hkey
      by (simpl; rewrite String.eqb_refl; reflexivity).
  split.
  - apply StronglySorted_snoc.
    + eapply StronglySorted_ext_in; [|exact Hs].
      intros a b Ha Hb. rewrite !Hsame by assumption. auto.
    + rewrite Forall_forall in *. intros x Hx.
      rewrite Hkey, Hsame by assumption. auto.
  - apply Forall_app. split.
    + rewrite Forall_forall in *. intros x Hx.
      rewrite Hsame by assumption. specialize (Hf x Hx). simpl. lia.
    + constructor; [|constructor]. rewrite Hkey. simpl. lia.
Qed.

Lemma ordered_step o c g :
  ordered c g -> ordered (step o c) (stepClock o c g).
Proof.
  intros Hord. destruct o as [key|key value|key|]; simpl.
  - (* get *)
    unfold get, has. rewrite JSMapFacts.has_as_get.
    destruct (JSMap.get key (cache c)) as [v|] eqn:E; simpl.
    + unfold ordered, keys. simpl.
      rewrite JSMapFacts.keys_set, JSMapFacts.has_delete_same,
        JSMapFacts.keys_delete.
      destruct (ordered_sub [] c g (fun x => negb (String.eqb x key)) Hord).
      apply ordered_touch; try assumption.
      intros Hin. apply filter_In in Hin. rewrite String.eqb_refl in Hin.
      destruct Hin; discriminate.
    + destruct Hord. apply ordered_tick; assumption.
  - (* set *)
    unfold ordered, keys, set, creates. simpl.
    rewrite JSMapFacts.keys_set.
    assert (StronglySorted (fun a b => (lastTouch g a < lastTouch g b)%nat)
                           (JSMap.keys (evict c)) /\
            Forall (fun k => (lastTouch g k < now g)%nat) (JSMap.keys (evict c)))
      as [Hs Hf].
    { rewrite keys_evict. destruct (evicted c).
      - apply (ordered_sub [] c g). exact Hord.
      - exact Hord. }
    destruct (JSMap.has key (evict c)) eqn:Eh; simpl.
    + apply ordered_tick; assumption.
    + apply ordered_touch; try assumption.
      intros Hin. apply JSMapFacts.has_in in Hin. congruence.
  - destruct Hord. apply ordered_tick; assumption.
  - split; constructor.
Qed.

Lemma ordered_run ops c g :
  ordered c g -> ordered (run ops c) (snd (runClock ops c g)).
Proof.
  revert c g. induction ops as [|o ops IH]; intros c g H; simpl; [exact H|].
  unfold run in *. simpl. apply IH, ordered_step, H.
Qed.

Lemma ordered_new cap : ordered (new cap) clock0.
Proof. split; constructor. Qed.

End LRUFacts.

(** ** Facts about [apiService.js] *)
Module ApiFacts.
Import Api.

(** The defining equation of [makeAuthenticatedRequest], as one match. *)
Lemma unfold_mar w url payload retryCount useCache s :
  makeAuthenticatedRequest w url payload retryCount useCache s =
  match lookup w useCache url payload s with
  | (Some cached, s1) => (inr cached, s1)
  | (None, s1) =>
    match getCurrentUserToken w s1 with
    | (inl error, s2) => (inl (rethrow error), s2)
    | (inr idToken, s2) =>
        if truthy idToken then
          match fetch w
                  (mkRequest url (match idToken with Some t => t | None => "" end) payload) s2 with
          | (Throws error, s3) => (inl (rethrow error), s3)
          | (Responds response, s3) =>
              if isAuthFailure response && (retryCount <? maxRetries)%nat
              then makeAuthenticatedRequest w url payload (S retryCount) useCache
                     (setToken None None s3)
              else (inr response,
               if useCache && ok response
               then cacheResponse w (cacheKeyOf url payload) response s3
               else s3)
          end
        else (inl (rethrow (newError "Authentication required. Please sign in.")), s2)
    end
  end.
Proof.
  simp makeAuthenticatedRequest.
  destruct (lookup w useCache url payload s) as [[cached|] s1]; simpl; [reflexivity|].
  destruct (getCurrentUserToken w s1) as [[error|[idToken|]] s2]; simpl; try reflexivity.
  destruct idToken as [|a rest]; simpl; [reflexivity|].
  destruct (network w _) as [response|error]; [|reflexivity].
  simp makeAuthenticatedRequest. 
  destruct (isAuthFailure response);
    destruct (lt_dec retryCount maxRetries) as [H|H];
    simp makeAuthenticatedRequest; simpl; try reflexivity.
  - apply Nat.ltb_lt in H. rewrite H. reflexivity.
  - apply Nat.ltb_nlt in H. rewrite H. reflexivity.
Qed.

Lemma lookup_miss w useCache url payload s :
  cacheMiss useCache url payload s ->
  exists s1, lookup w useCache url payload s = (None, s1) /\
             fetched s1 = fetched s /\ token s1 = token s /\
             expiryTime s1 = expiryTime s /\
             identityAsked s1 = identityAsked s /\
             cacheMiss useCache url payload s1.
Proof.
  unfold cacheMiss, lookup, getCachedResponse. intros Hmiss.
  destruct useCache.
  - rewrite (Hmiss eq_refl). eexists; split; [reflexivity|]. simpl.
    do 4 (split; [reflexivity|]). intros _. apply JSMapFacts.get_delete_same.
  - eexists; split; [reflexivity|].
    do 4 (split; [reflexivity|]). discriminate.
Qed.

Lemma refresh_signed_in w s :
  alwaysSignedIn w ->
  exists t s2, refreshToken w s = (inr (Some t), s2) /\
               truthy (Some t) = true /\
               fetched s2 = fetched s /\ responseCache s2 = responseCache s /\
               identity w (identityAsked s) = SignedIn t /\
               identityAsked s2 = S (identityAsked s).
Proof.
  intros Hin. unfold refreshToken. specialize (Hin (identityAsked s)).
  destruct (identity w (identityAsked s)) as [t| | |]; try contradiction.
  exists t. eexists. split; [reflexivity|]. simpl. auto.
Qed.

Lemma token_signed_in w s :
  alwaysSignedIn w ->
  exists t s2, getCurrentUserToken w s = (inr (Some t), s2) /\
               truthy (Some t) = true /\
               fetched s2 = fetched s /\ responseCache s2 = responseCache s /\
               (token s = None ->
                identity w (identityAsked s) = SignedIn t /\
                identityAsked s2 = S (identityAsked s)).
Proof.
  intros Hin. unfold getCurrentUserToken.
  destruct (token s) as [tok|] eqn:Et.
  - destruct (expiryTime s) as [expiry|] eqn:Ee.
    + destruct (truthy (Some tok) && negb (expiry =? 0)%Z) eqn:Ev.
      * unfold now. destruct (dateNow w (clockReads s) <? expiry)%Z.
        -- exists tok. eexists. split; [reflexivity|]. simpl.
           apply andb_prop in Ev. destruct Ev.
           split; [assumption|]. split; [reflexivity|]. split; [reflexivity|].
           discriminate.
        -- match goal with |- context [refreshToken w ?s'] =>
             destruct (refresh_signed_in w s' Hin)
               as (t & s2 & H1 & H2 & H3 & H4 & H5 & H6) end.
           exists t, s2. split; [assumption|]. split; [assumption|].
           split; [assumption|]. split; [assumption|]. discriminate.
      * destruct (refresh_signed_in w s Hin) as (t & s2 & H1 & H2 & H3 & H4 & H5 & H6).
        exists t, s2. split; [assumption|]. split; [assumption|].
        split; [assumption|]. split; [assumption|]. discriminate.
    + destruct (refresh_signed_in w s Hin) as (t & s2 & H1 & H2 & H3 & H4 & H5 & H6).
      exists t, s2. split; [assumption|]. split; [assumption|].
      split; [assumption|]. split; [assumption|]. discriminate.
  - destruct (refresh_signed_in w s Hin) as (t & s2 & H1 & H2 & H3 & H4 & H5 & H6).
    exists t, s2. split; [assumption|]. split; [assumption|].
    split; [assumption|]. split; [assumption|]. intros _. split; assumption.
Qed.

Lemma auth_failure_not_ok r : isAuthFailure r = true -> ok r = false.
Proof.
  unfold isAuthFailure, ok. intros H. apply orb_prop in H.
  destruct H as [H|H]; apply Z.eqb_eq in H; rewrite H; reflexivity.
Qed.

(** One round of an authenticated request that is answered 401 or 403. *)
Lemma auth_failure_round w url payload retryCount useCache s :
  alwaysAuthFailure w -> alwaysSignedIn w ->
  cacheMiss useCache url payload s ->
  exists t r s3,
    network w (List.length (fetched s)) = Responds r /\
    isAuthFailure r = true /\
    fetched s3 = fetched s ++ [mkRequest url t payload] /\
    cacheMiss useCache url payload s3 /\
    (token s = None ->
     identity w (identityAsked s) = SignedIn t /\
     identityAsked s3 = S (identityAsked s)) /\
    makeAuthenticatedRequest w url payload retryCount useCache s =
    if (retryCount <? maxRetries)%nat
    then makeAuthenticatedRequest w url payload (S retryCount) useCache
                                  (setToken None None s3)
    else (inr r, s3).
Proof.
  intros Hnet Hid Hmiss.
  destruct (lookup_miss w useCache url payload s Hmiss)
    as (s1 & Hlook & Hf1 & Ht1 & He1 & Hi1 & Hm1).
  destruct (token_signed_in w s1 Hid) as (t & s2 & Htok & Htruthy & Hf2 & Hc2 & Hfresh).
  specialize (Hnet (List.length (fetched s))).
  destruct (network w (List.length (fetched s))) as [r|] eqn:En; [|contradiction].
  exists t, r, (snd (fetch w (mkRequest url t payload) s2)).
  split; [reflexivity|]. split; [assumption|].
  split; [simpl; congruence|].
  split; [unfold cacheMiss in *; simpl; rewrite Hc2; assumption|].
  split.
  { intros Hnone. rewrite <- Ht1 in Hnone. destruct (Hfresh Hnone) as [Ha Hb].
    simpl. rewrite <- Hi1. split; assumption. }
  rewrite unfold_mar, Hlook, Htok, Htruthy.
  unfold fetch. rewrite Hf2, Hf1, En, Hnet.
  rewrite (auth_failure_not_ok r Hnet), andb_false_r. simpl.
  reflexivity.
Qed.

Lemma auth_failure_retried w url payload useCache s :
  alwaysAuthFailure w -> alwaysSignedIn w ->
  cacheMiss useCache url payload s ->
  let out := makeAuthenticatedRequest w url payload 0 useCache s in
  exists rq1 rq2 rq3 r3,
    fetched (snd out) = fetched s ++ [rq1; rq2; rq3] /\
    identity w (identityAsked (snd out) - 2) = SignedIn (bearer rq2) /\
    identity w (identityAsked (snd out) - 1) = SignedIn (bearer rq3) /\
    fst out = inr r3 /\
    network w (List.length (fetched s) + 2) = Responds r3 /\
    isAuthFailure r3 = true.
Proof.
  intros Hnet Hid Hmiss out. unfold out.
  destruct (auth_failure_round w url payload 0 useCache s Hnet Hid Hmiss)
    as (t1 & r1 & s1 & Hn1 & Ha1 & Hf1 & Hm1 & _ & E1).
  destruct (auth_failure_round w url payload 1 useCache (setToken None None s1)
              Hnet Hid Hm1)
    as (t2 & r2 & s2 & Hn2 & Ha2 & Hf2 & Hm2 & Hi2 & E2).
  destruct (auth_failure_round w url payload 2 useCache (setToken None None s2)
              Hnet Hid Hm2)
    as (t3 & r3 & s3 & Hn3 & Ha3 & Hf3 & Hm3 & Hi3 & E3).
  rewrite E1, E2, E3. simpl.
  destruct (Hi2 eq_refl) as [Hb2 Hc2]. destruct (Hi3 eq_refl) as [Hb3 Hc3].
  simpl in *.
  exists (mkRequest url t1 payload), (mkRequest url t2 payload),
         (mkRequest url t3 payload), r3.
  split. { rewrite Hf3, Hf2, Hf1, <- !app_assoc. reflexivity. }
  rewrite Hc3, Hc2. simpl. rewrite Nat.sub_0_r.
  split; [assumption|]. split; [rewrite <- Hc2; assumption|].
  split; [reflexivity|].
  split; [|assumption].
  rewrite <- Hn3, Hf2, Hf1, !length_app. simpl. f_equal. lia.
Qed.

Lemma fetched_lookup w useCache url payload s :
  fetched (snd (lookup w useCache url payload s)) = fetched s.
Proof.
  unfold lookup, getCachedResponse. destruct useCache; [|reflexivity].
  destruct (JSMap.get _ _) as [[data timestamp]|]; [|reflexivity].
  simpl. destruct (_ <? _)%Z; reflexivity.
Qed.

Lemma fetched_refreshToken w s :
  fetched (snd (refreshToken w s)) = fetched s.
Proof. unfold refreshToken. destruct (identity w _); reflexivity. Qed.

Lemma fetched_getCurrentUserToken w s :
  fetched (snd (getCurrentUserToken w s)) = fetched s.
Proof.
  unfold getCurrentUserToken.
  destruct (token s); [|apply fetched_refreshToken].
  destruct (expiryTime s); [|apply fetched_refreshToken].
  destruct (_ && _); [|apply fetched_refreshToken].
  simpl. destruct (_ <? _)%Z; [reflexivity|].
  rewrite fetched_refreshToken. reflexivity.
Qed.

Lemma fetches_bounded w url payload useCache n :
  forall retryCount s,
    maxRetries - retryCount <= n ->
    exists rqs,
      fetched (snd (makeAuthenticatedRequest w url payload retryCount useCache s))
      = fetched s ++ rqs /\
      List.length rqs <= S n.
Proof.
  induction n as [|n IH]; intros retryCount s Hn; rewrite unfold_mar;
    pose proof (fetched_lookup w useCache url payload s) as Hl;
    destruct (lookup w useCache url payload s) as [[cached|] s1]; simpl in Hl;
    try (exists []; rewrite app_nil_r; simpl; split; [assumption | lia]);
    pose proof (fetched_getCurrentUserToken w s1) as Ht;
    destruct (getCurrentUserToken w s1) as [[error|idToken] s2]; simpl in Ht;
    try (exists []; rewrite app_nil_r; simpl; split; [congruence | lia]);
    (destruct (truthy idToken);
     [|exists []; rewrite app_nil_r; simpl; split; [congruence | lia]]);
    unfold fetch; destruct (network w _) as [response|error];
    try (eexists; simpl; split; [rewrite Ht, Hl; reflexivity | simpl; lia]).
  - assert ((retryCount <? maxRetries)%nat = false) as ->
        by (apply Nat.ltb_ge; lia).
    rewrite andb_false_r. eexists. split.
    + simpl. destruct (useCache && ok response); simpl; rewrite Ht, Hl; reflexivity.
    + simpl. lia.
  - destruct (isAuthFailure response && (retryCount <? maxRetries)%nat) eqn:E.
    + apply andb_prop in E. destruct E as [_ E]. apply Nat.ltb_lt in E.
      match goal with |- context [makeAuthenticatedRequest _ _ _ _ _ ?s'] =>
        destruct (IH (S retryCount) s' ltac:(lia)) as (rqs & Hr & Hlen) end.
      rewrite Hr. simpl. rewrite Ht, Hl, <- app_assoc.
      eexists. split; [reflexivity|]. simpl. lia.
    + eexists. split.
      * simpl. destruct (useCache && ok response); simpl; rewrite Ht, Hl; reflexivity.
      * simpl. lia.
Qed.

Lemma signed_out_surfaces w url payload retryCount useCache s :
  cacheMiss useCache url payload s ->
  token s = None -> identity w (identityAsked s) = SignedOut ->
  let out := makeAuthenticatedRequest w url payload retryCount useCache s in
  fst out = inl (newError "Authentication required. Please sign in.") /\
  fetched (snd out) = fetched s.
Proof.
  intros Hmiss Htok Hid out. unfold out.
  destruct (lookup_miss w useCache url payload s Hmiss)
    as (s1 & Hlook & Hf1 & Ht1 & He1 & Hi1 & Hm1).
  rewrite unfold_mar, Hlook. unfold getCurrentUserToken, refreshToken.
  rewrite Ht1, Htok, Hi1, Hid. simpl. split; [reflexivity | assumption].
Qed.

End ApiFacts.

(** ** Facts about the decryption pipeline: one turn of the event loop *)
Module ChatStoreFacts.
Import ChatStore.








Lemma decryptCalls_app a b : decryptCalls (a ++ b) = decryptCalls a ++ decryptCalls b.
Proof. apply flat_map_app. Qed.

Lemma retryDelays_app a b : retryDelays (a ++ b) = retryDelays a ++ retryDelays b.
Proof. apply flat_map_app. Qed.

(** *** The cache bound is kept by every turn *)

Lemma bounded_cacheSet key value h : cacheBounded h -> cacheBounded (cacheSet key value h).
Proof.
  intros [Hm Hs]. unfold cacheBounded, cacheSet. cbn [setCache decryptedMessagesCache].
  split; [exact Hm|].
  change (LRUCache.maxSize (LRUCache.set key value (decryptedMessagesCache h)))
    with (LRUCache.maxSize (decryptedMessagesCache h)) in *.
  rewrite <- Hm. apply LRUFacts.size_set; rewrite Hm; [|exact Hs].
  unfold MAX_MESSAGES_IN_MEMORY. lia.
Qed.

Lemma bounded_same h h' :
  decryptedMessagesCache h' = decryptedMessagesCache h ->
  cacheBounded h -> cacheBounded h'.
Proof. unfold cacheBounded. intros ->. auto. Qed.

Lemma bounded_decryptSingleMessage captured m h :
  cacheBounded h -> cacheBounded (decryptSingleMessage captured m h).
Proof.
  intros Hb. unfold decryptSingleMessage.
  destruct (mounted h) eqn:Em; cbn [negb]; [|exact Hb].
  destruct (MAX_DECRYPTION_RETRIES <=? _)%nat.
  - apply bounded_cacheSet, Hb.
  - eapply bounded_same; [|exact Hb]. reflexivity.
Qed.

Lemma bounded_resumeSingle m n t captured outcome h :
  cacheBounded h -> cacheBounded (resumeSingle m n t captured outcome h).
Proof.
  intros Hb. unfold resumeSingle.
  set (h2 := setDecryptionTimeouts _ (clearTimeout t h)).
  assert (cacheBounded h2) as Hb2 by (eapply bounded_same; [|exact Hb]; reflexivity).
  clearbody h2.
  match goal with |- cacheBounded (if mounted ?x then _ else _) =>
    assert (cacheBounded x) as Hb3 end.
  { destruct outcome as [p|r]; destruct (mounted h2); try exact Hb2.
    - eapply bounded_same; [|apply (bounded_cacheSet (Message.id m) p), Hb2]. reflexivity.
    - destruct (n <? MAX_DECRYPTION_RETRIES - 1)%nat.
      + eapply bounded_same; [|exact Hb2]. reflexivity.
      + eapply bounded_same;
          [|apply (bounded_cacheSet (Message.id m) "[Error al descifrar]"), Hb2].
        reflexivity. }
  match goal with |- cacheBounded (if mounted ?x then _ else _) =>
    destruct (mounted x); [|exact Hb3] end.
  eapply bounded_same; [|exact Hb3]. reflexivity.
Qed.

Lemma bounded_processBatchDecryption captured h :
  cacheBounded h -> cacheBounded (processBatchDecryption captured h).
Proof.
  intros Hb. unfold processBatchDecryption.
  destruct (_ || _); [exact Hb|]. eapply bounded_same; [|exact Hb]. reflexivity.
Qed.

Lemma bounded_storeResult h entry :
  cacheBounded h -> cacheBounded (storeResult h entry).
Proof.
  intros Hb. destruct entry as [m r]. unfold storeResult.
  destruct (_ && _); [|exact Hb].
  eapply bounded_same; [|apply (bounded_cacheSet (Message.id m) (plaintext r)), Hb].
  reflexivity.
Qed.

Lemma bounded_fold {A} (f : Hook -> A -> Hook) (l : list A) h :
  (forall x a, cacheBounded x -> cacheBounded (f x a)) ->
  cacheBounded h -> cacheBounded (fold_left f l h).
Proof.
  intros Hf. revert h. induction l as [|a l IH]; intros h Hb; simpl; [exact Hb|].
  apply IH, Hf, Hb.
Qed.

Lemma bounded_resumeBatch batch captured answer h :
  cacheBounded h -> cacheBounded (resumeBatch batch captured answer h).
Proof.
  intros Hb. unfold resumeBatch. destruct answer as [e|results].
  - apply bounded_fold; [|exact Hb].
    intros x a Hx. apply bounded_decryptSingleMessage, Hx.
  - match goal with |- cacheBounded (if _ then processBatchDecryption _ ?x else _) =>
      assert (cacheBounded x) as Hb1
        by (apply bounded_fold; [apply bounded_storeResult | exact Hb]) end.
    destruct (0 <? _)%nat; [apply bounded_processBatchDecryption|]; exact Hb1.
Qed.

Lemma bounded_decryptMessageIfNeeded captured m h :
  cacheBounded h -> cacheBounded (decryptMessageIfNeeded captured m h).
Proof.
  intros Hb. unfold decryptMessageIfNeeded, queueBatchDecryption.
  destruct (_ || _); [exact Hb|]. destruct (_ || _); [exact Hb|].
  cbn [setQueue batchDecryptionTimeout].
  destruct (batchDecryptionTimeout h); (eapply bounded_same; [|exact Hb]; reflexivity).
Qed.

Lemma bounded_runCallback cb h :
  cacheBounded h -> cacheBounded (runCallback cb h).
Proof.
  intros Hb. destruct cb as [captured|id captured|m captured]; simpl.
  - apply bounded_processBatchDecryption, Hb.
  - destruct (_ && _); [|exact Hb].
    apply bounded_cacheSet. eapply bounded_same; [|exact Hb]. reflexivity.
  - destruct (mounted h); [|exact Hb].
    apply bounded_decryptSingleMessage. eapply bounded_same; [|exact Hb]. reflexivity.
Qed.

Lemma bounded_react i h h' :
  cacheBounded h -> react i h = Some h' -> cacheBounded h'.
Proof.
  intros Hb Hr.
  assert (forall id, cacheBounded (dropTimer id h)) as Hdt
      by (intros; eapply bounded_same; [|exact Hb]; reflexivity).
  assert (forall id, cacheBounded (dropPending id h)) as Hdp
      by (intros; eapply bounded_same; [|exact Hb]; reflexivity).
  destruct i as [m captured|id|id outcome|id outcomes]; cbn [react] in Hr.
  - injection Hr as <-. apply bounded_decryptMessageIfNeeded, Hb.
  - destruct (findTimer id h); [|discriminate]. injection Hr as <-.
    apply bounded_runCallback, Hdt.
  - destruct (findPending id h) as [[m n t captured|batch captured]|]; try discriminate.
    injection Hr as <-. apply bounded_resumeSingle, Hdp.
  - destruct (findPending id h) as [[m n t captured|batch captured]|]; try discriminate.
    injection Hr as <-.
    exact (bounded_resumeBatch batch captured
             (inr (batchDecryptMessages (map outcomes (seq 0 (List.length batch)))))
             (dropPending id h) (Hdp id)).
Qed.

(** *** Batches *)

Lemma storeResult_frame h entry :
  mounted (storeResult h entry) = mounted h /\
  batchDecryptionQueue (storeResult h entry) = batchDecryptionQueue h /\
  trace (storeResult h entry) = trace h /\
  timers (storeResult h entry) = timers h /\
  awaiting (storeResult h entry) = awaiting h /\
  nextId (storeResult h entry) = nextId h.
Proof.
  destruct entry as [m r]. unfold storeResult.
  destruct (_ && _); repeat split; reflexivity.
Qed.

Lemma storeResults_frame entries h :
  mounted (fold_left storeResult entries h) = mounted h /\
  batchDecryptionQueue (fold_left storeResult entries h) = batchDecryptionQueue h /\
  trace (fold_left storeResult entries h) = trace h /\
  timers (fold_left storeResult entries h) = timers h /\
  awaiting (fold_left storeResult entries h) = awaiting h /\
  nextId (fold_left storeResult entries h) = nextId h.
Proof.
  revert h. induction entries as [|e entries IH]; intros h; simpl.
  - repeat split; reflexivity.
  - destruct (IH (storeResult h e)) as (H1 & H2 & H3 & H4 & H5 & H6).
    destruct (storeResult_frame h e) as (G1 & G2 & G3 & G4 & G5 & G6).
    repeat split; congruence.
Qed.

Lemma batch_dispatch captured h :
  mounted h = true -> batchDecryptionQueue h <> [] ->
  let h1 := processBatchDecryption captured h in
  let batch := firstn MAX_CONCURRENT_DECRYPTIONS (batchDecryptionQueue h) in
  trace h1 = trace h ++ map decryptCallOf batch /\
  batchDecryptionQueue h1 =
    skipn MAX_CONCURRENT_DECRYPTIONS (batchDecryptionQueue h) /\
  awaiting h1 = awaiting h ++ [(nextId h, AwaitBatch batch captured)] /\
  timers h1 = timers h.
Proof.
  intros Hm Hq h1 batch. subst h1 batch. unfold processBatchDecryption.
  rewrite Hm. destruct (batchDecryptionQueue h) as [|m q] eqn:E; [contradiction|].
  cbn [negb orb List.length Nat.eqb].
  repeat split; reflexivity.
Qed.

End ChatStoreFacts.

(** ** Facts about [last] *)

Lemma last_cons_default {A} (l : list A) (x a b : A) :
  last (x :: l) a = last (x :: l) b.
Proof.
  revert x. induction l as [|y l IH]; intros x; [reflexivity|].
  change (last (y :: l) a = last (y :: l) b). apply IH.
Qed.

Lemma last_map_some {A} (l : list A) (x d : A) :
  last (map Some (x :: l)) None = Some (last (x :: l) d).
Proof.
  revert x. induction l as [|y l IH]; intros x; [reflexivity|].
  change (last (map Some (y :: l)) None = Some (last (y :: l) d)). apply IH.
Qed.

(** ** Facts about a cache without capacity *)
Module LRUEdgeFacts.

Lemma set_without_capacity (c : LRUCache.t) (key value : string) :
  (LRUCache.maxSize c <= 0)%Z ->
  (List.length (LRUCache.cache c) <= 1)%nat ->
  LRUCache.cache (LRUCache.set key value c) = [(key, value)].
Proof.
  intros Hcap Hlen. unfold LRUCache.set, LRUCache.evict, JSMap.size.
  destruct c as [cap m]. cbn [LRUCache.cache LRUCache.maxSize] in *.
  assert ((Z.of_nat (List.length m) >=? cap)%Z = true) as -> by lia.
  destruct m as [|[k0 v0] [|p m]]; cbn [List.length] in Hlen; try lia.
  - reflexivity.
  - cbn [JSMap.firstKey]. rewrite JSMapFacts.delete_cons, String.eqb_refl.
    reflexivity.
Qed.

Lemma step_without_capacity (o : LRUCache.op) (c : LRUCache.t) :
  (LRUCache.maxSize c <= 0)%Z ->
  (List.length (LRUCache.cache c) <= 1)%nat ->
  (List.length (LRUCache.cache (LRUCache.step o c)) <= 1)%nat.
Proof.
  intros Hcap Hlen. destruct o as [key|key value|key|]; cbn [LRUCache.step].
  - pose proof (LRUFacts.size_get key c) as H.
    unfold LRUCache.size, JSMap.size in H. lia.
  - rewrite set_without_capacity by assumption. cbn. lia.
  - assumption.
  - cbn. lia.
Qed.

Lemma run_without_capacity (ops : list LRUCache.op) (c : LRUCache.t) :
  (LRUCache.maxSize c <= 0)%Z ->
  (List.length (LRUCache.cache c) <= 1)%nat ->
  (List.length (LRUCache.cache (LRUCache.run ops c)) <= 1)%nat.
Proof.
  revert c. induction ops as [|o ops IH]; intros c Hcap Hlen; [exact Hlen|].
  change (LRUCache.run (o :: ops) c) with (LRUCache.run ops (LRUCache.step o c)).
  apply IH.
  - rewrite LRUFacts.maxSize_step. exact Hcap.
  - apply step_without_capacity; assumption.
Qed.

End LRUEdgeFacts.

(** ** Further facts about [apiService.js] *)
Module ApiClientFacts.
Import Api.



Lemma clock_refreshToken w s :
  clockReads s <= clockReads (snd (refreshToken w s)).
Proof. unfold refreshToken. destruct (identity w _); simpl; lia. Qed.

Lemma clock_getCurrentUserToken w s :
  clockReads s <= clockReads (snd (getCurrentUserToken w s)).
Proof.
  unfold getCurrentUserToken.
  destruct (token s); [|apply clock_refreshToken].
  destruct (expiryTime s); [|apply clock_refreshToken].
  destruct (_ && _); [|apply clock_refreshToken].
  simpl. destruct (_ <? _)%Z; [simpl; lia|].
  match goal with |- context [refreshToken w ?s'] =>
    pose proof (clock_refreshToken w s') as H end.
  simpl in H. lia.
Qed.

(** A token that [getCurrentUserToken] hands out is either the cached one
    or the one the identity provider has just given. *)
Lemma token_getCurrentUserToken w s t s' :
  getCurrentUserToken w s = (inr (Some t), s') ->
  token s = Some t \/ exists n, identity w n = SignedIn t.
Proof.
  assert (forall s0, refreshToken w s0 = (inr (Some t), s') ->
                     exists n, identity w n = SignedIn t) as Hr.
  { intros s0. unfold refreshToken.
    destruct (identity w (identityAsked s0)) as [t0| | |] eqn:E;
      intros H; try discriminate.
    injection H as <- _. eauto. }
  unfold getCurrentUserToken.
  destruct (token s) as [tok|]; [|eauto].
  destruct (expiryTime s); [|eauto].
  destruct (_ && _); [|eauto].
  simpl. destruct (_ <? _)%Z; [|eauto].
  intros [= <- _]. left. reflexivity.
Qed.


Lemma token_lookup w useCache url payload s :
  token (snd (lookup w useCache url payload s)) = token s.
Proof.
  unfold lookup, getCachedResponse. destruct useCache; [|reflexivity].
  destruct (JSMap.get _ _) as [[data timestamp]|]; [|reflexivity].
  simpl. destruct (_ <? _)%Z; reflexivity.
Qed.


(** The requests of one call: each goes to the given URL with the given
    body and carries a non-empty bearer token, which is the cached token or
    one that the identity provider issued. *)
Lemma requests_carry_a_token w url payload useCache n :
  forall retryCount s,
    maxRetries - retryCount <= n ->
    exists rqs,
      fetched (snd (makeAuthenticatedRequest w url payload retryCount useCache s))
      = fetched s ++ rqs /\
      Forall (fun rq => Api.url rq = url /\ Api.payload rq = payload /\
                        nonEmpty (bearer rq) = true /\
                        (Some (bearer rq) = token s \/
                         exists k, identity w k = SignedIn (bearer rq))) rqs.
Proof.
  induction n as [|n IH]; intros retryCount s Hn; rewrite ApiFacts.unfold_mar;
    pose proof (ApiFacts.fetched_lookup w useCache url payload s) as Hl;
    pose proof (token_lookup w useCache url payload s) as Htl;
    destruct (lookup w useCache url payload s) as [[cached|] s1];
    simpl in Hl, Htl;
    try (exists []; rewrite app_nil_r; simpl; split; [assumption | constructor]);
    pose proof (ApiFacts.fetched_getCurrentUserToken w s1) as Ht;
    pose proof (token_getCurrentUserToken w s1) as Hfrom;
    destruct (getCurrentUserToken w s1) as [[error|idToken] s2]; simpl in Ht;
    try (exists []; rewrite app_nil_r; simpl; split; [congruence | constructor]);
    (destruct idToken as [t|];
     [|exists []; rewrite app_nil_r; simpl; split; [congruence | constructor]]);
    (destruct (truthy (Some t)) eqn:Etr;
     [|exists []; rewrite app_nil_r; simpl; split; [congruence | constructor]]);
    specialize (Hfrom t s2 eq_refl); rewrite Htl in Hfrom;
    assert (nonEmpty t = true) as Hne by (destruct t; [discriminate | reflexivity]);
    assert (Api.url (mkRequest url t payload) = url /\
            Api.payload (mkRequest url t payload) = payload /\
            nonEmpty (bearer (mkRequest url t payload)) = true /\
            (Some (bearer (mkRequest url t payload)) = token s \/
             exists k, identity w k = SignedIn (bearer (mkRequest url t payload))))
      as Hrq
      by (cbn; repeat split; try assumption;
          destruct Hfrom as [H|H]; [left; congruence | right; exact H]);
    unfold fetch; destruct (network w _) as [response|error];
    try (exists [mkRequest url t payload]; simpl; split;
         [rewrite Ht, Hl; reflexivity | constructor; [exact Hrq | constructor]]).
  - assert ((retryCount <? maxRetries)%nat = false) as ->
        by (apply Nat.ltb_ge; lia).
    rewrite andb_false_r. exists [mkRequest url t payload]. split.
    + simpl. destruct (useCache && ok response); simpl; rewrite Ht, Hl; reflexivity.
    + constructor; [exact Hrq | constructor].
  - destruct (isAuthFailure response && (retryCount <? maxRetries)%nat) eqn:E.
    + apply andb_prop in E. destruct E as [_ E]. apply Nat.ltb_lt in E.
      match goal with |- context [makeAuthenticatedRequest _ _ _ _ _ ?s'] =>
        destruct (IH (S retryCount) s' ltac:(lia)) as (rqs & Hr & Hall) end.
      rewrite Hr. simpl. rewrite Ht, Hl, <- app_assoc.
      exists (mkRequest url t payload :: rqs). split; [reflexivity|].
      constructor; [exact Hrq|].
      eapply Forall_impl; [|exact Hall].
      cbn. intros rq (H1 & H2 & H3 & [H4|H4]); [discriminate|].
      repeat split; try assumption. right. exact H4.
    + exists [mkRequest url t payload]. split.
      * simpl. destruct (useCache && ok response); simpl; rewrite Ht, Hl; reflexivity.
      * constructor; [exact Hrq | constructor].
Qed.




End ApiClientFacts.

(** ** Facts about [debounceRequest] *)
Module DebounceFacts.
Import Debounce.

Section WithThunks.
Context {Fn A : Type}.

Lemma first_request (k : string) (f : Fn) (d : Z) :
  debounceRequest (A := A) k f d empty = (0%nat, afterBurst k 0 f d).
Proof.
  unfold debounceRequest, empty, afterBurst.
  cbn [requestQueue heap issued timers running nextId started].
  change (JSMap.get k JSMap.empty) with (@None nat). cbv iota.
  rewrite JSMapFacts.get_set_same. reflexivity.
Qed.

Lemma next_request (k : string) (n : nat) (f f' : Fn) (d d' : Z) :
  debounceRequest (A := A) k f' d' (afterBurst k n f d)
  = (S n, afterBurst k (S n) f' d').
Proof.
  assert (seq 0 (S n) ++ [S n] = seq 0 (S (S n))) as Hseq
      by (rewrite (seq_S (S n) 0); reflexivity).
  assert (repeat (@Pending A) (S n) ++ [Pending] = repeat Pending (S (S n))) as Hrep.
  { change [@Pending A] with (repeat (@Pending A) 1).
    rewrite <- repeat_app. f_equal. lia. }
  unfold debounceRequest, afterBurst.
  cbn [requestQueue heap issued timers running nextId started].
  change (JSMap.get k [(k, 0%nat)]) with (if String.eqb k k then Some 0%nat else None).
  rewrite String.eqb_refl. cbv iota beta.
  change (JSMap.get k [(k, 0%nat)]) with (if String.eqb k k then Some 0%nat else None).
  rewrite String.eqb_refl. cbv iota beta.
  cbn [updateEntry entryAt nth promises timeout clearTimeout filter timerId].
  rewrite Nat.eqb_refl. cbn [negb app].
  rewrite repeat_length, Hseq, Hrep. reflexivity.
Qed.

Lemma burst (k : string) (earlier : list (Fn * Z)) (f : Fn) (d : Z) :
  run (map (fun r => Request k (fst r) (snd r)) earlier ++ [Request k f d]) empty
  = Some (afterBurst (A := A) k (List.length earlier) f d).
Proof.
  assert (forall (rest : list (Fn * Z)) n f0 d0,
             run (map (fun r => Request k (fst r) (snd r)) rest ++ [Request k f d])
                 (afterBurst (A := A) k n f0 d0)
             = Some (afterBurst k (S n + List.length rest) f d)) as Hrest.
  { induction rest as [|[f1 d1] rest IH]; intros n f0 d0.
    - cbn [map app run react]. rewrite next_request. cbn [snd List.length].
      rewrite Nat.add_0_r. reflexivity.
    - cbn [map app run react fst snd]. rewrite next_request. cbn [snd].
      rewrite IH. cbn [List.length]. do 2 f_equal. lia. }
  destruct earlier as [|[f1 d1] earlier].
  - cbn [map app run react]. rewrite first_request. reflexivity.
  - cbn [map app run react fst snd]. rewrite first_request. cbn [snd].
    rewrite Hrest. reflexivity.
Qed.

Lemma settle_all (o : Outcome A) (n : nat) (done : list (PromiseState A)) :
  fold_left (fun ps p => settlePromise p o ps) (seq (List.length done) n)
            (done ++ repeat Pending n)
  = done ++ repeat (Settled o) n.
Proof.
  revert done. induction n as [|n IH]; intros done; [reflexivity|].
  cbn [seq fold_left repeat].
  assert (settlePromise (List.length done) o (done ++ Pending :: repeat Pending n)
          = (done ++ [Settled o]) ++ repeat Pending n) as ->.
  { induction done as [|x done IHd]; [reflexivity|].
    cbn [List.length app settlePromise]. rewrite IHd.
    destruct x; reflexivity. }
  replace (S (List.length done)) with (List.length (done ++ [Settled o]))
    by (rewrite length_app; cbn; lia).
  rewrite IH, <- app_assoc. reflexivity.
Qed.

Lemma fire_afterBurst (k : string) (n : nat) (f : Fn) (d : Z) :
  fire (A := A) (S n) (afterBurst k n f d)
  = Some (mkState Fn A [(k, 0%nat)] [mkEntry (seq 0 (S n)) (Some (S n))]
                  (repeat Pending (S n)) [] [mkCall (S (S n)) k 0]
                  (S (S (S n))) [f]).
Proof.
  unfold fire, afterBurst. cbn [timers find timerId].
  rewrite Nat.eqb_refl.
  cbn [requestQueue heap issued timers running nextId started filter timerId
       key entry fn app].
  rewrite Nat.eqb_refl. reflexivity.
Qed.

Lemma settle_running (k : string) (n c next : nat) (t : option nat) (f : Fn)
  (ts : list (Timer Fn)) (o : Outcome A) :
  settle c o
    (mkState Fn A [(k, 0%nat)] [mkEntry (seq 0 (S n)) t]
             (repeat Pending (S n)) ts [mkCall c k 0] next [f])
  = Some (mkState Fn A [] [mkEntry (seq 0 (S n)) t]
                  (repeat (Settled o) (S n)) ts [] next [f]).
Proof.
  unfold settle. cbn [running find callId]. rewrite Nat.eqb_refl.
  cbn [requestQueue heap issued timers running nextId started filter callId
       callKey callEntry entryAt nth promises].
  rewrite Nat.eqb_refl, JSMapFacts.delete_cons, String.eqb_refl.
  cbn [negb]. pose proof (settle_all o (S n) []) as Hall.
  cbn [List.length app] in Hall. rewrite Hall. reflexivity.
Qed.

End WithThunks.

End DebounceFacts.

(** ** Facts about the life cycle of the hook *)
Module LifecycleFacts.
Import ChatStore.

(** Unfolds the record updates of the hook. *)
Ltac hook_fields :=
  unfold cacheSet, clearTimeout in *;
  unfold setCache, setDecryptingMessageIds, setRetryCounts, setDecryptionTimeouts,
         setQueue, setBatchTimeout, setTimeout, dropTimer, await,
         dropPending, HookLifecycle.setMounted in *;
  cbn [mounted decryptedMessagesCache decryptingMessageIds retryCounts
       decryptionTimeouts batchDecryptionQueue batchDecryptionTimeout timers
       awaiting nextId trace fst snd] in *.

Lemma retryDelays_calls (batch : list Message.t) :
  retryDelays (map decryptCallOf batch) = [].
Proof. induction batch as [|m batch IH]; [reflexivity | exact IH]. Qed.

Lemma decryptCalls_calls (batch : list Message.t) :
  decryptCalls (map decryptCallOf batch) =
  map (fun m => (Message.messageCiphertextKMS m, Message.kmsKeyVersionName m)) batch.
Proof.
  induction batch as [|m batch IH]; [reflexivity|].
  cbn. f_equal. exact IH.
Qed.

Lemma find_some_in {A} (p : A -> bool) (l : list A) (x : A) :
  find p l = Some x -> In x l.
Proof. intros H. apply find_some in H. tauto. Qed.

(** *** The single-message path is not reachable *)

(** No retry state, no timeout timers, no retry was ever scheduled, and
    only batch work is pending. *)
Definition batchPathOnly (h : Hook) : Prop :=
  retryCounts h = JSMap.empty /\
  decryptionTimeouts h = JSMap.empty /\
  retryDelays (trace h) = [] /\
  HookLifecycle.batchOnly h.

Lemma batchPath_storeResult h entry :
  batchPathOnly h -> batchPathOnly (storeResult h entry).
Proof.
  intros H. destruct entry as [m r]. unfold storeResult.
  destruct (_ && _); [|exact H].
  destruct H as (H1 & H2 & H3 & H4 & H5).
  repeat split; hook_fields; assumption.
Qed.

Lemma batchPath_fold h entries :
  batchPathOnly h -> batchPathOnly (fold_left storeResult entries h).
Proof.
  revert h. induction entries as [|e entries IH]; intros h H; [exact H|].
  apply IH, batchPath_storeResult, H.
Qed.

Lemma batchPath_processBatchDecryption captured h :
  batchPathOnly h -> batchPathOnly (processBatchDecryption captured h).
Proof.
  intros H. unfold processBatchDecryption.
  destruct (_ || _); [exact H|].
  destruct H as (H1 & H2 & H3 & H4 & H5).
  repeat split; hook_fields; try assumption.
  - rewrite ChatStoreFacts.retryDelays_app, H3, retryDelays_calls. reflexivity.
  - apply Forall_app. split; [assumption|].
    constructor; [|constructor]. cbn. eauto.
Qed.

Lemma batchPath_dropTimer id h : batchPathOnly h -> batchPathOnly (dropTimer id h).
Proof.
  intros (H1 & H2 & H3 & H4 & H5). repeat split; hook_fields; try assumption.
  apply Forall_forall. intros t Ht. apply filter_In in Ht.
  rewrite Forall_forall in H4. apply H4. tauto.
Qed.

Lemma batchPath_dropPending id h : batchPathOnly h -> batchPathOnly (dropPending id h).
Proof.
  intros (H1 & H2 & H3 & H4 & H5). repeat split; hook_fields; try assumption.
  apply Forall_forall. intros t Ht. apply filter_In in Ht.
  rewrite Forall_forall in H5. apply H5. tauto.
Qed.

Lemma batchPath_clearTimeout id h : batchPathOnly h -> batchPathOnly (clearTimeout id h).
Proof.
  intros H. apply (batchPath_dropTimer id) in H.
  destruct H as (H1 & H2 & H3 & H4 & H5).
  repeat split; hook_fields; try assumption.
  rewrite ChatStoreFacts.retryDelays_app, H3. reflexivity.
Qed.

Lemma batchPath_decryptMessageIfNeeded captured m h :
  batchPathOnly h -> batchPathOnly (decryptMessageIfNeeded captured m h).
Proof.
  intros H. unfold decryptMessageIfNeeded, queueBatchDecryption.
  destruct (_ || _); [exact H|]. destruct (_ || _); [exact H|].
  set (h1 := setQueue (batchDecryptionQueue h ++ [m]) h).
  assert (batchPathOnly h1) as H1
      by (destruct H as (G1 & G2 & G3 & G4 & G5); repeat split; assumption).
  clearbody h1.
  set (h2 := match batchDecryptionTimeout h1 with
             | Some t => clearTimeout t h1
             | None => h1
             end).
  assert (batchPathOnly h2) as H2
      by (unfold h2; destruct (batchDecryptionTimeout h1);
          [apply batchPath_clearTimeout|]; exact H1).
  clearbody h2.
  destruct H2 as (G1 & G2 & G3 & G4 & G5).
  repeat split; hook_fields; try assumption.
  - rewrite ChatStoreFacts.retryDelays_app, G3. reflexivity.
  - apply Forall_app. split; [assumption|].
    constructor; [|constructor]. cbn. eauto.
Qed.

Lemma batchPath_react i h h' :
  batchPathOnly h -> react i h = Some h' -> batchPathOnly h'.
Proof.
  intros H Hr.
  destruct i as [m captured|id|id outcome|id outcomes]; cbn [react] in Hr.
  - injection Hr as <-. apply batchPath_decryptMessageIfNeeded, H.
  - unfold findTimer in Hr.
    destruct (find _ (timers h)) as [t|] eqn:Ef; [|discriminate].
    injection Hr as <-.
    destruct H as (H1 & H2 & H3 & H4 & H5).
    pose proof (find_some_in _ _ _ Ef) as Hin.
    rewrite Forall_forall in H4. destruct (H4 t Hin) as [captured Hcb].
    rewrite Hcb. cbn [runCallback].
    apply batchPath_processBatchDecryption, batchPath_dropTimer.
    repeat split; try assumption. apply Forall_forall, H4.
  - unfold findPending in Hr.
    destruct (find _ (awaiting h)) as [p|] eqn:Ef; [|discriminate].
    destruct H as (H1 & H2 & H3 & H4 & H5).
    pose proof (find_some_in _ _ _ Ef) as Hin.
    rewrite Forall_forall in H5. destruct (H5 p Hin) as (batch & captured & Hp).
    cbn [option_map] in Hr. rewrite Hp in Hr. discriminate.
  - destruct (findPending id h) as [[m n t captured|batch captured]|];
      try discriminate.
    injection Hr as <-. unfold resumeBatch.
    match goal with |- batchPathOnly (if _ then processBatchDecryption _ ?x else _) =>
      assert (batchPathOnly x) as Hx
        by (apply batchPath_fold, batchPath_dropPending, H) end.
    destruct (0 <? _)%nat; [apply batchPath_processBatchDecryption|]; exact Hx.
Qed.

Lemma batchPath_run inputs h h' :
  batchPathOnly h -> run inputs h = Some h' -> batchPathOnly h'.
Proof.
  revert h. induction inputs as [|i inputs IH]; intros h H; simpl.
  - intros [= <-]. exact H.
  - destruct (react i h) as [h1|] eqn:E; [|discriminate].
    apply IH. eapply batchPath_react; eassumption.
Qed.


(** *** The pipeline writes to the cache with [set] only *)

Definition storesOnly (h h' : Hook) : Prop :=
  exists entries,
    decryptedMessagesCache h' =
    HookLifecycle.stores entries (decryptedMessagesCache h).

Lemma stores_app a b c :
  HookLifecycle.stores (a ++ b) c = HookLifecycle.stores b (HookLifecycle.stores a c).
Proof. unfold HookLifecycle.stores. apply fold_left_app. Qed.

Lemma storesOnly_same h h' :
  decryptedMessagesCache h' = decryptedMessagesCache h -> storesOnly h h'.
Proof. intros H. exists []. exact H. Qed.

Lemma storesOnly_trans h1 h2 h3 :
  storesOnly h1 h2 -> storesOnly h2 h3 -> storesOnly h1 h3.
Proof.
  intros [a Ha] [b Hb]. exists (a ++ b). rewrite stores_app, <- Ha. exact Hb.
Qed.

Lemma storesOnly_cacheSet key value h : storesOnly h (cacheSet key value h).
Proof. exists [(key, value)]. reflexivity. Qed.

Lemma storesOnly_decryptSingleMessage captured m h :
  storesOnly h (decryptSingleMessage captured m h).
Proof.
  unfold decryptSingleMessage.
  destruct (mounted h); cbn [negb]; [|apply storesOnly_same; reflexivity].
  destruct (MAX_DECRYPTION_RETRIES <=? _)%nat.
  - apply storesOnly_cacheSet.
  - apply storesOnly_same. reflexivity.
Qed.

Lemma storesOnly_resumeSingle m n t captured outcome h :
  storesOnly h (resumeSingle m n t captured outcome h).
Proof.
  unfold resumeSingle.
  set (h2 := setDecryptionTimeouts _ (clearTimeout t h)).
  assert (storesOnly h h2) as H2 by (apply storesOnly_same; reflexivity).
  clearbody h2.
  match goal with |- storesOnly h (if mounted ?x then _ else _) =>
    assert (storesOnly h x) as H3 end.
  { destruct outcome as [p|r]; destruct (mounted h2); try exact H2.
    - eapply storesOnly_trans; [exact H2|].
      eapply storesOnly_trans; [apply (storesOnly_cacheSet (Message.id m) p)|].
      apply storesOnly_same. reflexivity.
    - destruct (n <? MAX_DECRYPTION_RETRIES - 1)%nat.
      + eapply storesOnly_trans; [exact H2|]. apply storesOnly_same. reflexivity.
      + eapply storesOnly_trans; [exact H2|].
        eapply storesOnly_trans;
          [apply (storesOnly_cacheSet (Message.id m) "[Error al descifrar]")|].
        apply storesOnly_same. reflexivity. }
  match goal with |- storesOnly h (if mounted ?x then _ else _) =>
    destruct (mounted x); [|exact H3] end.
  eapply storesOnly_trans; [exact H3|]. apply storesOnly_same. reflexivity.
Qed.

Lemma storesOnly_processBatchDecryption captured h :
  storesOnly h (processBatchDecryption captured h).
Proof.
  unfold processBatchDecryption.
  destruct (_ || _); apply storesOnly_same; reflexivity.
Qed.

Lemma storesOnly_storeResult h entry : storesOnly h (storeResult h entry).
Proof.
  destruct entry as [m r]. unfold storeResult.
  destruct (_ && _); [|apply storesOnly_same; reflexivity].
  eapply storesOnly_trans; [apply (storesOnly_cacheSet (Message.id m) (plaintext r))|].
  apply storesOnly_same. reflexivity.
Qed.

Lemma storesOnly_fold {A} (f : Hook -> A -> Hook) (l : list A) h :
  (forall x a, storesOnly x (f x a)) -> storesOnly h (fold_left f l h).
Proof.
  intros Hf. revert h. induction l as [|a l IH]; intros h; simpl.
  - apply storesOnly_same. reflexivity.
  - eapply storesOnly_trans; [apply Hf | apply IH].
Qed.

Lemma storesOnly_resumeBatch batch captured answer h :
  storesOnly h (resumeBatch batch captured answer h).
Proof.
  unfold resumeBatch. destruct answer as [e|results].
  - apply storesOnly_fold. intros x a. apply storesOnly_decryptSingleMessage.
  - match goal with |- storesOnly h (if _ then processBatchDecryption _ ?x else _) =>
      assert (storesOnly h x) as H1
        by (apply storesOnly_fold; apply storesOnly_storeResult) end.
    destruct (0 <? _)%nat; [|exact H1].
    eapply storesOnly_trans; [exact H1 | apply storesOnly_processBatchDecryption].
Qed.

Lemma cache_decryptMessageIfNeeded captured m h :
  decryptedMessagesCache (decryptMessageIfNeeded captured m h) =
  decryptedMessagesCache h.
Proof.
  unfold decryptMessageIfNeeded, queueBatchDecryption.
  destruct (_ || _); [reflexivity|]. destruct (_ || _); [reflexivity|].
  cbn [setQueue batchDecryptionTimeout].
  destruct (batchDecryptionTimeout h); reflexivity.
Qed.

Lemma storesOnly_runCallback cb h : storesOnly h (runCallback cb h).
Proof.
  destruct cb as [captured|id captured|m captured]; simpl.
  - apply storesOnly_processBatchDecryption.
  - destruct (_ && _); [|apply storesOnly_same; reflexivity].
    eapply storesOnly_trans; [|apply storesOnly_cacheSet].
    apply storesOnly_same. reflexivity.
  - destruct (mounted h); [|apply storesOnly_same; reflexivity].
    eapply storesOnly_trans; [|apply storesOnly_decryptSingleMessage].
    apply storesOnly_same. reflexivity.
Qed.

Lemma storesOnly_react i h h' : react i h = Some h' -> storesOnly h h'.
Proof.
  intros Hr.
  destruct i as [m captured|id|id outcome|id outcomes]; cbn [react] in Hr.
  - injection Hr as <-. apply storesOnly_same, cache_decryptMessageIfNeeded.
  - destruct (findTimer id h); [|discriminate]. injection Hr as <-.
    eapply storesOnly_trans; [|apply storesOnly_runCallback].
    apply storesOnly_same. reflexivity.
  - destruct (findPending id h) as [[m n t captured|batch captured]|]; try discriminate.
    injection Hr as <-.
    eapply storesOnly_trans; [|apply storesOnly_resumeSingle].
    apply storesOnly_same. reflexivity.
  - destruct (findPending id h) as [[m n t captured|batch captured]|]; try discriminate.
    injection Hr as <-.
    eapply storesOnly_trans;
      [|exact (storesOnly_resumeBatch batch captured
                 (inr (batchDecryptMessages (map outcomes (seq 0 (List.length batch)))))
                 (dropPending id h))].
    apply storesOnly_same. reflexivity.
Qed.

(** *** After the unmount *)

(** Unmounted, with an empty cache and no retry state. *)
Definition idle (h : Hook) : Prop :=
  mounted h = false /\
  LRUCache.cache (decryptedMessagesCache h) = JSMap.empty /\
  retryCounts h = JSMap.empty.

Lemma idle_frame h h' :
  mounted h' = mounted h ->
  decryptedMessagesCache h' = decryptedMessagesCache h ->
  retryCounts h' = retryCounts h ->
  idle h -> idle h'.
Proof. unfold idle. intros -> -> ->. auto. Qed.

Lemma unmounted_storeResults entries h :
  mounted h = false -> fold_left storeResult entries h = h.
Proof.
  intros Hm. induction entries as [|[m r] entries IH]; [reflexivity|].
  simpl. rewrite Hm. exact IH.
Qed.

Lemma unmounted_resumeSingle m n t captured outcome h :
  mounted h = false ->
  resumeSingle m n t captured outcome h =
  setDecryptionTimeouts (JSMap.delete (Message.id m) (decryptionTimeouts h))
                        (clearTimeout t h).
Proof.
  intros Hm. unfold resumeSingle.
  set (h2 := setDecryptionTimeouts _ (clearTimeout t h)).
  assert (mounted h2 = false) as M2 by exact Hm.
  change (setDecryptionTimeouts
            (JSMap.delete (Message.id m) (decryptionTimeouts h)) (clearTimeout t h))
    with h2.
  clearbody h2. destruct outcome; rewrite M2; rewrite M2; reflexivity.
Qed.

(** A move of the pipeline on an unmounted hook starts no decrypt call
    and leaves the cache and the retry state alone. *)
Lemma unmounted_react i h h' :
  mounted h = false -> react i h = Some h' ->
  mounted h' = false /\
  decryptedMessagesCache h' = decryptedMessagesCache h /\
  retryCounts h' = retryCounts h /\
  decryptCalls (trace h') = decryptCalls (trace h).
Proof.
  intros Hm Hr.
  destruct i as [m captured|id|id outcome|id outcomes]; cbn [react] in Hr.
  - injection Hr as <-. unfold decryptMessageIfNeeded, queueBatchDecryption.
    destruct (_ || _); [auto|]. destruct (_ || _); [auto|].
    cbn [setQueue batchDecryptionTimeout].
    destruct (batchDecryptionTimeout h); hook_fields;
      rewrite ?ChatStoreFacts.decryptCalls_app; cbn; rewrite ?app_nil_r; auto.
  - destruct (findTimer id h) as [t|]; [|discriminate]. injection Hr as <-.
    destruct (callback t) as [captured|mid captured|m captured]; cbn [runCallback].
    + unfold processBatchDecryption. hook_fields. rewrite Hm. cbn. auto.
    + hook_fields. rewrite Hm. cbn. auto.
    + hook_fields. rewrite Hm. cbn. auto.
  - destruct (findPending id h) as [[m n t captured|batch captured]|]; try discriminate.
    injection Hr as <-. rewrite unmounted_resumeSingle by exact Hm.
    hook_fields. rewrite ChatStoreFacts.decryptCalls_app. cbn.
    rewrite app_nil_r. auto.
  - destruct (findPending id h) as [[m n t captured|batch captured]|]; try discriminate.
    injection Hr as <-. unfold resumeBatch.
    rewrite unmounted_storeResults by exact Hm.
    unfold processBatchDecryption. hook_fields. rewrite Hm. cbn [negb orb].
    destruct (0 <? _)%nat; auto.
Qed.

Lemma decryptCalls_clearTimeouts (ids : list (string * nat)) h :
  let h' := fold_left (fun h entry => clearTimeout (snd entry) h) ids h in
  mounted h' = mounted h /\
  decryptedMessagesCache h' = decryptedMessagesCache h /\
  decryptCalls (trace h') = decryptCalls (trace h).
Proof.
  revert h. induction ids as [|[k t] ids IH]; intros h; cbn zeta; [auto|].
  cbn [fold_left snd]. destruct (IH (clearTimeout t h)) as (G1 & G2 & G3).
  cbv zeta in G1, G2, G3. rewrite G1, G2, G3. hook_fields.
  rewrite ChatStoreFacts.decryptCalls_app. cbn. rewrite app_nil_r. auto.
Qed.

Lemma unmount_idle c :
  idle (HookLifecycle.hook (HookLifecycle.unmount c)) /\
  HookLifecycle.memoryCleanupInterval (HookLifecycle.unmount c) = false /\
  decryptCalls (trace (HookLifecycle.hook (HookLifecycle.unmount c))) =
  decryptCalls (trace (HookLifecycle.hook c)).
Proof.
  unfold HookLifecycle.unmount.
  set (h1 := HookLifecycle.setMounted false (HookLifecycle.hook c)).
  set (h2 := match batchDecryptionTimeout h1 with
             | Some t => clearTimeout t h1
             | None => h1
             end).
  assert (mounted h2 = false /\
          decryptCalls (trace h2) = decryptCalls (trace (HookLifecycle.hook c)))
    as [M2 T2].
  { unfold h2. destruct (batchDecryptionTimeout h1); unfold h1; hook_fields;
      rewrite ?ChatStoreFacts.decryptCalls_app; cbn; rewrite ?app_nil_r; auto. }
  clearbody h2.
  destruct (decryptCalls_clearTimeouts (decryptionTimeouts h2) h2) as (G1 & G2 & G3).
  cbv zeta in G1, G2, G3.
  set (h3 := fold_left _ (decryptionTimeouts h2) h2) in *. clearbody h3.
  cbn [HookLifecycle.hook HookLifecycle.memoryCleanupInterval].
  unfold idle. hook_fields. rewrite G1, G3, M2, T2. auto.
Qed.

(** *** [cleanupMemory] *)

Lemma has_add x y s :
  JSSet.has x (JSSet.add y s) = String.eqb x y || JSSet.has x s.
Proof.
  unfold JSSet.add. destruct (JSSet.has y s) eqn:E.
  - destruct (String.eqb_spec x y) as [->|]; [rewrite E|]; reflexivity.
  - unfold JSSet.has. rewrite existsb_app. simpl.
    rewrite orb_false_r. apply orb_comm.
Qed.

Lemma has_visible_messages x msgs ids :
  JSSet.has x (fold_left (fun ids msg => JSSet.add (Message.id msg) ids) msgs ids) =
  existsb (fun msg => String.eqb (Message.id msg) x) msgs || JSSet.has x ids.
Proof.
  revert ids. induction msgs as [|m msgs IH]; intros ids; [reflexivity|].
  cbn [fold_left existsb]. rewrite IH, has_add.
  rewrite (String.eqb_sym x). 
  destruct (String.eqb (Message.id m) x), (existsb _ msgs), (JSSet.has x ids);
    reflexivity.
Qed.

Lemma has_visibleMessageIds_from x chats ids :
  JSSet.has x
    (fold_left
       (fun ids chat =>
          fold_left (fun ids msg => JSSet.add (Message.id msg) ids)
                    (ChatMutator.chatMessages chat) ids) chats ids) =
  HookLifecycle.listed x chats || JSSet.has x ids.
Proof.
  revert ids. induction chats as [|c chats IH]; intros ids; [reflexivity|].
  cbn [fold_left HookLifecycle.listed existsb]. rewrite IH, has_visible_messages.
  fold (HookLifecycle.listed x chats).
  destruct (existsb _ (ChatMutator.chatMessages c)), (HookLifecycle.listed x chats),
    (JSSet.has x ids); reflexivity.
Qed.

Lemma has_visibleMessageIds x chats :
  JSSet.has x (HookLifecycle.visibleMessageIds chats) = HookLifecycle.listed x chats.
Proof.
  unfold HookLifecycle.visibleMessageIds.
  rewrite has_visibleMessageIds_from. apply orb_false_r.
Qed.

(** Deleting, one by one, the keys of [entries] that are not visible. *)
Lemma get_dropInvisible_from visible (entries m : JSMap.t nat) k :
  JSMap.get k
    (fold_left
       (fun m entry =>
          if negb (JSSet.has (fst entry) visible)
          then JSMap.delete (fst entry) m else m) entries m) =
  if negb (JSSet.has k visible) && JSMap.has k entries then None
  else JSMap.get k m.
Proof.
  revert m. induction entries as [|[k' n] entries IH]; intros m.
  - cbn. rewrite andb_false_r. reflexivity.
  - cbn [fold_left fst]. rewrite IH, JSMapFacts.has_cons.
    destruct (String.eqb_spec k' k) as [->|Hne].
    + destruct (JSSet.has k visible); cbn [negb andb orb]; [reflexivity|].
      rewrite JSMapFacts.get_delete_same. destruct (JSMap.has k entries); reflexivity.
    + cbn [orb]. destruct (negb (JSSet.has k visible) && JSMap.has k entries);
        [reflexivity|].
      destruct (negb (JSSet.has k' visible)); [|reflexivity].
      apply JSMapFacts.get_delete_other. congruence.
Qed.

Lemma get_dropInvisible visible (m : JSMap.t nat) k :
  JSMap.get k (HookLifecycle.dropInvisible visible m) =
  if JSSet.has k visible then JSMap.get k m else None.
Proof.
  unfold HookLifecycle.dropInvisible. rewrite get_dropInvisible_from.
  destruct (JSSet.has k visible); cbn [negb andb]; [reflexivity|].
  rewrite JSMapFacts.has_as_get. destruct (JSMap.get k m); reflexivity.
Qed.

Lemma length_dropInvisible_from visible (entries m : JSMap.t nat) :
  (forall k, JSMap.has k m = true -> JSMap.has k entries = true) ->
  (forall k, JSMap.has k m = true -> JSSet.has k visible = false) ->
  fold_left
    (fun m entry =>
       if negb (JSSet.has (fst entry) visible)
       then JSMap.delete (fst entry) m else m) entries m = [].
Proof.
  revert m. induction entries as [|[k' n] entries IH]; intros m Hsub Hinv.
  - destruct m as [|[k v] m]; [reflexivity|].
    specialize (Hsub k). rewrite JSMapFacts.has_cons, String.eqb_refl in Hsub.
    discriminate (Hsub eq_refl).
  - cbn [fold_left fst]. apply IH.
    + intros k Hk. destruct (negb (JSSet.has k' visible)) eqn:E.
      * destruct (String.eqb_spec k k') as [->|Hne].
        -- rewrite JSMapFacts.has_delete_same in Hk. discriminate.
        -- rewrite JSMapFacts.has_delete_other in Hk by assumption.
           apply Hsub in Hk. rewrite JSMapFacts.has_cons in Hk.
           destruct (String.eqb_spec k' k); [congruence | exact Hk].
      * pose proof (Hinv k Hk) as Hv. apply Hsub in Hk.
        rewrite JSMapFacts.has_cons in Hk.
        destruct (String.eqb_spec k' k) as [->|]; [|exact Hk].
        rewrite Hv in E. discriminate.
    + intros k Hk. apply Hinv. destruct (negb (JSSet.has k' visible)); [|exact Hk].
      destruct (String.eqb_spec k k') as [->|Hne].
      * rewrite JSMapFacts.has_delete_same in Hk. discriminate.
      * rewrite JSMapFacts.has_delete_other in Hk by assumption. exact Hk.
Qed.

End LifecycleFacts.

(** ** Facts about [deleteChat] *)
Module MutatorFacts.
Import ChatStore.

Lemma jsset_has_delete_same x s : JSSet.has x (JSSet.delete x s) = false.
Proof.
  unfold JSSet.has, JSSet.delete. induction s as [|y s IH]; [reflexivity|].
  cbn [filter]. destruct (String.eqb_spec y x) as [->|Hne]; cbn [negb]; [exact IH|].
  cbn [existsb]. rewrite IH.
  destruct (String.eqb_spec x y); [congruence | reflexivity].
Qed.

Lemma jsset_has_delete_absent x y s :
  JSSet.has x s = false -> JSSet.has x (JSSet.delete y s) = false.
Proof.
  unfold JSSet.has, JSSet.delete. induction s as [|z s IH]; [reflexivity|].
  cbn [existsb filter]. intros H. apply orb_false_elim in H. destruct H as [H1 H2].
  destruct (negb (String.eqb z y)); [|apply IH, H2].
  cbn [existsb]. rewrite H1, (IH H2). reflexivity.
Qed.

Lemma get_delete_absent {V} (m : JSMap.t V) x y :
  JSMap.get x m = None -> JSMap.get x (JSMap.delete y m) = None.
Proof.
  intros H. destruct (String.eqb_spec x y) as [->|Hne].
  - apply JSMapFacts.get_delete_same.
  - rewrite JSMapFacts.get_delete_other by assumption. exact H.
Qed.

(** What [purge] leaves alone. *)
Lemma purge_frame h msg :
  decryptedMessagesCache (ChatMutator.purge h msg) = decryptedMessagesCache h /\
  batchDecryptionQueue (ChatMutator.purge h msg) = batchDecryptionQueue h /\
  awaiting (ChatMutator.purge h msg) = awaiting h /\
  mounted (ChatMutator.purge h msg) = mounted h.
Proof.
  unfold ChatMutator.purge.
  cbn [setRetryCounts setDecryptingMessageIds decryptionTimeouts].
  destruct (JSMap.get (Message.id msg) (decryptionTimeouts h));
    repeat split; reflexivity.
Qed.

(** A message that is neither in progress nor in the retry state nor
    timed. *)
Definition forgotten (id : string) (h : Hook) : Prop :=
  JSSet.has id (decryptingMessageIds h) = false /\
  JSMap.get id (retryCounts h) = None /\
  JSMap.get id (decryptionTimeouts h) = None.

Lemma purge_forgets h msg : forgotten (Message.id msg) (ChatMutator.purge h msg).
Proof.
  unfold ChatMutator.purge, forgotten.
  cbn [setRetryCounts setDecryptingMessageIds decryptionTimeouts].
  destruct (JSMap.get (Message.id msg) (decryptionTimeouts h)) as [t|] eqn:E.
  - cbn. repeat split.
    + apply jsset_has_delete_same.
    + apply JSMapFacts.get_delete_same.
    + apply JSMapFacts.get_delete_same.
  - cbn. repeat split.
    + apply jsset_has_delete_same.
    + apply JSMapFacts.get_delete_same.
    + exact E.
Qed.

Lemma purge_keeps_forgotten id h msg :
  forgotten id h -> forgotten id (ChatMutator.purge h msg).
Proof.
  intros (H1 & H2 & H3). unfold ChatMutator.purge, forgotten.
  cbn [setRetryCounts setDecryptingMessageIds decryptionTimeouts].
  destruct (JSMap.get (Message.id msg) (decryptionTimeouts h)) as [t|] eqn:E.
  - cbn. repeat split.
    + apply jsset_has_delete_absent, H1.
    + apply get_delete_absent, H2.
    + apply get_delete_absent, H3.
  - cbn. repeat split.
    + apply jsset_has_delete_absent, H1.
    + apply get_delete_absent, H2.
    + exact H3.
Qed.

Lemma purge_all_frame msgs h :
  decryptedMessagesCache (fold_left ChatMutator.purge msgs h) = decryptedMessagesCache h /\
  batchDecryptionQueue (fold_left ChatMutator.purge msgs h) = batchDecryptionQueue h /\
  awaiting (fold_left ChatMutator.purge msgs h) = awaiting h.
Proof.
  revert h. induction msgs as [|m msgs IH]; intros h; [auto|].
  cbn [fold_left]. destruct (IH (ChatMutator.purge h m)) as (G1 & G2 & G3).
  destruct (purge_frame h m) as (F1 & F2 & F3 & _).
  rewrite G1, G2, G3. auto.
Qed.

Lemma purge_all_keeps_forgotten id msgs h :
  forgotten id h -> forgotten id (fold_left ChatMutator.purge msgs h).
Proof.
  revert h. induction msgs as [|m msgs IH]; intros h H; [exact H|].
  cbn [fold_left]. apply IH, purge_keeps_forgotten, H.
Qed.

Lemma purge_all_forgets msgs msg h :
  In msg msgs -> forgotten (Message.id msg) (fold_left ChatMutator.purge msgs h).
Proof.
  revert h. induction msgs as [|m msgs IH]; intros h Hin; [contradiction|].
  cbn [fold_left]. destruct Hin as [->|Hin].
  - apply purge_all_keeps_forgotten, purge_forgets.
  - apply IH, Hin.
Qed.

End MutatorFacts.

(** ** Facts about the HTTP functions *)
Module CloudFacts.
Import CloudFunctions.

Lemma append_empty_r (s : string) : (s ++ "")%string = s.
Proof. induction s as [|c s IH]; [reflexivity|]. cbn. rewrite IH. reflexivity. Qed.

Lemma append_assoc (a b c : string) : ((a ++ b) ++ c)%string = (a ++ b ++ c)%string.
Proof. induction a as [|x a IH]; [reflexivity|]. cbn. rewrite IH. reflexivity. Qed.

(** A text in which the separator does not occur is one piece. *)
Lemma splitFrom_one_piece (separator s piece : string) :
  includes separator s = false ->
  splitFrom separator 0 piece s = [(piece ++ s)%string].
Proof.
  revert piece. induction s as [|c s IH]; intros piece H.
  - cbn. rewrite append_empty_r. reflexivity.
  - cbn [includes] in H. apply orb_false_elim in H. destruct H as [Hp Hs].
    cbn [splitFrom]. rewrite Hp, (IH _ Hs), append_assoc. reflexivity.
Qed.

Lemma splitFrom_skips (separator piece skipped s : string) :
  splitFrom separator (String.length skipped) piece (skipped ++ s)
  = splitFrom separator 0 piece s.
Proof.
  induction skipped as [|c skipped IH]; [reflexivity|]. cbn. exact IH.
Qed.

Lemma prefix_empty (s : string) : String.prefix "" s = true.
Proof. destruct s; reflexivity. Qed.

Lemma prefix_append (p s : string) : String.prefix p (p ++ s) = true.
Proof.
  induction p as [|c p IH]; [destruct s; reflexivity|].
  cbn. destruct (ascii_dec c c); [exact IH | congruence].
Qed.

Lemma split_bearer (token : string) :
  includes "Bearer " token = false ->
  split "Bearer " ("Bearer " ++ token) = [""; token].
Proof.
  intros H. unfold split.
  pose proof (prefix_append "Bearer " token) as Hp.
  change ("Bearer " ++ token)%string with (String "B" ("earer " ++ token)) in *.
  cbn [splitFrom]. rewrite Hp.
  change (String.length "Bearer " - 1)%nat with (String.length "earer ").
  rewrite splitFrom_skips, (splitFrom_one_piece _ _ _ H). reflexivity.
Qed.

(** *** The last occurrence of "/cryptoKeyVersions/" *)

Lemma prefix_carries_slash (p s : string) :
  String.prefix p s = true -> includes "/" p = true -> includes "/" s = true.
Proof.
  revert s. induction p as [|a p IH]; intros s Hp Hs; [discriminate|].
  destruct s as [|b s]; [discriminate|].
  cbn [String.prefix] in Hp. destruct (ascii_dec a b) as [->|]; [|discriminate].
  cbn [includes] in Hs |- *. apply orb_true_iff in Hs. apply orb_true_iff.
  destruct Hs as [Hs|Hs].
  - left. cbn [String.prefix] in Hs |- *.
    destruct (ascii_dec "/" b); [destruct s; reflexivity | discriminate].
  - right. apply IH; assumption.
Qed.

Lemma no_occurrence_cons (search rest : string) (c : ascii) (i : Z) :
  String.prefix search (String c rest) = false ->
  lastIndexOfFrom search rest (i + 1) = (-1)%Z ->
  lastIndexOfFrom search (String c rest) i = (-1)%Z.
Proof.
  intros Hp Hl. cbn [lastIndexOfFrom]. rewrite Hl, Hp. reflexivity.
Qed.

Lemma no_occurrence_in_version (version : string) (i : Z) :
  slashFree version = true ->
  lastIndexOfFrom "/cryptoKeyVersions/" version i = (-1)%Z.
Proof.
  unfold slashFree. revert i. induction version as [|c version IH]; intros i H.
  - reflexivity.
  - apply negb_true_iff in H. cbn [includes] in H.
    apply orb_false_elim in H. destruct H as [Hc Hv].
    apply no_occurrence_cons.
    + cbn [String.prefix] in Hc |- *.
      destruct (ascii_dec "/" c); [|reflexivity].
      rewrite prefix_empty in Hc. discriminate.
    + apply IH. apply negb_true_iff. exact Hv.
Qed.

Lemma no_occurrence_after_the_slash (version : string) (i : Z) :
  slashFree version = true ->
  lastIndexOfFrom "/cryptoKeyVersions/" ("cryptoKeyVersions/" ++ version) i = (-1)%Z.
Proof.
  intros H.
  assert (String.prefix "/cryptoKeyVersions/" ("/" ++ version) = false) as Hlast.
  { destruct (String.prefix "/cryptoKeyVersions/" ("/" ++ version)) eqn:E;
      [|reflexivity].
    cbn [String.prefix append] in E.
    destruct (ascii_dec "/" "/"); [|discriminate].
    apply prefix_carries_slash in E; [|reflexivity].
    unfold slashFree in H. rewrite E in H. discriminate. }
  change ("cryptoKeyVersions/" ++ version)%string
    with (String "c" (String "r" (String "y" (String "p" (String "t" (String "o"
         (String "K" (String "e" (String "y" (String "V" (String "e" (String "r"
         (String "s" (String "i" (String "o" (String "n" (String "s"
         ("/" ++ version)))))))))))))))))).
  do 17 (apply no_occurrence_cons; [reflexivity|]).
  change ("/" ++ version)%string with (String "/" version) in *.
  apply no_occurrence_cons; [exact Hlast|].
  apply no_occurrence_in_version, H.
Qed.

Lemma lastIndexOf_version (key version : string) (i : Z) :
  (0 <= i)%Z ->
  slashFree version = true ->
  lastIndexOfFrom "/cryptoKeyVersions/" (key ++ "/cryptoKeyVersions/" ++ version) i
  = (i + Z.of_nat (String.length key))%Z.
Proof.
  intros Hi H. revert i Hi. induction key as [|c key IH]; intros i Hi.
  - change ("" ++ "/cryptoKeyVersions/" ++ version)%string
      with (String "/" ("cryptoKeyVersions/" ++ version)).
    pose proof (prefix_append "/cryptoKeyVersions/" version) as Hp.
    change ("/cryptoKeyVersions/" ++ version)%string
      with (String "/" ("cryptoKeyVersions/" ++ version)) in Hp.
    cbn [lastIndexOfFrom].
    rewrite (no_occurrence_after_the_slash version (i + 1) H), Hp.
    cbn. lia.
  - change (String c key ++ "/cryptoKeyVersions/" ++ version)%string
      with (String c (key ++ "/cryptoKeyVersions/" ++ version)).
    cbn [lastIndexOfFrom]. rewrite IH by lia.
    assert ((0 <=? i + 1 + Z.of_nat (String.length key))%Z = true) as ->
        by (apply Z.leb_le; lia).
    cbn [String.length]. lia.
Qed.

Lemma substring_prefix (a b : string) :
  String.substring 0 (String.length a) (a ++ b) = a.
Proof. induction a as [|c a IH]; [destruct b; reflexivity|]. cbn. rewrite IH. reflexivity. Qed.

Lemma cryptoKeyPathOf_version (key version : string) :
  slashFree version = true ->
  cryptoKeyPathOf (key ++ "/cryptoKeyVersions/" ++ version) = key.
Proof.
  intros H. unfold cryptoKeyPathOf, lastIndexOf, substringTo.
  rewrite lastIndexOf_version by (try lia; exact H).
  rewrite Z.add_0_l, Nat2Z.id. apply substring_prefix.
Qed.

Lemma includes_marker (key version : string) :
  includes "/cryptoKeyVersions/" (key ++ "/cryptoKeyVersions/" ++ version) = true.
Proof.
  induction key as [|c key IH].
  - pose proof (prefix_append "/cryptoKeyVersions/" version) as Hp.
    change ("" ++ "/cryptoKeyVersions/" ++ version)%string
      with (String "/" ("cryptoKeyVersions/" ++ version)).
    change ("/cryptoKeyVersions/" ++ version)%string
      with (String "/" ("cryptoKeyVersions/" ++ version)) in Hp.
    cbn [includes]. rewrite Hp. reflexivity.
  - change (String c key ++ "/cryptoKeyVersions/" ++ version)%string
      with (String c (key ++ "/cryptoKeyVersions/" ++ version)).
    cbn [includes]. rewrite IH. apply orb_true_r.
Qed.

Section WithServices.

Context {Buffer : Type}.
Variables (fromUtf8 fromBase64 : string -> Buffer) (toBase64 toUtf8 : Buffer -> string).
Variables (sv : Services Buffer) (env : Env).

(** What the token check lets through. *)
Lemma authenticate_passes rq made :
  authenticate sv env rq = (None, made) ->
  authenticated sv env rq /\ existsb isKmsCall made = false.
Proof.
  unfold authenticate, authenticated.
  destruct (idTokenOf rq) as [t|] eqn:Et.
  - destruct t as [|a t]; cbn [truthy negb andb nonEmpty].
    + destruct (notEmulated env) eqn:En; [discriminate|].
      intros [= <-]. split; [|reflexivity]. right. split; [reflexivity|].
      unfold notEmulated in En. destruct (FUNCTIONS_EMULATOR env) as [v|]; [|discriminate].
      apply negb_false_iff, String.eqb_eq in En. congruence.
    + destruct (verifyIdToken sv (String a t)) eqn:Ev; [discriminate|].
      intros [= <-]. split; [|reflexivity]. left. exists (String a t). auto.
  - cbn [truthy negb andb].
    destruct (notEmulated env) eqn:En; [discriminate|].
    intros [= <-]. split; [|reflexivity]. right. split; [reflexivity|].
    unfold notEmulated in En. destruct (FUNCTIONS_EMULATOR env) as [v|]; [|discriminate].
    apply negb_false_iff, String.eqb_eq in En. congruence.
Qed.

(** A refusal of the token check answers 401 and makes no KMS call. *)
Lemma authenticate_refuses rq refusal made :
  authenticate sv env rq = (Some refusal, made) ->
  status refusal = 401%Z /\ headers refusal = corsHeaders rq /\
  existsb isKmsCall made = false.
Proof.
  unfold authenticate.
  destruct (negb (truthy (idTokenOf rq)) && notEmulated env).
  - intros [= <- <-]. auto.
  - destruct (idTokenOf rq) as [t|]; [|discriminate].
    destruct (nonEmpty t); [|discriminate].
    destruct (verifyIdToken sv t); [|discriminate].
    intros [= <- <-]. auto.
Qed.

Lemma status_encryptFailed rq error :
  status (encryptFailed rq error) = 200%Z ->
  httpErrorCode error = Some 200%Z.
Proof.
  unfold encryptFailed.
  destruct (instanceofHttpsError error || _).
  - cbn. destruct (httpErrorCode error) as [st|]; [congruence | discriminate].
  - destruct (truthyCode (code error)); discriminate.
Qed.

Lemma headers_encryptFailed rq error :
  headers (encryptFailed rq error) = corsHeaders rq.
Proof.
  unfold encryptFailed.
  destruct (instanceofHttpsError error || _); [reflexivity|].
  destruct (truthyCode (code error)); reflexivity.
Qed.

Lemma headers_decryptFailed rq name error :
  headers (decryptFailed rq name error) = corsHeaders rq /\
  status (decryptFailed rq name error) <> 200%Z.
Proof.
  unfold decryptFailed.
  destruct (code error) as [|n|s]; try (split; [reflexivity | discriminate]).
  destruct n as [|p|p]; try (split; [reflexivity | discriminate]).
  destruct p as [[p|p|]|p|]; split; try reflexivity; discriminate.
Qed.

End WithServices.

Lemma get_allow_origin rq :
  JSMap.get "Access-Control-Allow-Origin" (corsHeaders rq) =
  if isAllowed (origin rq) then origin rq else None.
Proof.
  unfold corsHeaders. rewrite JSMapFacts.get_set_other by discriminate.
  destruct (origin rq) as [o|]; [|reflexivity].
  destruct (isAllowed (Some o)); [|reflexivity].
  apply JSMapFacts.get_set_same.
Qed.

Lemma get_allow_origin_preflight rq :
  JSMap.get "Access-Control-Allow-Origin" (headers (preflight rq)) =
  if isAllowed (origin rq) then origin rq else None.
Proof.
  unfold preflight. cbn [headers].
  rewrite !JSMapFacts.get_set_other by discriminate. apply get_allow_origin.
Qed.

End CloudFacts.

(** ** Facts about [encryptChatMessageAPI] *)
Module ApiCryptoFacts.
Import ApiCrypto.

Section WithPlatform.
Variable stringify : list (string * string) -> string.
Variable json : Api.Response -> JsError + JSMap.t string.
Variable statusText : Api.Response -> string.

Lemma readEncryptResponse_complete response result :
  readEncryptResponse json statusText response = inr result ->
  Api.ok response = true /\ json response = inr result /\
  truthy (JSMap.get "ciphertext" result) = true /\
  truthy (JSMap.get "kmsKeyVersionName" result) = true.
Proof.
  unfold readEncryptResponse. destruct (Api.ok response); cbn [negb].
  - destruct (json response) as [e|r]; [discriminate|].
    destruct (truthy (JSMap.get "ciphertext" r)) eqn:Ec; cbn [negb orb];
      [|discriminate].
    destruct (truthy (JSMap.get "kmsKeyVersionName" r)) eqn:Ek; cbn [negb];
      [|discriminate].
    intros [= <-]. repeat split; assumption.
  - destruct (Api.status response =? 413)%Z; discriminate.
Qed.

End WithPlatform.
End ApiCryptoFacts.

(** ** Facts about the message handlers of [App.jsx] *)
Module AppSendFacts.
Import AppSend.

Lemma eqb_empty (x : string) : String.eqb x "" = negb (nonEmpty x).
Proof. destruct x; reflexivity. Qed.

(** The test for a blank text (line 79). *)
Lemma blank_test (text : string) :
  negb (nonEmpty text) || String.eqb (ChatMutator.trim text) ""
  = negb (nonEmpty (ChatMutator.trim text)).
Proof.
  rewrite eqb_empty. destruct text as [|c rest]; [reflexivity|].
  reflexivity.
Qed.


(** The text of the apology is not blank. *)
Lemma apology_not_blank (m : string) :
  nonEmpty (ChatMutator.trim ("Lo siento, encontré un error: " ++ m)) = true.
Proof.
  unfold ChatMutator.trim.
  change (ChatMutator.trimStart ("Lo siento, encontré un error: " ++ m))
    with ("Lo siento, encontré un error: " ++ m)%string.
  change ("Lo siento, encontré un error: " ++ m)%string
    with (String "L" ("o siento, encontré un error: " ++ m)%string).
  cbn [ChatMutator.trimEnd].
  destruct (ChatMutator.trimEnd _); reflexivity.
Qed.

Lemma exists_appendMessage ref chat m db :
  Firestore.exists_ ref (Firestore.appendMessage chat m db)
  = Firestore.exists_ ref db.
Proof.
  unfold Firestore.exists_, Firestore.appendMessage.
  induction db as [|d db IH]; [reflexivity|].
  cbn [map existsb]. rewrite IH. f_equal.
  destruct (String.eqb (Firestore.docId d) chat); reflexivity.
Qed.

(** [addMessageToChat] when the service encrypts the text and the store
    takes the write. *)
Lemma addMessageToChat_stores uid chat text sender mw st c k :
  nonEmpty uid = true -> nonEmpty chat = true ->
  nonEmpty (ChatMutator.trim text) = true -> nonEmpty sender = true ->
  ChatMutator.encryptChatMessageAPI mw (ChatMutator.trim text) = inr (c, k) ->
  ChatMutator.updateDocFails mw = None ->
  Firestore.exists_ chat (ChatMutator.db st) = true ->
  ChatMutator.addMessageToChat (Some uid) chat text sender mw st =
  (inr tt,
   ChatMutator.mkState
     (Firestore.appendMessage chat
        (Firestore.mkStored (ChatMutator.uuidv4 mw) c k sender
                            (ChatMutator.timestampNow mw))
        (ChatMutator.db st))
     None).
Proof.
  intros Hu Hc Ht Hs He Hup Hex. unfold ChatMutator.addMessageToChat.
  assert (truthy (Some uid) = true) as -> by (destruct uid; [discriminate|reflexivity]).
  rewrite Hc, Ht, Hs, He. cbn [negb orb].
  unfold ChatMutator.updateDoc. rewrite Hup.
  cbn [ChatMutator.setError ChatMutator.db]. rewrite Hex. reflexivity.
Qed.

End AppSendFacts.

(* ================================================================== *)
(** * Part III. The properties of the specification *)
(* ================================================================== *)

(** ** Bounded result cache *)

(** C2.  Starting from an empty cache of capacity [capacity >= 1], after any
    sequence of calls: the size is at most the capacity; a [set] below
    capacity evicts nothing; a [set] at capacity removes exactly one entry,
    the one whose last touch (its creation, or the last [get] that returned
    it) is older than that of every other entry; a [get] of a present key
    makes that key the most recently touched one.  With capacity 3 and the
    calls set A, set B, set C, get A, set D the cache holds C, A, D in that
    order of recency, and B is gone. *)
Theorem lru_cache_bounded_and_evicts_least_recently_touched
  (capacity : Z) (ops : list LRUCache.op) :
  (1 <= capacity)%Z ->
  let c := LRUCache.run ops (LRUCache.new capacity) in
  let g := snd (LRUCache.runClock ops (LRUCache.new capacity) LRUCache.clock0) in
  (LRUCache.size c <= capacity)%Z /\
  (forall key value,
      LRUCache.peek key (LRUCache.set key value c) = Some value /\
      match LRUCache.evicted c with
      | Some e =>
          LRUCache.size c = capacity /\
          LRUCache.has e c = true /\
          (key <> e -> LRUCache.has e (LRUCache.set key value c) = false) /\
          (forall k, LRUCache.has k c = true -> k <> e ->
                     (LRUCache.lastTouch g e < LRUCache.lastTouch g k)%nat /\
                     LRUCache.has k (LRUCache.set key value c) = true)
      | None =>
          (LRUCache.size c < capacity)%Z /\
          (forall k, LRUCache.has k c = true ->
                     LRUCache.has k (LRUCache.set key value c) = true)
      end) /\
  (forall key,
      LRUCache.has key c = true ->
      let c' := LRUCache.step (LRUCache.OpGet key) c in
      let g' := LRUCache.stepClock (LRUCache.OpGet key) c g in
      forall k, LRUCache.has k c' = true -> k <> key ->
                (LRUCache.lastTouch g' k < LRUCache.lastTouch g' key)%nat) /\
  LRUCache.keys (LRUCache.run abcTouchD (LRUCache.new 3)) = ["C"; "A"; "D"] /\
  LRUCache.has "B" (LRUCache.run abcTouchD (LRUCache.new 3)) = false.
Proof.
  intros Hcap c g.
  assert (LRUCache.maxSize c = capacity) as Hmax
      by (unfold c; rewrite LRUFacts.maxSize_run; reflexivity).
  assert (LRUCache.size c <= capacity)%Z as Hsz.
  { rewrite <- Hmax. unfold c. rewrite LRUFacts.maxSize_run.
    apply LRUFacts.size_run; simpl; [exact Hcap|].
    unfold LRUCache.size, JSMap.size; simpl. lia. }
  assert (LRUFacts.ordered c g) as [Hsorted Hbelow]
      by (apply LRUFacts.ordered_run, LRUFacts.ordered_new).
  clearbody c g.
  split; [exact Hsz|]. split; [|split; [|split; reflexivity]].
  - (* set *)
    intros key value. split.
    { unfold LRUCache.peek, LRUCache.set; simpl. apply JSMapFacts.get_set_same. }
    assert (forall k, k <> key ->
              LRUCache.has k (LRUCache.set key value c) =
              JSMap.has k (LRUCache.evict c)) as Hother.
    { intros k Hk. unfold LRUCache.has, LRUCache.set; simpl.
      apply JSMapFacts.has_set_other, Hk. }
    assert (forall k, LRUCache.has k (LRUCache.set key value c) = true \/
                      k <> key) as Hcase.
    { intros k. destruct (String.eqb_spec k key) as [->|Hne]; [left|right; auto].
      unfold LRUCache.has, LRUCache.set; simpl. apply JSMapFacts.has_set_same. }
    pose proof (LRUFacts.evicted_first c) as Hfirst.
    unfold LRUCache.evict in Hother. unfold LRUCache.evicted in *.
    unfold LRUCache.size in *. rewrite Hmax in *.
    destruct (Z.geb_spec (JSMap.size (LRUCache.cache c)) capacity) as [Hge|Hlt].
    + destruct (JSMap.firstKey (LRUCache.cache c)) as [e|] eqn:Ef.
      * destruct (Hfirst e eq_refl) as [rest Hkeys].
        rewrite Hkeys in Hsorted. apply StronglySorted_inv in Hsorted.
        destruct Hsorted as [_ Hhd]. rewrite Forall_forall in Hhd.
        split; [lia|]. split; [|split].
        -- apply JSMapFacts.has_in. fold (LRUCache.keys c). rewrite Hkeys.
           left; reflexivity.
        -- intros Hne. rewrite Hother by congruence.
           apply JSMapFacts.has_delete_same.
        -- intros k Hk Hne. split.
           ++ apply Hhd. apply JSMapFacts.has_in in Hk.
              fold (LRUCache.keys c) in Hk. rewrite Hkeys in Hk.
              destruct Hk; congruence.
           ++ destruct (Hcase k) as [|Hkk]; [assumption|].
              rewrite Hother by assumption.
              rewrite JSMapFacts.has_delete_other by assumption. exact Hk.
      * exfalso. destruct (LRUCache.cache c) as [|[k0 v0] m];
          [|discriminate Ef].
        unfold JSMap.size in Hge; simpl in Hge. lia.
    + split; [lia|]. intros k Hk.
      destruct (Hcase k) as [|Hkk]; [assumption|].
      rewrite Hother by assumption. exact Hk.
  - (* get *)
    intros key Hkey c' g' k Hk Hne. unfold c', g' in *. simpl in *.
    rewrite Hkey. simpl. rewrite String.eqb_refl.
    destruct (String.eqb_spec k key) as [|_]; [contradiction|].
    rewrite Forall_forall in Hbelow. apply Hbelow.
    apply JSMapFacts.has_in. unfold LRUCache.has, LRUCache.get in Hk.
    destruct (JSMap.get key (LRUCache.cache c)); simpl in Hk; [|exact Hk].
    rewrite JSMapFacts.has_set_other, JSMapFacts.has_delete_other in Hk
      by assumption.
    exact Hk.
Qed.

Lemma lru_cache_capacity_three_run :
  (1 <= 3)%Z /\
  (LRUCache.size (LRUCache.run abcTouchD (LRUCache.new 3)) <= 3)%Z.
Proof.
  split; [lia|].
  exact (proj1 (lru_cache_bounded_and_evicts_least_recently_touched
                  3 abcTouchD ltac:(lia))).
Defined.

(** The bound needs a positive capacity: a cache built with capacity 0
    still stores the entry it is given. *)
Lemma lru_cache_capacity_zero_overflows :
  LRUCache.size (LRUCache.set "A" "a" (LRUCache.new 0)) = 1%Z.
Proof. reflexivity. Qed.

(** C10 as stated fails when the overwritten key is itself the least
    recently used entry of a full cache: capacity 2 holding A then B;
    [set A] deletes A in the capacity check and inserts it again behind B. *)
Lemma lru_set_present_oldest_key_is_refreshed :
  let c := LRUCache.run [LRUCache.OpSet "A" "1"; LRUCache.OpSet "B" "2"]
                        (LRUCache.new 2) in
  LRUCache.has "A" c = true /\
  LRUCache.keys c = ["A"; "B"] /\
  LRUCache.keys (LRUCache.set "A" "3" c) = ["B"; "A"] /\
  ~ keepsRecencyOrder c (LRUCache.set "A" "3" c).
Proof.
  repeat split. unfold keepsRecencyOrder. simpl. discriminate.
Qed.

(** C10, amended.  In a cache that holds one entry per key (as every cache
    reached from an empty one does, [LRUFacts.wf_run]), [set] on a present
    key stores the new value.  Below
    capacity nothing is evicted and the key keeps its position.  At capacity
    the first (least recently used) entry is evicted although the key is
    present: if it is another key, that unrelated entry is lost, the size
    drops by one and the key keeps its relative position; if it is the key
    itself, the key is inserted again as the most recent entry. *)
Theorem lru_set_on_present_key (c : LRUCache.t) (key value : string) :
  JSMap.wf (LRUCache.cache c) ->
  LRUCache.has key c = true ->
  LRUCache.peek key (LRUCache.set key value c) = Some value /\
  match LRUCache.evicted c with
  | None =>
      LRUCache.keys (LRUCache.set key value c) = LRUCache.keys c
  | Some e =>
      if String.eqb e key
      then LRUCache.keys (LRUCache.set key value c) =
           tl (LRUCache.keys c) ++ [key]
      else LRUCache.keys (LRUCache.set key value c) = tl (LRUCache.keys c) /\
           LRUCache.has e (LRUCache.set key value c) = false /\
           LRUCache.size (LRUCache.set key value c) = (LRUCache.size c - 1)%Z /\
           keepsRecencyOrder c (LRUCache.set key value c)
  end.
Proof.
  intros Hwf Hkey. split.
  { unfold LRUCache.peek, LRUCache.set; simpl. apply JSMapFacts.get_set_same. }
  pose proof (LRUFacts.keys_evict c) as Hev.
  pose proof (LRUFacts.evicted_first c) as Hfirst.
  unfold LRUCache.keys, LRUCache.set in *. simpl.
  rewrite JSMapFacts.keys_set.
  destruct (LRUCache.evicted c) as [e|] eqn:Ee.
  - destruct (Hfirst e eq_refl) as [rest Hkeys].
    unfold JSMap.wf in Hwf. rewrite Hkeys in *. simpl in Hev.
    rewrite String.eqb_refl in Hev. simpl in Hev.
    apply NoDup_cons_iff in Hwf. destruct Hwf as [Hnin Hnd].
    assert (filter (fun x => negb (String.eqb x e)) rest = rest) as Hrest.
    { apply forallb_filter_id. apply forallb_forall. intros x Hx.
      destruct (String.eqb_spec x e); [subst; contradiction | reflexivity]. }
    rewrite Hrest in Hev.
    assert (JSMap.has key (LRUCache.evict c) = negb (String.eqb e key)) as Hhas.
    { destruct (String.eqb_spec e key) as [->|Hne]; simpl.
      - destruct (JSMap.has key (LRUCache.evict c)) eqn:E; [|reflexivity].
        apply JSMapFacts.has_in in E. rewrite Hev in E. contradiction.
      - apply JSMapFacts.has_in. rewrite Hev.
        apply JSMapFacts.has_in in Hkey. rewrite Hkeys in Hkey.
        destruct Hkey; [congruence | assumption]. }
    rewrite Hhas, Hev. simpl.
    destruct (String.eqb_spec e key) as [->|Hne]; simpl; [reflexivity|].
    split; [reflexivity|].
    assert (LRUCache.has e (LRUCache.mk (LRUCache.maxSize c)
              (JSMap.set key value (LRUCache.evict c))) = false) as Hgone.
    { unfold LRUCache.has; simpl.
      rewrite JSMapFacts.has_set_other by assumption.
      destruct (JSMap.has e (LRUCache.evict c)) eqn:E; [|reflexivity].
      apply JSMapFacts.has_in in E. rewrite Hev in E. contradiction. }
    split; [exact Hgone|]. split.
    + unfold LRUCache.size, JSMap.size; simpl.
      rewrite JSMapFacts.length_set, Hhas. simpl.
      rewrite <- (length_map fst (LRUCache.evict c)).
      rewrite <- (length_map fst (LRUCache.cache c)).
      fold (JSMap.keys (LRUCache.evict c)). fold (JSMap.keys (LRUCache.cache c)).
      rewrite Hev, Hkeys. cbn [List.length]. lia.
    + unfold keepsRecencyOrder, LRUCache.keys. simpl.
      rewrite JSMapFacts.keys_set, Hhas, Hev, Hkeys. simpl. rewrite Hgone.
      symmetry. apply forallb_filter_id. apply forallb_forall. intros x Hx.
      unfold LRUCache.has; simpl. apply JSMapFacts.has_in.
      rewrite JSMapFacts.keys_set, Hhas, Hev. exact Hx.
  - rewrite Hev. unfold LRUCache.has in Hkey.
    assert (JSMap.has key (LRUCache.evict c) = true) as ->; [|reflexivity].
    apply JSMapFacts.has_in. rewrite Hev. apply JSMapFacts.has_in, Hkey.
Qed.

Lemma lru_set_on_present_key_full_cache :
  let c := LRUCache.run [LRUCache.OpSet "A" "1"; LRUCache.OpSet "B" "2"]
                        (LRUCache.new 2) in
  LRUCache.peek "B" (LRUCache.set "B" "3" c) = Some "3" /\
  LRUCache.keys (LRUCache.set "B" "3" c) = ["B"] /\
  LRUCache.has "A" (LRUCache.set "B" "3" c) = false.
Proof.
  intro c.
  pose proof (lru_set_on_present_key c "B" "3") as H.
  assert (JSMap.wf (LRUCache.cache c)) as Hwf.
  { unfold c, JSMap.wf; simpl. repeat constructor; simpl; intuition discriminate. }
  specialize (H Hwf eq_refl). simpl in H.
  destruct H as [Hv [Hk [Hg _]]]. repeat split; assumption.
Defined.

(** ** Authenticated requests *)

(** C8 as stated fails: after a second consecutive authentication failure
    the request is sent a third time; two retries are made, not one. *)
Lemma second_auth_failure_is_retried_again :
  let out := Api.makeAuthenticatedRequest unauthorizedWorld
               "https://gateway/encrypt" "{}" 0 false freshApiState in
  map Api.bearer (Api.fetched (snd out)) = ["stale"; "renewed"; "renewed"] /\
  fst out = inr (Api.mkResponse 401 "").
Proof. split; reflexivity. Qed.

(** C8, amended.  A call makes at most three requests.  When every request
    is answered with an authentication failure (401 or 403), and nothing is
    served from the response cache, the call makes exactly three: the
    original one and [maxRetries = 2] retries, each retry
    carrying a token obtained from the identity provider after the failure;
    the third failure is handed to the caller as the response.  When no
    credential is available (no cached token, nobody signed in) the call
    makes no request and no retry and throws "Authentication required". *)
Theorem auth_failure_is_retried_twice_then_surfaced
  (w : Api.World) (url payload : string) (useCache : bool) (s : Api.State) :
  let out := Api.makeAuthenticatedRequest w url payload 0 useCache s in
  (exists rqs, Api.fetched (snd out) = Api.fetched s ++ rqs /\
               (List.length rqs <= 1 + Api.maxRetries)%nat) /\
  (Api.cacheMiss useCache url payload s ->
   Api.alwaysAuthFailure w -> Api.alwaysSignedIn w ->
   exists rq1 rq2 rq3 r3,
     Api.fetched (snd out) = Api.fetched s ++ [rq1; rq2; rq3] /\
     Api.identity w (Api.identityAsked (snd out) - 2) = Api.SignedIn (Api.bearer rq2) /\
     Api.identity w (Api.identityAsked (snd out) - 1) = Api.SignedIn (Api.bearer rq3) /\
     fst out = inr r3 /\
     Api.network w (List.length (Api.fetched s) + 2) = Api.Responds r3 /\
     Api.isAuthFailure r3 = true) /\
  (Api.cacheMiss useCache url payload s ->
   Api.token s = None -> Api.identity w (Api.identityAsked s) = Api.SignedOut ->
   fst out = inl (newError "Authentication required. Please sign in.") /\
   Api.fetched (snd out) = Api.fetched s).
Proof.
  intros out. split; [|split].
  - apply (ApiFacts.fetches_bounded w url payload useCache 2 0 s).
    unfold Api.maxRetries. lia.
  - intros Hmiss Hnet Hid. apply ApiFacts.auth_failure_retried; assumption.
  - intros Hmiss Htok Hid. apply ApiFacts.signed_out_surfaces; assumption.
Qed.

Lemma auth_failure_in_unauthorized_world :
  Api.cacheMiss false "https://gateway/encrypt" "{}" freshApiState /\
  exists rq1 rq2 rq3 r3,
    Api.fetched (snd (Api.makeAuthenticatedRequest unauthorizedWorld
                        "https://gateway/encrypt" "{}" 0 false freshApiState))
    = Api.fetched freshApiState ++ [rq1; rq2; rq3] /\
    Api.bearer rq2 = "renewed" /\ Api.bearer rq3 = "renewed" /\
    Api.isAuthFailure r3 = true.
Proof.
  assert (Api.cacheMiss false "https://gateway/encrypt" "{}" freshApiState) as Hmiss
      by (intros H; discriminate H).
  split; [exact Hmiss|].
  destruct (proj1 (proj2 (auth_failure_is_retried_twice_then_surfaced
                            unauthorizedWorld "https://gateway/encrypt" "{}"
                            false freshApiState)) Hmiss)
    as (rq1 & rq2 & rq3 & r3 & Hf & H2 & H3 & _ & _ & Ha).
  - intros n. reflexivity.
  - intros n. simpl. destruct (Nat.eqb n 0); reflexivity.
  - exists rq1, rq2, rq3, r3. split; [exact Hf|].
    vm_compute in H2, H3.
    split; [|split]; [| | exact Ha].
    + change (Api.bearer rq2) with
        (let (_, b, _) := rq2 in b). injection H2 as H2. symmetry. exact H2.
    + change (Api.bearer rq3) with
        (let (_, b, _) := rq3 in b). injection H3 as H3. symmetry. exact H3.
Defined.

(** ** Retry controller *)






(** ** Decryption batcher *)

(** C5 does not hold of the code.  [decryptMessageIfNeeded] called twice
    for the same message before the debounce timer fires queues it twice
    (nothing looks into the queue, and the batch path never adds to
    [decryptingMessageIds]), and the batch makes two decrypt calls for it.
    The same happens when the second call comes while the first batch is in
    flight. *)
Lemma double_enqueue_makes_two_decrypt_calls :
  after [ChatStore.Ask msg1 []; ChatStore.Ask msg1 []] ChatStore.initial
    (fun h => ChatStore.batchDecryptionQueue h = [msg1; msg1]) /\
  after [ChatStore.Ask msg1 []; ChatStore.Ask msg1 []; ChatStore.Fire 2]
    ChatStore.initial
    (fun h => ChatStore.decryptCalls (ChatStore.trace h) =
              [("cipher-1", "key-v1"); ("cipher-1", "key-v1")]) /\
  after [ChatStore.Ask msg1 []; ChatStore.Fire 1] ChatStore.initial
    (fun inFlight =>
       ChatStore.awaiting inFlight = [(2%nat, ChatStore.AwaitBatch [msg1] [])] /\
       after [ChatStore.Ask msg1 []; ChatStore.Fire 3] inFlight
         (fun h => ChatStore.decryptCalls (ChatStore.trace h) =
                   [("cipher-1", "key-v1"); ("cipher-1", "key-v1")])).
Proof.
  vm_compute. repeat split; reflexivity.
Qed.

(** C6 does not hold of the code.  A batch of one message whose decrypt
    call is rejected (a network error): [batchDecryptMessages] turns the
    rejection into the result "[Error: Failed to decrypt]", which
    [processBatchDecryption] caches like a plaintext.  One call was made, no
    retry is scheduled, there is no retry state, and a later
    [decryptMessageIfNeeded] for the message does nothing. *)
Lemma failed_batch_item_is_cached_without_retry :
  after
    [ChatStore.Ask msg1 []; ChatStore.Fire 1;
     ChatStore.SettleBatch 2
       (fun _ => Rejected (newError "Network error. Please check your internet connection."))]
    ChatStore.initial
    (fun h =>
       LRUCache.peek "m1" (ChatStore.decryptedMessagesCache h) =
         Some "[Error: Failed to decrypt]" /\
       ChatStore.decryptCalls (ChatStore.trace h) = [("cipher-1", "key-v1")] /\
       ChatStore.timers h = [] /\ ChatStore.awaiting h = [] /\
       ChatStore.retryCounts h = JSMap.empty /\
       ChatStore.react (ChatStore.Ask msg1 []) h = Some h).
Proof.
  vm_compute. repeat split; reflexivity.
Qed.

(** ** Chat mutator *)




(** C7 as stated fails: when the store refuses the append of the first
    message, [createNewChat] throws, and the chat document it has created
    stays in the store, visible to its owner with an empty message list. *)
Lemma failed_createNewChat_leaves_empty_chat :
  let out := ChatMutator.createNewChat (Some "u1") "Hello" updateRefusedWorld emptyStore in
  fst out = inl (newError "Failed to create chat. The service is unavailable") /\
  Firestore.visibleTo "u1" (ChatMutator.db (snd out)) =
    [Firestore.mkDoc "chat-1" "u1" "Hello" 1600 []].
Proof. split; reflexivity. Qed.

(** C7, amended.  The three mutators succeed only if no collaborator
    failed, so a failing encrypt call or store operation always ends in an
    error.  On an error [addMessageToChat] and [deleteChat] leave the store
    as it was, and so does [createNewChat] unless the failure is that of
    the append of the first message: then the chat document created just
    before stays in the store with an empty message list.  [deleteChat] has
    by then purged the retry state and timeout timers of the chat's
    messages, whether or not the deletion succeeds. *)
Theorem mutators_abort_on_failure
  (userId : option string) (chats : list ChatMutator.Chat)
  (chatId text sender : string) (w : ChatMutator.World)
  (h : ChatStore.Hook) (s : ChatMutator.State) :
  (let out := ChatMutator.createNewChat userId text w s in
   match fst out with
   | inr _ =>
       (exists c k, ChatMutator.encryptChatMessageAPI w (ChatMutator.trim text) = inr (c, k)) /\
       ChatMutator.addDocFails w = None /\ ChatMutator.updateDocFails w = None
   | inl _ =>
       ChatMutator.db (snd out) = ChatMutator.db s \/
       (exists uid c k,
           userId = Some uid /\
           ChatMutator.encryptChatMessageAPI w (ChatMutator.trim text) = inr (c, k) /\
           ChatMutator.addDocFails w = None /\
           ChatMutator.updateDocFails w <> None /\
           ChatMutator.db (snd out) =
             ChatMutator.db s ++
             [Firestore.mkDoc (ChatMutator.newDocId w) uid (ChatMutator.titleOf text)
                              (ChatMutator.serverTimestamp w) []])
   end) /\
  (let out := ChatMutator.addMessageToChat userId chatId text sender w s in
   match fst out with
   | inr _ =>
       (exists c k, ChatMutator.encryptChatMessageAPI w (ChatMutator.trim text) = inr (c, k)) /\
       ChatMutator.updateDocFails w = None
   | inl _ => ChatMutator.db (snd out) = ChatMutator.db s
   end) /\
  (let out := ChatMutator.deleteChat userId chats chatId w h s in
   match fst (fst out) with
   | inr _ => ChatMutator.deleteDocFails w = None
   | inl _ => ChatMutator.db (snd out) = ChatMutator.db s
   end /\
   (truthy userId = true ->
    snd (fst out) =
    fold_left ChatMutator.purge
      match find (fun chat => String.eqb (ChatMutator.chatId chat) chatId) chats with
      | Some chat => ChatMutator.chatMessages chat
      | None => []
      end h)).
Proof.
  split; [|split].
  - unfold ChatMutator.createNewChat.
    destruct userId as [uid|]; [|left; reflexivity].
    destruct (truthy (Some uid)); cbn [negb]; [|left; reflexivity].
    destruct (nonEmpty (ChatMutator.trim text)); cbn [negb]; [|left; reflexivity].
    destruct (ChatMutator.encryptChatMessageAPI w (ChatMutator.trim text))
      as [err|[c k]]; [left; reflexivity|].
    unfold ChatMutator.addDoc.
    destruct (ChatMutator.addDocFails w) as [err|]; [left; reflexivity|].
    unfold ChatMutator.updateDoc.
    destruct (ChatMutator.updateDocFails w) as [err|] eqn:Eu.
    + right. exists uid, c, k. cbn. repeat split; try reflexivity. discriminate.
    + cbn [ChatMutator.db ChatMutator.setDb ChatMutator.setError].
      match goal with |- context [Firestore.exists_ ?r ?d] =>
        assert (Firestore.exists_ r d = true) as -> end.
      { unfold Firestore.exists_. rewrite existsb_app. simpl.
        rewrite String.eqb_refl. apply orb_true_r. }
      cbn. split; [eauto | split; reflexivity].
  - unfold ChatMutator.addMessageToChat.
    destruct (negb (truthy userId) || negb (nonEmpty chatId)); [reflexivity|].
    destruct (negb (nonEmpty (ChatMutator.trim text)) || negb (nonEmpty sender));
      [reflexivity|].
    destruct (ChatMutator.encryptChatMessageAPI w (ChatMutator.trim text))
      as [err|[c k]]; [reflexivity|].
    unfold ChatMutator.updateDoc.
    destruct (ChatMutator.updateDocFails w) as [err|]; [reflexivity|].
    cbn [ChatMutator.db ChatMutator.setError].
    destruct (Firestore.exists_ chatId (ChatMutator.db s)); cbn; [|reflexivity].
    split; [eauto | reflexivity].
  - unfold ChatMutator.deleteChat.
    destruct (truthy userId); cbn [negb].
    + unfold ChatMutator.deleteDoc.
      destruct (ChatMutator.deleteDocFails w) as [err|]; cbn; auto.
    + cbn. split; [reflexivity | discriminate].
Qed.

Lemma failed_append_in_createNewChat :
  ChatMutator.updateDocFails updateRefusedWorld <> None /\
  ChatMutator.db (snd (ChatMutator.createNewChat (Some "u1") "Hello"
                         updateRefusedWorld emptyStore)) =
    [Firestore.mkDoc "chat-1" "u1" "Hello" 1600 []].
Proof.
  split; [discriminate|].
  pose proof (proj1 (mutators_abort_on_failure (Some "u1") [] "chat-1" "Hello"
                       "user" updateRefusedWorld ChatStore.initial emptyStore)) as H.
  cbv zeta in H.
  change (fst (ChatMutator.createNewChat (Some "u1") "Hello" updateRefusedWorld emptyStore))
    with (@inl JsError string (newError "Failed to create chat. The service is unavailable")) in H.
  destruct H as [H | (uid & c & k & Hu & _ & _ & _ & Hdb)].
  - vm_compute in H. discriminate H.
  - injection Hu as <-. exact Hdb.
Defined.

(** ** Pagination *)

(** C9.  A call of [loadMoreChats] for a signed-in user, with a cursor and
    no load in progress, against a store that honours the limit of a query:
    while [hasMore] holds it issues exactly one query, for the user's
    chats after the last document seen, limited to 10; the chats of the page
    are appended to the list; [hasMore] becomes false exactly when the page
    has fewer than 10 documents (an empty page included) and the cursor
    moves to the last document of a non-empty page; when the query fails
    the list and [hasMore] are unchanged.  Once [hasMore] is false, any
    number of further calls leave the view as it is and issue no query. *)
Theorem loadMoreChats_appends_page_until_exhausted
  (getDocs : ChatSync.Query -> JsError + list Firestore.ChatDoc)
  (toChat : Firestore.ChatDoc -> ChatMutator.Chat)
  (uid : string) (cursor : Firestore.ChatDoc) (v : ChatSync.View) :
  ChatSync.honoursLimit getDocs ->
  nonEmpty uid = true ->
  ChatSync.loadingMore v = false ->
  ChatSync.lastVisibleChat v = Some cursor ->
  let v' := ChatSync.loadMoreChats getDocs toChat (Some uid) v in
  let q := ChatSync.mkQuery uid cursor 10 in
  (ChatSync.hasMore v = true ->
   ChatSync.queries v' = ChatSync.queries v ++ [q] /\
   match getDocs q with
   | inr docs =>
       ChatSync.chats v' = ChatSync.chats v ++ map toChat docs /\
       (ChatSync.hasMore v' = false <-> (List.length docs < 10)%nat) /\
       ChatSync.lastVisibleChat v' = Some (last docs cursor)
   | inl _ =>
       ChatSync.chats v' = ChatSync.chats v /\
       ChatSync.hasMore v' = true /\
       ChatSync.lastVisibleChat v' = Some cursor
   end) /\
  (ChatSync.hasMore v = false -> v' = v) /\
  (ChatSync.hasMore v' = false ->
   forall n, Nat.iter n (ChatSync.loadMoreChats getDocs toChat (Some uid)) v' = v').
Proof.
  intros Hlimit Huid Hloading Hcursor v' q.
  assert (forall u x, ChatSync.hasMore x = false ->
                      ChatSync.loadMoreChats getDocs toChat u x = x) as Hnoop.
  { intros u x Hx. unfold ChatSync.loadMoreChats.
    destruct u as [u|]; [|reflexivity].
    destruct (ChatSync.lastVisibleChat x); [|reflexivity].
    rewrite Hx. cbn [negb]. rewrite !orb_true_r. reflexivity. }
  split; [|split].
  - intros Hmore. subst v'. unfold ChatSync.loadMoreChats.
    assert (truthy (Some uid) = true) as Htr by (destruct uid; [discriminate | reflexivity]).
    rewrite Hcursor, Htr, Hloading, Hmore. cbn [negb orb].
    change ChatStore.CHAT_PAGE_SIZE with 10%nat. fold q.
    pose proof (Hlimit q) as Hq.
    destruct (getDocs q) as [err|docs].
    + cbn. auto.
    + specialize (Hq docs eq_refl). cbn in Hq.
      destruct docs as [|d docs].
      * cbn. rewrite app_nil_r.
        repeat split; auto. intros _. lia.
      * cbn [ChatSync.queries ChatSync.chats ChatSync.hasMore
             ChatSync.lastVisibleChat].
        repeat split.
        -- intros H. apply Nat.eqb_neq in H. lia.
        -- intros H. apply Nat.eqb_neq. lia.
        -- apply last_map_some.
  - intros Hmore. apply Hnoop, Hmore.
  - intros Hdone n. induction n as [|n IH]; [reflexivity|].
    change (ChatSync.loadMoreChats getDocs toChat (Some uid)
              (Nat.iter n (ChatSync.loadMoreChats getDocs toChat (Some uid)) v') = v').
    rewrite IH. apply Hnoop, Hdone.
Qed.

Lemma loadMoreChats_last_page :
  ChatSync.honoursLimit lastPage /\
  ChatSync.hasMore (ChatSync.loadMoreChats lastPage plainChat (Some "u1") twentyLoaded)
    = false /\
  ChatSync.chats (ChatSync.loadMoreChats lastPage plainChat (Some "u1") twentyLoaded)
    = ChatSync.chats twentyLoaded ++
      map plainChat [docNamed "c21"; docNamed "c22"; docNamed "c23"].
Proof.
  assert (ChatSync.honoursLimit lastPage) as Hlimit.
  { intros q docs H. injection H as <-. apply firstn_le_length. }
  split; [exact Hlimit|].
  destruct (loadMoreChats_appends_page_until_exhausted
              lastPage plainChat "u1" (docNamed "c20") twentyLoaded
              Hlimit eq_refl eq_refl eq_refl) as [Hpage _].
  destruct (Hpage eq_refl) as [_ Hdocs].
  change (lastPage (ChatSync.mkQuery "u1" (docNamed "c20") 10))
    with (@inr JsError _ [docNamed "c21"; docNamed "c22"; docNamed "c23"]) in Hdocs.
  destruct Hdocs as [Hchats [Hmore _]].
  split; [|exact Hchats].
  apply Hmore. cbn. lia.
Defined.

(** ** Further properties of the pipeline *)

(** X1.  The result cache of the hook is created with capacity
    [MAX_MESSAGES_IN_MEMORY] and never holds more entries than that,
    whatever the read path asks for, whichever timers fire and however the
    decrypt calls settle. *)
Theorem hook_cache_stays_within_capacity
  (inputs : list ChatStore.Input) (h h' : ChatStore.Hook) :
  ChatStore.cacheBounded h ->
  ChatStore.run inputs h = Some h' ->
  ChatStore.cacheBounded h'.
Proof.
  revert h. induction inputs as [|i inputs IH]; intros h Hb; simpl.
  - intros [= <-]. exact Hb.
  - destruct (ChatStore.react i h) as [h1|] eqn:E; [|discriminate].
    apply IH. eapply ChatStoreFacts.bounded_react; eassumption.
Qed.

Lemma initial_hook_cache_within_capacity :
  ChatStore.cacheBounded ChatStore.initial /\
  after [ChatStore.Ask msg1 []; ChatStore.Fire 1;
         ChatStore.SettleBatch 2 (fun _ => Fulfilled "Hello")]
        ChatStore.initial ChatStore.cacheBounded.
Proof.
  assert (ChatStore.cacheBounded ChatStore.initial) as H0
      by (split; [reflexivity | cbv; discriminate]).
  split; [exact H0|]. unfold after.
  destruct (ChatStore.run
              [ChatStore.Ask msg1 []; ChatStore.Fire 1;
               ChatStore.SettleBatch 2 (fun _ => Fulfilled "Hello")]
              ChatStore.initial) as [h'|] eqn:E.
  - exact (hook_cache_stays_within_capacity _ ChatStore.initial h' H0 E).
  - vm_compute in E. discriminate E.
Defined.

(** X2.  A dispatch takes the first [MAX_CONCURRENT_DECRYPTIONS] messages
    off the queue, in queue order, and starts one decrypt call for each;
    the others stay queued.  When the results of a batch arrive while the
    queue is not empty, the next batch is dispatched in the same turn,
    without a new debounce timer. *)
Theorem backlog_is_drained_in_batches_of_five
  (captured : JSSet.t) (h : ChatStore.Hook) :
  ChatStore.mounted h = true ->
  ChatStore.batchDecryptionQueue h <> [] ->
  let next := firstn ChatStore.MAX_CONCURRENT_DECRYPTIONS
                     (ChatStore.batchDecryptionQueue h) in
  let rest := skipn ChatStore.MAX_CONCURRENT_DECRYPTIONS
                    (ChatStore.batchDecryptionQueue h) in
  let inFlight := ChatStore.awaiting h ++
                  [(ChatStore.nextId h, ChatStore.AwaitBatch next captured)] in
  (let h1 := ChatStore.processBatchDecryption captured h in
   ChatStore.trace h1 = ChatStore.trace h ++ map ChatStore.decryptCallOf next /\
   ChatStore.batchDecryptionQueue h1 = rest /\
   ChatStore.awaiting h1 = inFlight /\
   ChatStore.timers h1 = ChatStore.timers h) /\
  (forall batch results,
      let h2 := ChatStore.resumeBatch batch captured (inr results) h in
      ChatStore.trace h2 = ChatStore.trace h ++ map ChatStore.decryptCallOf next /\
      ChatStore.batchDecryptionQueue h2 = rest /\
      ChatStore.awaiting h2 = inFlight /\
      ChatStore.timers h2 = ChatStore.timers h).
Proof.
  intros Hm Hq next rest inFlight. split.
  - apply ChatStoreFacts.batch_dispatch; assumption.
  - intros batch results h2. subst h2. unfold ChatStore.resumeBatch.
    destruct (ChatStoreFacts.storeResults_frame (combine batch results) h)
      as (G1 & G2 & G3 & G4 & G5 & G6).
    rewrite G2.
    assert ((0 <? List.length (ChatStore.batchDecryptionQueue h))%nat = true)
      as ->.
    { apply Nat.ltb_lt.
      destruct (ChatStore.batchDecryptionQueue h); [contradiction | simpl; lia]. }
    destruct (ChatStoreFacts.batch_dispatch captured
                (fold_left ChatStore.storeResult (combine batch results) h))
      as (T1 & T2 & T3 & T4).
    + rewrite G1. exact Hm.
    + rewrite G2. exact Hq.
    + rewrite G2, G3 in T1. rewrite G2 in T2. rewrite G2, G5, G6 in T3.
      rewrite G4 in T4. repeat split; assumption.
Qed.

Lemma seven_messages_go_out_as_five_and_two :
  ChatStore.mounted sevenQueued = true /\
  ChatStore.decryptCalls
    (ChatStore.trace (ChatStore.processBatchDecryption [] sevenQueued)) =
    map (fun n => (("cipher-" ++ n)%string, "key-v1"))
        ["1"; "2"; "3"; "4"; "5"] /\
  ChatStore.batchDecryptionQueue
    (ChatStore.processBatchDecryption [] sevenQueued) =
    map numbered ["6"; "7"].
Proof.
  split; [reflexivity|].
  destruct (backlog_is_drained_in_batches_of_five [] sevenQueued eq_refl)
    as [(Ht & Hq & _) _].
  - discriminate.
  - rewrite Ht, Hq. split; reflexivity.
Defined.

(* ================================================================== *)
(** * Part IV. Further properties of the code *)
(* ================================================================== *)

(** ** The result cache: reads and writes *)

(** X3.  After [set key value] a [get key] returns [value], whatever the
    capacity.  For any other key the cache answers as before the [set], except
    for the key that the capacity check of that [set] evicted.  A [get]
    changes no answer of the cache, and a [get] of a key that is absent
    returns [null] and leaves the cache as it is. *)
Theorem lru_cache_answers_with_the_value_last_set
  (c : LRUCache.t) (key value other : string) :
  fst (LRUCache.get key (LRUCache.set key value c)) = Some value /\
  (other <> key ->
   LRUCache.peek other (LRUCache.set key value c) =
   match LRUCache.evicted c with
   | Some oldest => if String.eqb oldest other then None else LRUCache.peek other c
   | None => LRUCache.peek other c
   end) /\
  LRUCache.peek other (snd (LRUCache.get key c)) = LRUCache.peek other c /\
  (LRUCache.has key c = false -> LRUCache.get key c = (None, c)).
Proof.
  split; [|split; [|split]].
  - unfold LRUCache.get, LRUCache.set. cbn [LRUCache.cache].
    rewrite JSMapFacts.get_set_same. reflexivity.
  - intros Hne. unfold LRUCache.peek, LRUCache.set, LRUCache.evicted, LRUCache.evict.
    cbn [LRUCache.cache]. rewrite JSMapFacts.get_set_other by assumption.
    destruct (JSMap.size (LRUCache.cache c) >=? LRUCache.maxSize c)%Z; [|reflexivity].
    destruct (JSMap.firstKey (LRUCache.cache c)) as [oldest|]; [|reflexivity].
    destruct (String.eqb_spec oldest other) as [->|Hd].
    + apply JSMapFacts.get_delete_same.
    + apply JSMapFacts.get_delete_other. congruence.
  - unfold LRUCache.peek, LRUCache.get.
    destruct (JSMap.get key (LRUCache.cache c)) as [v|] eqn:E; [|reflexivity].
    cbn [snd LRUCache.cache].
    destruct (String.eqb_spec other key) as [->|Hd].
    + rewrite JSMapFacts.get_set_same. congruence.
    + rewrite JSMapFacts.get_set_other, JSMapFacts.get_delete_other by assumption.
      reflexivity.
  - unfold LRUCache.has, LRUCache.get. intros H.
    apply JSMapFacts.has_false_get in H. rewrite H. reflexivity.
Qed.

(** X4.  A cache created with capacity 0 or less holds, after any sequence of
    calls followed by a [set], exactly the entry just set: every [set] first
    evicts what is there and then stores its entry, so the size 1 exceeds the
    capacity. *)
Theorem lru_cache_without_capacity_keeps_the_last_entry
  (capacity : Z) (ops : list LRUCache.op) (key value : string) :
  (capacity <= 0)%Z ->
  let c := LRUCache.set key value (LRUCache.run ops (LRUCache.new capacity)) in
  LRUCache.cache c = [(key, value)] /\ (LRUCache.size c > LRUCache.maxSize c)%Z.
Proof.
  intros Hcap c.
  assert (LRUCache.cache c = [(key, value)]) as Hc.
  { apply LRUEdgeFacts.set_without_capacity.
    - rewrite LRUFacts.maxSize_run. exact Hcap.
    - apply LRUEdgeFacts.run_without_capacity; [exact Hcap | cbn; lia]. }
  split; [exact Hc|].
  unfold LRUCache.size, JSMap.size. rewrite Hc.
  unfold c, LRUCache.set. cbn [LRUCache.maxSize].
  rewrite LRUFacts.maxSize_run. cbn. lia.
Qed.

Lemma lru_cache_of_capacity_zero_after_two_sets :
  (0 <= 0)%Z /\
  LRUCache.cache
    (LRUCache.set "B" "b" (LRUCache.run [LRUCache.OpSet "A" "a"] (LRUCache.new 0)))
  = [("B", "b")].
Proof.
  split; [lia|].
  exact (proj1 (lru_cache_without_capacity_keeps_the_last_entry
                  0 [LRUCache.OpSet "A" "a"] "B" "b" ltac:(lia))).
Defined.

(** ** The transport: response cache, token cache and error texts *)

(** X5.  A response stored with [cacheResponse] is returned by
    [getCachedResponse] for the same key while it is less than [CACHE_TTL] =
    5000 ms old, and the cache is not changed by that.  At an age of 5000 ms
    or more [getCachedResponse] returns [null] and deletes the entry.  Once
    the clean-up timer of the entry has run, the key has no entry, whatever
    was stored under it in between. *)
Theorem cached_response_is_served_for_five_seconds
  (w : Api.World) (key : string) (r : Api.Response) (s : Api.State) :
  let stored := Api.cacheResponse w key r s in
  let age := (Api.dateNow w (Api.clockReads stored) -
              Api.dateNow w (Api.clockReads s))%Z in
  let out := Api.getCachedResponse w key stored in
  ((age < 5000)%Z ->
   fst out = Some r /\ Api.responseCache (snd out) = Api.responseCache stored) /\
  ((5000 <= age)%Z ->
   fst out = None /\ JSMap.get key (Api.responseCache (snd out)) = None) /\
  fst (Api.getCachedResponse w key (ApiClient.cleanupTimer key stored)) = None.
Proof.
  cbv zeta. unfold Api.cacheResponse, Api.getCachedResponse, Api.now.
  cbn [Api.responseCache Api.setResponseCache Api.clockReads Api.token
       Api.expiryTime Api.identityAsked Api.fetched ApiClient.cleanupTimer].
  rewrite JSMapFacts.get_set_same, JSMapFacts.get_delete_same.
  split; [|split].
  - intros H. apply Z.ltb_lt in H. unfold Api.CACHE_TTL. rewrite H.
    split; reflexivity.
  - intros H. apply Z.ltb_ge in H. unfold Api.CACHE_TTL. rewrite H.
    split; [reflexivity|]. cbn. apply JSMapFacts.get_delete_same.
  - reflexivity.
Qed.


(** X7.  Every [fetch] that a call of [makeAuthenticatedRequest] makes goes to
    the URL and carries the body it was given, with a non-empty bearer token
    that is either the token cached at the start of the call or one issued by
    the identity provider; no request leaves without a token. *)
Theorem every_request_carries_a_bearer_token
  (w : Api.World) (url payload : string) (useCache : bool) (s : Api.State) :
  exists rqs,
    Api.fetched (snd (Api.makeAuthenticatedRequest w url payload 0 useCache s))
    = Api.fetched s ++ rqs /\
    Forall (fun rq =>
              Api.url rq = url /\ Api.payload rq = payload /\
              nonEmpty (Api.bearer rq) = true /\
              (Some (Api.bearer rq) = Api.token s \/
               exists k, Api.identity w k = Api.SignedIn (Api.bearer rq))) rqs.
Proof.
  apply (ApiClientFacts.requests_carry_a_token w url payload useCache 2).
  unfold Api.maxRetries. lia.
Qed.




(** X9.  A token obtained from the identity provider is handed out again by
    [getCurrentUserToken], without asking the provider, as long as the clock
    reads less than fifty minutes (3 000 000 ms) more than when it was
    obtained, whatever the provider would answer by then.  From that time on
    the provider is asked again. *)
Theorem token_is_reused_for_fifty_minutes
  (w : Api.World) (s s1 : Api.State) (tok : string) :
  Api.refreshToken w s = (inr (Some tok), s1) ->
  nonEmpty tok = true ->
  let issued := Api.dateNow w (Api.clockReads s) in
  let asked := Api.dateNow w (Api.clockReads s1) in
  (issued + 3000000 <> 0)%Z ->
  let out := Api.getCurrentUserToken w s1 in
  ((asked < issued + 3000000)%Z ->
   fst out = inr (Some tok) /\
   Api.identityAsked (snd out) = Api.identityAsked s1 /\
   Api.token (snd out) = Some tok) /\
  ((issued + 3000000 <= asked)%Z ->
   Api.identityAsked (snd out) = S (Api.identityAsked s1)).
Proof.
  intros Href Htok issued asked Hnz out. subst out issued asked.
  unfold Api.refreshToken in Href.
  destruct (Api.identity w (Api.identityAsked s)) as [t| | |]; try discriminate.
  unfold Api.now in Href. cbn in Href. injection Href as -> <-.
  unfold Api.getCurrentUserToken, Api.now.
  cbn [Api.token Api.expiryTime Api.setToken Api.clockReads Api.responseCache
       Api.identityAsked Api.fetched].
  assert (truthy (Some tok) = true) as -> by (destruct tok; [discriminate | reflexivity]).
  change (50 * 60 * 1000)%Z with 3000000%Z.
  assert ((Api.dateNow w (Api.clockReads s) + 3000000 =? 0)%Z = false) as ->
      by (apply Z.eqb_neq; assumption).
  cbn [andb negb]. split.
  - intros H. apply Z.ltb_lt in H. rewrite H. cbn. auto.
  - intros H. apply Z.ltb_ge in H. rewrite H.
    unfold Api.refreshToken. cbn [Api.identityAsked].
    destruct (Api.identity w _); reflexivity.
Qed.

Lemma token_of_servingWorld_is_reused :
  nonEmpty "token-1" = true /\
  fst (Api.getCurrentUserToken servingWorld
         (snd (Api.refreshToken servingWorld freshApiState)))
  = inr (Some "token-1").
Proof.
  split; [reflexivity|].
  refine (proj1 (proj1 (token_is_reused_for_fifty_minutes servingWorld freshApiState
                   (snd (Api.refreshToken servingWorld freshApiState)) "token-1"
                   eq_refl eq_refl _) _)).
  - cbn. lia.
  - cbn. lia.
Defined.

(** X10.  After [clearTokenCache] the next [getCurrentUserToken] asks the
    identity provider.  If the provider then reports that nobody is signed in,
    [makeAuthenticatedRequest] throws "Authentication required. Please sign
    in." and sends nothing. *)
Theorem clearTokenCache_forces_a_fresh_token
  (w : Api.World) (s : Api.State) (url payload : string) :
  let cleared := ApiClient.clearTokenCache s in
  Api.getCurrentUserToken w cleared = Api.refreshToken w cleared /\
  Api.identityAsked (snd (Api.getCurrentUserToken w cleared)) = S (Api.identityAsked s) /\
  (Api.identity w (Api.identityAsked s) = Api.SignedOut ->
   let out := Api.makeAuthenticatedRequest w url payload 0 false cleared in
   fst out = inl (newError "Authentication required. Please sign in.") /\
   Api.fetched (snd out) = Api.fetched s).
Proof.
  cbv zeta. split; [reflexivity|]. split.
  - unfold Api.getCurrentUserToken, ApiClient.clearTokenCache, Api.refreshToken.
    cbn [Api.token Api.setToken Api.identityAsked].
    destruct (Api.identity w _); reflexivity.
  - intros Hout.
    apply (ApiFacts.signed_out_surfaces w url payload 0 false
             (ApiClient.clearTokenCache s)).
    + intros H. discriminate H.
    + reflexivity.
    + exact Hout.
Qed.

(** X11.  [handleApiError] returns a non-empty text for every error and
    context.  The errors that [makeAuthenticatedRequest] throws for an aborted
    request, for a failed [fetch] and for a missing sign-in are turned into
    "Request timed out. Please try again.", "Connection error. Please check
    your internet and try again." and "Please sign in to continue.". *)
Theorem handleApiError_always_has_a_message (error : JsError) (context : string) :
  nonEmpty (ApiClient.handleApiError error context) = true /\
  (name error = "AbortError" ->
   ApiClient.handleApiError (Api.rethrow error) context =
   "Request timed out. Please try again.") /\
  (name error = "TypeError" -> includes "fetch" (message error) = true ->
   ApiClient.handleApiError (Api.rethrow error) context =
   "Connection error. Please check your internet and try again.") /\
  ApiClient.handleApiError
    (Api.rethrow (newError "Authentication required. Please sign in.")) context =
  "Please sign in to continue.".
Proof.
  split; [|split; [|split]].
  - unfold ApiClient.handleApiError.
    repeat match goal with
           | |- context [if includes ?a ?b then _ else _] =>
               destruct (includes a b); [reflexivity|]
           end.
    destruct (nonEmpty (message error)) eqn:E; [|reflexivity].
    destruct (includes "API Error" (message error)); [reflexivity | exact E].
  - intros H. unfold Api.rethrow. rewrite H. reflexivity.
  - intros H1 H2. unfold Api.rethrow. rewrite H1, H2. reflexivity.
  - reflexivity.
Qed.

(** ** Debounced requests *)

(** X12.  When [debounceRequest] is called n + 1 times in a row for the same
    key, before any timer fires, one timer is left armed.  When it fires, the
    thunk of the last call is called, and no other; when that settles, each of
    the n + 1 promises is settled with its outcome (resolved with the result
    or rejected with the error), and the key leaves the queue. *)
Theorem burst_of_requests_runs_the_last_thunk_once
  {Fn A : Type} (k : string) (earlier : list (Fn * Z)) (f : Fn) (d : Z)
  (outcome : Debounce.Outcome A) :
  let n := List.length earlier in
  exists s,
    Debounce.run
      (map (fun r => Debounce.Request k (fst r) (snd r)) earlier ++
       [Debounce.Request k f d; Debounce.Fire (S n);
        Debounce.Settle (S (S n)) outcome])
      Debounce.empty = Some s /\
    Debounce.started s = [f] /\
    Debounce.issued s = repeat (Debounce.Settled outcome) (S n) /\
    Debounce.requestQueue s = JSMap.empty /\
    Debounce.timers s = [] /\ Debounce.running s = [].
Proof.
  intros n.
  assert (forall (a b : list (Debounce.Input Fn A)) s0 s1,
             Debounce.run a s0 = Some s1 ->
             Debounce.run (a ++ b) s0 = Debounce.run b s1) as Happ.
  { induction a as [|i a IH]; intros b s0 s1; cbn [app Debounce.run].
    - intros [= <-]. reflexivity.
    - destruct (Debounce.react i s0); [apply IH | discriminate]. }
  change (map (fun r => Debounce.Request k (fst r) (snd r)) earlier ++
          [Debounce.Request k f d; Debounce.Fire (S n);
           Debounce.Settle (S (S n)) outcome])
    with (map (fun r => Debounce.Request (A := A) k (fst r) (snd r)) earlier ++
          [Debounce.Request k f d] ++
          [Debounce.Fire (S n); Debounce.Settle (S (S n)) outcome]).
  rewrite app_assoc.
  rewrite (Happ _ _ _ _ (DebounceFacts.burst k earlier f d)).
  fold n. cbn [Debounce.run Debounce.react].
  rewrite DebounceFacts.fire_afterBurst, DebounceFacts.settle_running.
  eexists. split; [reflexivity|]. repeat split; reflexivity.
Qed.

(** X13.  A call of [debounceRequest] that arrives while the thunk of an
    earlier call for the same key is running joins that entry: its promise is
    settled with the outcome of the running thunk, not of its own.  The timer
    it armed still fires later and calls its thunk, whose outcome then changes
    no promise. *)
Theorem request_during_a_running_call_gets_that_calls_outcome
  {Fn A : Type} (k : string) (f f' : Fn) (d d' : Z)
  (outcome outcome' : Debounce.Outcome A) :
  exists s s',
    Debounce.run [Debounce.Request k f d; Debounce.Fire 1;
                  Debounce.Request k f' d'; Debounce.Settle 2 outcome]
                 Debounce.empty = Some s /\
    Debounce.issued s = [Debounce.Settled outcome; Debounce.Settled outcome] /\
    Debounce.started s = [f] /\
    Debounce.requestQueue s = JSMap.empty /\
    Debounce.timers s = [Debounce.mkTimer 3 d' k f' 0] /\
    Debounce.run [Debounce.Fire 3; Debounce.Settle 4 outcome'] s = Some s' /\
    Debounce.started s' = [f; f'] /\
    Debounce.issued s' = Debounce.issued s.
Proof.
  cbn [Debounce.run Debounce.react].
  rewrite DebounceFacts.first_request. cbn [snd].
  rewrite (DebounceFacts.fire_afterBurst k 0 f d).
  unfold Debounce.debounceRequest.
  cbn [Debounce.requestQueue Debounce.heap Debounce.issued Debounce.timers
       Debounce.running Debounce.nextId Debounce.started].
  change (JSMap.get k [(k, 0%nat)]) with (if String.eqb k k then Some 0%nat else None).
  rewrite String.eqb_refl. cbv iota beta.
  change (JSMap.get k [(k, 0%nat)]) with (if String.eqb k k then Some 0%nat else None).
  rewrite String.eqb_refl. cbv iota beta.
  cbn [snd Debounce.updateEntry Debounce.entryAt nth Debounce.promises
       Debounce.timeout Debounce.clearTimeout filter app seq repeat List.length].
  unfold Debounce.settle.
  cbn [Debounce.running find Debounce.callId Nat.eqb].
  cbn [Debounce.requestQueue Debounce.heap Debounce.issued Debounce.timers
       Debounce.running Debounce.nextId Debounce.started filter Debounce.callId
       Debounce.callKey Debounce.callEntry Debounce.entryAt nth Debounce.promises
       Nat.eqb negb fold_left Debounce.settlePromise].
  rewrite JSMapFacts.delete_cons, String.eqb_refl.
  eexists. eexists. split; [reflexivity|].
  cbn [Debounce.requestQueue Debounce.heap Debounce.issued Debounce.timers
       Debounce.running Debounce.nextId Debounce.started].
  do 4 (split; [reflexivity|]).
  unfold Debounce.fire.
  cbn [Debounce.run Debounce.react Debounce.timers find Debounce.timerId Nat.eqb].
  cbn [Debounce.requestQueue Debounce.heap Debounce.issued Debounce.timers
       Debounce.running Debounce.nextId Debounce.started filter Debounce.timerId
       Debounce.key Debounce.fn Debounce.entry Nat.eqb negb app].
  unfold Debounce.settle.
  cbn [Debounce.running find Debounce.callId Nat.eqb].
  cbn [Debounce.requestQueue Debounce.heap Debounce.issued Debounce.timers
       Debounce.running Debounce.nextId Debounce.started filter Debounce.callId
       Debounce.callKey Debounce.callEntry Debounce.entryAt nth Debounce.promises
       Nat.eqb negb fold_left Debounce.settlePromise].
  split; [reflexivity|]. split; reflexivity.
Qed.

(** ** The life cycle of the hook *)

(** X14.  From the initial state of the hook, whatever the read path asks for,
    whichever timers fire and however the batch calls settle,
    [decryptSingleMessage] is never entered: no retry is ever scheduled, the
    retry counts and the timeout timers stay empty, the only timers armed are
    debounce timers of the batcher and the only calls in flight are batch
    calls.  ([batchDecryptMessages] never rejects, so the fall-back of
    [processBatchDecryption] is not taken.) *)
Theorem single_message_retry_path_is_never_entered
  (inputs : list ChatStore.Input) (h' : ChatStore.Hook) :
  ChatStore.run inputs ChatStore.initial = Some h' ->
  ChatStore.retryCounts h' = JSMap.empty /\
  ChatStore.decryptionTimeouts h' = JSMap.empty /\
  ChatStore.retryDelays (ChatStore.trace h') = [] /\
  HookLifecycle.batchOnly h'.
Proof.
  apply LifecycleFacts.batchPath_run.
  repeat split; constructor.
Qed.

Lemma rejected_batch_of_msg1_leaves_no_retry_state :
  after [ChatStore.Ask msg1 []; ChatStore.Fire 1;
         ChatStore.SettleBatch 2 (fun _ => Rejected (newError "Failed to fetch"))]
        ChatStore.initial
        (fun h => ChatStore.retryCounts h = JSMap.empty /\
                  ChatStore.retryDelays (ChatStore.trace h) = []).
Proof.
  unfold after.
  destruct (ChatStore.run
              [ChatStore.Ask msg1 []; ChatStore.Fire 1;
               ChatStore.SettleBatch 2
                 (fun _ => Rejected (newError "Failed to fetch"))]
              ChatStore.initial) as [h'|] eqn:E.
  - destruct (single_message_retry_path_is_never_entered _ h' E) as (H1 & _ & H3 & _).
    split; assumption.
  - vm_compute in E. discriminate E.
Defined.

(** X15.  Every change that the pipeline makes to the cache of decrypted
    messages is a [set]: the cache after any sequence of moves is the cache
    before with a list of entries stored in order.  [get] is never called, and
    [decryptMessageIfNeeded] leaves the cache as it is, so reading a message
    never refreshes its recency. *)
Theorem pipeline_writes_the_cache_with_set_only
  (inputs : list ChatStore.Input) (h h' : ChatStore.Hook) :
  ChatStore.run inputs h = Some h' ->
  (exists entries,
      ChatStore.decryptedMessagesCache h' =
      HookLifecycle.stores entries (ChatStore.decryptedMessagesCache h)) /\
  (forall message captured,
      ChatStore.decryptedMessagesCache
        (ChatStore.decryptMessageIfNeeded captured message h') =
      ChatStore.decryptedMessagesCache h').
Proof.
  intros Hrun. split; [|intros; apply LifecycleFacts.cache_decryptMessageIfNeeded].
  revert h Hrun. induction inputs as [|i inputs IH]; intros h; simpl.
  - intros [= <-]. exists []. reflexivity.
  - destruct (ChatStore.react i h) as [h1|] eqn:E; [|discriminate].
    intros Hrun. 
    exact (LifecycleFacts.storesOnly_trans h h1 h'
             (LifecycleFacts.storesOnly_react i h h1 E) (IH h1 Hrun)).
Qed.

Lemma fulfilled_batch_of_msg1_stores_one_entry :
  after [ChatStore.Ask msg1 []; ChatStore.Fire 1;
         ChatStore.SettleBatch 2 (fun _ => Fulfilled "Hello")]
        ChatStore.initial
        (fun h => exists entries,
             ChatStore.decryptedMessagesCache h =
             HookLifecycle.stores entries
               (ChatStore.decryptedMessagesCache ChatStore.initial)).
Proof.
  unfold after.
  destruct (ChatStore.run
              [ChatStore.Ask msg1 []; ChatStore.Fire 1;
               ChatStore.SettleBatch 2 (fun _ => Fulfilled "Hello")]
              ChatStore.initial) as [h'|] eqn:E.
  - exact (proj1 (pipeline_writes_the_cache_with_set_only _ ChatStore.initial h' E)).
  - vm_compute in E. discriminate E.
Defined.

(** X16.  Once the hook is unmounted, whatever happens next (requests of the
    read path, timers that fire, calls in flight that settle, another
    unmount), no decrypt call is started, the cache stays empty, the retry
    counts stay empty and the hook stays unmounted.  The clean-up interval is
    cleared, so no tick follows. *)
Theorem unmounted_hook_does_no_work
  (c c' : HookLifecycle.Component) (inputs : list HookLifecycle.Input) :
  HookLifecycle.run inputs (HookLifecycle.unmount c) = Some c' ->
  ChatStore.mounted (HookLifecycle.hook c') = false /\
  LRUCache.size (ChatStore.decryptedMessagesCache (HookLifecycle.hook c')) = 0%Z /\
  ChatStore.retryCounts (HookLifecycle.hook c') = JSMap.empty /\
  ChatStore.decryptCalls (ChatStore.trace (HookLifecycle.hook c')) =
  ChatStore.decryptCalls (ChatStore.trace (HookLifecycle.hook c)).
Proof.
  destruct (LifecycleFacts.unmount_idle c) as (Hidle & Hint & Htr).
  rewrite <- Htr. clear Htr. generalize dependent (HookLifecycle.unmount c). clear c.
  intros c. revert c.
  induction inputs as [|i inputs IH]; intros c Hidle Hint; simpl.
  - intros [= <-]. destruct Hidle as (H1 & H2 & H3).
    unfold LRUCache.size. rewrite H2. auto.
  - destruct (HookLifecycle.react i c) as [c1|] eqn:E; [|discriminate].
    intros Hrun.
    assert (LifecycleFacts.idle (HookLifecycle.hook c1) /\
            HookLifecycle.memoryCleanupInterval c1 = false /\
            ChatStore.decryptCalls (ChatStore.trace (HookLifecycle.hook c1)) =
            ChatStore.decryptCalls (ChatStore.trace (HookLifecycle.hook c)))
      as (Hidle1 & Hint1 & Htr1).
    { destruct i as [p| |]; cbn [HookLifecycle.react] in E.
      - destruct (ChatStore.react p (HookLifecycle.hook c)) as [h1|] eqn:Ep;
          [|discriminate].
        injection E as <-. cbn [HookLifecycle.hook HookLifecycle.memoryCleanupInterval].
        destruct Hidle as (H1 & H2 & H3).
        destruct (LifecycleFacts.unmounted_react p _ h1 H1 Ep) as (G1 & G2 & G3 & G4).
        unfold LifecycleFacts.idle. rewrite G1, G2, G3. auto.
      - rewrite Hint in E. discriminate.
      - injection E as <-. apply LifecycleFacts.unmount_idle. }
    rewrite <- Htr1. apply IH; assumption.
Qed.

Lemma unmount_during_a_batch_call :
  match HookLifecycle.run
          [HookLifecycle.Pipeline
             (ChatStore.SettleBatch 2 (fun _ => Fulfilled "Hello"));
           HookLifecycle.Pipeline (ChatStore.Ask msg1 []);
           HookLifecycle.Pipeline (ChatStore.Fire 3)]
          (HookLifecycle.unmount msg1InFlight)
  with
  | Some c' =>
      ChatStore.decryptCalls (ChatStore.trace (HookLifecycle.hook c')) =
      [("cipher-1", "key-v1")] /\
      LRUCache.size (ChatStore.decryptedMessagesCache (HookLifecycle.hook c')) = 0%Z
  | None => False
  end.
Proof.
  destruct (HookLifecycle.run
              [HookLifecycle.Pipeline
                 (ChatStore.SettleBatch 2 (fun _ => Fulfilled "Hello"));
               HookLifecycle.Pipeline (ChatStore.Ask msg1 []);
               HookLifecycle.Pipeline (ChatStore.Fire 3)]
              (HookLifecycle.unmount msg1InFlight)) as [c'|] eqn:E.
  - destruct (unmounted_hook_does_no_work msg1InFlight c' _ E) as (_ & H2 & _ & H4).
    split; [exact H4 | exact H2].
  - vm_compute in E. discriminate E.
Defined.

(** X17.  [cleanupMemory] changes nothing but the retry counts: the cache of
    decrypted messages, the messages in progress, the timers and the calls in
    flight are left alone.  On a mounted hook it keeps the retry count of a
    message exactly when the message is listed in one of the chats the
    callback closed over, so with an empty list of chats it removes every
    retry count; on an unmounted hook it does nothing. *)
Theorem cleanupMemory_drops_retry_counts_only
  (chats : list ChatMutator.Chat) (h : ChatStore.Hook) :
  let h' := HookLifecycle.cleanupMemory chats h in
  ChatStore.decryptedMessagesCache h' = ChatStore.decryptedMessagesCache h /\
  ChatStore.decryptingMessageIds h' = ChatStore.decryptingMessageIds h /\
  ChatStore.timers h' = ChatStore.timers h /\
  ChatStore.awaiting h' = ChatStore.awaiting h /\
  (ChatStore.mounted h = false -> h' = h) /\
  (ChatStore.mounted h = true ->
   (forall id,
       JSMap.get id (ChatStore.retryCounts h') =
       if HookLifecycle.listed id chats
       then JSMap.get id (ChatStore.retryCounts h) else None) /\
   ChatStore.retryCounts (HookLifecycle.cleanupMemory [] h) = JSMap.empty).
Proof.
  cbv zeta. unfold HookLifecycle.cleanupMemory.
  destruct (ChatStore.mounted h); cbn [negb].
  - do 4 (split; [reflexivity|]). split; [discriminate|].
    intros _. split.
    + intros id. cbn [ChatStore.retryCounts ChatStore.setRetryCounts].
      rewrite LifecycleFacts.get_dropInvisible,
              LifecycleFacts.has_visibleMessageIds. reflexivity.
    + cbn [ChatStore.retryCounts ChatStore.setRetryCounts].
      apply LifecycleFacts.length_dropInvisible_from; auto.
  - do 4 (split; [reflexivity|]). split; [reflexivity | discriminate].
Qed.

(** ** What the chat window shows *)

(** X18.  For a ciphertext message the chat window raises [hasErrorDecrypting]
    exactly when the decrypted text is the marker "[Error al descifrar]".  Any
    other non-empty text in the cache is shown as the text of the message,
    without the flag.  In particular a message whose decrypt call failed in a
    batch is shown with the text "[Error: Failed to decrypt]", not flagged as
    an error and not as in progress. *)
Theorem only_the_exact_error_marker_raises_the_error_flag
  (m : Message.t) (reason : JsError) :
  nonEmpty (Message.messageCiphertextKMS m) = true ->
  nonEmpty (Message.kmsKeyVersionName m) = true ->
  (forall decrypted inProgress,
      App.hasErrorDecrypting (App.activeChatMessage decrypted inProgress m) = true <->
      JSMap.get (Message.id m) decrypted = Some "[Error al descifrar]") /\
  (forall decrypted inProgress value,
      JSMap.get (Message.id m) decrypted = Some value ->
      nonEmpty value = true -> value <> "[Error al descifrar]" ->
      App.activeChatMessage decrypted inProgress m =
      App.mkShown (Some value) (JSSet.has (Message.id m) inProgress) false) /\
  after [ChatStore.Ask m []; ChatStore.Fire 1;
         ChatStore.SettleBatch 2 (fun _ => Rejected reason)]
        ChatStore.initial
        (fun h => App.shown h m =
                  App.mkShown (Some "[Error: Failed to decrypt]") false false).
Proof.
  intros Hc Hk. split; [|split].
  - intros decrypted inProgress. unfold App.activeChatMessage.
    cbn [App.hasErrorDecrypting]. unfold App.isErrorMarker.
    destruct (JSMap.get (Message.id m) decrypted) as [t|].
    + split.
      * intros H. apply String.eqb_eq in H. congruence.
      * intros [= ->]. reflexivity.
    + split; discriminate.
  - intros decrypted inProgress value Hget Hne Hnot.
    unfold App.activeChatMessage. rewrite Hget, Hc. unfold App.isErrorMarker.
    apply String.eqb_neq in Hnot. rewrite Hnot.
    assert (truthy (Some value) = true) as ->
        by (destruct value; [discriminate | reflexivity]).
    cbn [negb andb]. rewrite orb_false_r. reflexivity.
  - destruct m as [id c k]. cbn [Message.messageCiphertextKMS Message.kmsKeyVersionName] in *.
    destruct c as [|a c]; [discriminate|]. destruct k as [|b k]; [discriminate|].
    unfold after. cbn.
    unfold App.shown, App.decryptedMessagesMap, App.activeChatMessage. cbn.
    rewrite String.eqb_refl. reflexivity.
Qed.

Lemma failed_batch_item_msg1_is_shown_as_text :
  nonEmpty (Message.messageCiphertextKMS msg1) = true /\
  after [ChatStore.Ask msg1 []; ChatStore.Fire 1;
         ChatStore.SettleBatch 2 (fun _ => Rejected (newError "Failed to fetch"))]
        ChatStore.initial
        (fun h => App.shown h msg1 =
                  App.mkShown (Some "[Error: Failed to decrypt]") false false).
Proof.
  split; [reflexivity|].
  exact (proj2 (proj2 (only_the_exact_error_marker_raises_the_error_flag
                         msg1 (newError "Failed to fetch") eq_refl eq_refl))).
Defined.

(** ** Deleting a chat, and the live subscription *)

(** X19.  [deleteChat] never removes anything from the cache of decrypted
    messages, from the batch queue or from the calls in flight.  For a
    signed-in user, every message of the deleted chat (as listed in [chats])
    is afterwards neither in progress nor in the retry state and has no
    timeout timer recorded. *)
Theorem deleteChat_keeps_the_decrypted_texts
  (userId : option string) (chats : list ChatMutator.Chat) (chatIdToDelete : string)
  (w : ChatMutator.World) (h : ChatStore.Hook) (s : ChatMutator.State) :
  let h' := snd (fst (ChatMutator.deleteChat userId chats chatIdToDelete w h s)) in
  ChatStore.decryptedMessagesCache h' = ChatStore.decryptedMessagesCache h /\
  ChatStore.batchDecryptionQueue h' = ChatStore.batchDecryptionQueue h /\
  ChatStore.awaiting h' = ChatStore.awaiting h /\
  (truthy userId = true ->
   forall chat msg,
     find (fun chat => String.eqb (ChatMutator.chatId chat) chatIdToDelete) chats
     = Some chat ->
     In msg (ChatMutator.chatMessages chat) ->
     JSSet.has (Message.id msg) (ChatStore.decryptingMessageIds h') = false /\
     JSMap.get (Message.id msg) (ChatStore.retryCounts h') = None /\
     JSMap.get (Message.id msg) (ChatStore.decryptionTimeouts h') = None).
Proof.
  cbv zeta. unfold ChatMutator.deleteChat.
  destruct (truthy userId); cbn [negb].
  - set (msgs := match find _ chats with Some chat => _ | None => [] end).
    assert (snd (fst
              match ChatMutator.deleteDoc w chatIdToDelete (ChatMutator.setError None s) with
              | (inl err, s1) =>
                  let '(r, s2) := @ChatMutator.deleteFailed unit err s1 in
                  (r, fold_left ChatMutator.purge msgs h, s2)
              | (inr _, s1) => (inr tt, fold_left ChatMutator.purge msgs h, s1)
              end) = fold_left ChatMutator.purge msgs h) as ->.
    { destruct (ChatMutator.deleteDoc w chatIdToDelete _) as [[err|u] s1]; reflexivity. }
    destruct (MutatorFacts.purge_all_frame msgs h) as (G1 & G2 & G3).
    do 3 (split; [assumption|]).
    intros _ chat msg Hfind Hin. subst msgs. rewrite Hfind.
    apply MutatorFacts.purge_all_forgets, Hin.
  - cbn. do 3 (split; [reflexivity|]). discriminate.
Qed.

(** X20.  A snapshot of the live subscription replaces the list of chats
    (pages loaded before are dropped), clears the error and sets [hasMore]
    exactly when it holds 20 documents.  After a snapshot of another size
    [loadMoreChats] does nothing; after one of 20 documents its query starts
    after the last of them and asks for 10.  Before the first snapshot
    [loadMoreChats] does nothing, and a snapshot that arrives after the
    unmount is ignored. *)
Theorem snapshot_replaces_the_list_and_resets_pagination
  (getDocs : ChatSync.Query -> JsError + list Firestore.ChatDoc)
  (toChat : Firestore.ChatDoc -> ChatMutator.Chat)
  (userId : option string) (docs : list Firestore.ChatDoc)
  (sc : ChatSubscription.Screen) :
  let sc' := ChatSubscription.onSnapshot toChat true docs sc in
  let v' := ChatSubscription.view sc' in
  ChatSync.chats v' = map toChat docs /\
  ChatSync.loadedChatsCount v' = List.length docs /\
  ChatSync.error v' = None /\
  ChatSubscription.loadingChats sc' = false /\
  (ChatSync.hasMore v' = true <-> List.length docs = 20%nat) /\
  (List.length docs <> 20%nat ->
   ChatSync.loadMoreChats getDocs toChat userId v' = v') /\
  (List.length docs = 20%nat -> truthy userId = true ->
   ChatSync.loadingMore (ChatSubscription.view sc) = false ->
   exists uid cursor,
     userId = Some uid /\ last (map Some docs) None = Some cursor /\
     ChatSync.queries (ChatSync.loadMoreChats getDocs toChat userId v') =
     ChatSync.queries (ChatSubscription.view sc) ++ [ChatSync.mkQuery uid cursor 10]) /\
  (let fresh := ChatSubscription.view (ChatSubscription.resubscribe userId sc) in
   ChatSync.loadMoreChats getDocs toChat userId fresh = fresh) /\
  ChatSubscription.onSnapshot toChat false docs sc = sc.
Proof.
  cbv zeta. unfold ChatSubscription.onSnapshot.
  cbn [negb ChatSubscription.view ChatSubscription.loadingChats ChatSync.chats
       ChatSync.loadedChatsCount ChatSync.error ChatSync.hasMore].
  change ChatStore.INITIAL_CHAT_LIMIT with 20%nat.
  do 4 (split; [reflexivity|]).
  split; [apply Nat.eqb_eq|].
  split; [|split; [|split; [|reflexivity]]].
  - intros Hn. apply Nat.eqb_neq in Hn.
    unfold ChatSync.loadMoreChats. cbn [ChatSync.lastVisibleChat ChatSync.hasMore
                                        ChatSync.loadingMore].
    rewrite Hn. cbn [negb]. rewrite !orb_true_r.
    destruct userId; [|reflexivity].
    destruct (match docs with [] => _ | _ :: _ => _ end); reflexivity.
  - intros Hn Huid Hload.
    destruct userId as [uid|]; [|discriminate].
    destruct docs as [|d docs]; [discriminate|].
    rewrite (last_map_some docs d d).
    exists uid, (last (d :: docs) d). split; [reflexivity|]. split; [reflexivity|].
    unfold ChatSync.loadMoreChats.
    cbn [ChatSync.lastVisibleChat ChatSync.hasMore ChatSync.loadingMore].
    rewrite Huid, Hload, Hn. cbn [Nat.eqb negb orb].
    change ChatStore.CHAT_PAGE_SIZE with 10%nat.
    destruct (getDocs _) as [err|[|d' page]]; reflexivity.
  - unfold ChatSubscription.resubscribe, ChatSync.loadMoreChats.
    destruct userId as [uid|]; [|destruct (negb (truthy None)); reflexivity].
    destruct (negb (truthy (Some uid))); reflexivity.
Qed.

(** ** The HTTP functions of the crypto service *)

(** X21.  The functions read the token of a request as the text that follows
    [Bearer ] in the [Authorization] header: for a header made of [Bearer ]
    and a token that does not itself contain [Bearer ], they get the token
    back; a header without the prefix, or no header, gives no token. *)
Theorem bearer_token_reaches_the_function_unchanged
  (token method : string) (origin : option string)
  (body : string -> CloudFunctions.Field) :
  includes "Bearer " token = false ->
  CloudFunctions.idTokenOf
    (CloudFunctions.mkRequest method origin (Some ("Bearer " ++ token)%string) body)
  = Some token /\
  CloudFunctions.idTokenOf (CloudFunctions.mkRequest method origin (Some token) body)
  = None /\
  CloudFunctions.idTokenOf (CloudFunctions.mkRequest method origin None body) = None.
Proof.
  intros H. unfold CloudFunctions.idTokenOf. cbn [CloudFunctions.authorization].
  rewrite (CloudFacts.split_bearer token H).
  unfold CloudFunctions.split.
  rewrite (CloudFacts.splitFrom_one_piece "Bearer " token "" H).
  repeat split; reflexivity.
Qed.

Lemma bearer_token_abc_reaches_the_function :
  includes "Bearer " "abc.def.ghi" = false /\
  CloudFunctions.idTokenOf
    (CloudFunctions.mkRequest "POST" None (Some "Bearer abc.def.ghi")
                              (fun _ => CloudFunctions.Missing))
  = Some "abc.def.ghi".
Proof.
  split; [reflexivity|].
  exact (proj1 (bearer_token_reaches_the_function_unchanged
                  "abc.def.ghi" "POST" None (fun _ => CloudFunctions.Missing)
                  eq_refl)).
Defined.

(** X22.  [encryptChatMessage] and [decryptChatMessage] call the key
    management service only for a POST request whose token the identity
    service accepted (or, in the emulator, a request without a token); a 200
    from [decryptChatMessage] implies such a call was made.  Outside the
    emulator a POST without a token is answered 401 and no service is called. *)
Theorem crypto_functions_call_kms_only_for_authenticated_posts
  {Buffer : Type} (fromUtf8 fromBase64 : string -> Buffer)
  (toBase64 toUtf8 : Buffer -> string)
  (sv : CloudFunctions.Services Buffer) (env : CloudFunctions.Env)
  (validated : option string) (rq : CloudFunctions.Request) :
  let enc := CloudFunctions.encryptChatMessage fromUtf8 toBase64 sv env validated rq in
  let dec := CloudFunctions.decryptChatMessage fromBase64 toUtf8 sv env validated rq in
  (existsb CloudFunctions.isKmsCall (CloudFunctions.calls enc) = true ->
   CloudFunctions.method rq = "POST" /\ CloudFunctions.authenticated sv env rq) /\
  (existsb CloudFunctions.isKmsCall (CloudFunctions.calls dec) = true ->
   CloudFunctions.method rq = "POST" /\ CloudFunctions.authenticated sv env rq) /\
  (CloudFunctions.status (CloudFunctions.response dec) = 200%Z ->
   CloudFunctions.method rq = "POST" /\ CloudFunctions.authenticated sv env rq /\
   existsb CloudFunctions.isKmsCall (CloudFunctions.calls dec) = true) /\
  (CloudFunctions.method rq = "POST" ->
   CloudFunctions.notEmulated env = true ->
   truthy (CloudFunctions.idTokenOf rq) = false ->
   CloudFunctions.status (CloudFunctions.response enc) = 401%Z /\
   CloudFunctions.calls enc = [] /\
   CloudFunctions.status (CloudFunctions.response dec) = 401%Z /\
   CloudFunctions.calls dec = []).
Proof.
  cbv zeta. split; [|split; [|split]].
  - unfold CloudFunctions.encryptChatMessage.
    destruct (String.eqb (CloudFunctions.method rq) "OPTIONS"); [discriminate|].
    destruct (String.eqb_spec (CloudFunctions.method rq) "POST") as [Hm|Hm];
      cbn [negb]; [|discriminate].
    destruct (CloudFunctions.authenticate sv env rq) as [[refusal|] made] eqn:Ea.
    + destruct (CloudFacts.authenticate_refuses sv env rq refusal made Ea)
        as (_ & _ & Hk).
      cbn [CloudFunctions.calls]. congruence.
    + destruct (CloudFacts.authenticate_passes sv env rq made Ea) as [Hauth Hk].
      intros _. auto.
  - unfold CloudFunctions.decryptChatMessage.
    destruct (String.eqb (CloudFunctions.method rq) "OPTIONS"); [discriminate|].
    destruct (String.eqb_spec (CloudFunctions.method rq) "POST") as [Hm|Hm];
      cbn [negb]; [|discriminate].
    destruct (CloudFunctions.authenticate sv env rq) as [[refusal|] made] eqn:Ea.
    + destruct (CloudFacts.authenticate_refuses sv env rq refusal made Ea)
        as (_ & _ & Hk).
      cbn [CloudFunctions.calls]. congruence.
    + destruct (CloudFacts.authenticate_passes sv env rq made Ea) as [Hauth Hk].
      intros _. auto.
  - unfold CloudFunctions.decryptChatMessage.
    destruct (String.eqb (CloudFunctions.method rq) "OPTIONS"); [discriminate|].
    destruct (String.eqb_spec (CloudFunctions.method rq) "POST") as [Hm|Hm];
      cbn [negb]; [|discriminate].
    destruct (CloudFunctions.authenticate sv env rq) as [[refusal|] made] eqn:Ea.
    + destruct (CloudFacts.authenticate_refuses sv env rq refusal made Ea)
        as (Hs & _ & _).
      cbn [CloudFunctions.response]. rewrite Hs. discriminate.
    + destruct (CloudFacts.authenticate_passes sv env rq made Ea) as [Hauth Hk].
      destruct (CloudFunctions.body rq "ciphertext") as [|c|]; try discriminate.
      destruct (nonEmpty c); [|discriminate].
      destruct (CloudFunctions.body rq "kmsKeyVersionName") as [|k|]; try discriminate.
      destruct (nonEmpty k && includes "/cryptoKeyVersions/" k); [|discriminate].
      cbv zeta.
      destruct (CloudFunctions.kmsDecrypt Buffer sv _ _) as [error|resp].
      * cbn [CloudFunctions.response]. intros H.
        destruct (CloudFacts.headers_decryptFailed rq k error) as [_ Hne].
        contradiction.
      * destruct (CloudFunctions.decryptedPlaintext Buffer resp).
        -- cbn [CloudFunctions.calls]. intros _. split; [exact Hm|].
           split; [exact Hauth|]. rewrite existsb_app. cbn. apply orb_true_r.
        -- cbn [CloudFunctions.response]. intros H.
           destruct (CloudFacts.headers_decryptFailed rq k
                       (CloudFunctions.plainError
                          "KMS decryption did not return plaintext.")) as [_ Hne].
           contradiction.
  - intros Hm Hemu Htok.
    unfold CloudFunctions.encryptChatMessage, CloudFunctions.decryptChatMessage,
      CloudFunctions.authenticate.
    rewrite Hm, Hemu, Htok. cbn. auto.
Qed.

(** X23.  Whatever the request and however it ends, the response of either
    function carries [Access-Control-Allow-Origin] exactly when the origin of
    the request is one of the three allowed origins, and then it is that
    origin.  An OPTIONS request is answered 204 with the preflight headers and
    any method other than OPTIONS and POST is answered 405, both without a
    call to a service and without a look at the token. *)
Theorem cors_origin_is_echoed_only_when_allowed
  {Buffer : Type} (fromUtf8 fromBase64 : string -> Buffer)
  (toBase64 toUtf8 : Buffer -> string)
  (sv : CloudFunctions.Services Buffer) (env : CloudFunctions.Env)
  (validated : option string) (rq : CloudFunctions.Request) :
  let enc := CloudFunctions.encryptChatMessage fromUtf8 toBase64 sv env validated rq in
  let dec := CloudFunctions.decryptChatMessage fromBase64 toUtf8 sv env validated rq in
  let allowOrigin (out : CloudFunctions.Outcome Buffer) :=
    JSMap.get "Access-Control-Allow-Origin"
              (CloudFunctions.headers (CloudFunctions.response out)) in
  allowOrigin enc =
    (if CloudFunctions.isAllowed (CloudFunctions.origin rq)
     then CloudFunctions.origin rq else None) /\
  allowOrigin dec =
    (if CloudFunctions.isAllowed (CloudFunctions.origin rq)
     then CloudFunctions.origin rq else None) /\
  (CloudFunctions.method rq = "OPTIONS" ->
   enc = CloudFunctions.mkOutcome Buffer (CloudFunctions.preflight rq) validated [] /\
   dec = CloudFunctions.mkOutcome Buffer (CloudFunctions.preflight rq) validated [] /\
   CloudFunctions.status (CloudFunctions.preflight rq) = 204%Z) /\
  (CloudFunctions.method rq <> "OPTIONS" -> CloudFunctions.method rq <> "POST" ->
   CloudFunctions.status (CloudFunctions.response enc) = 405%Z /\
   CloudFunctions.calls enc = [] /\
   CloudFunctions.status (CloudFunctions.response dec) = 405%Z /\
   CloudFunctions.calls dec = []).
Proof.
  cbv zeta.
  assert (forall out : CloudFunctions.Outcome Buffer,
             CloudFunctions.headers (CloudFunctions.response out)
             = CloudFunctions.corsHeaders rq \/
             CloudFunctions.response out = CloudFunctions.preflight rq ->
             JSMap.get "Access-Control-Allow-Origin"
                       (CloudFunctions.headers (CloudFunctions.response out)) =
             (if CloudFunctions.isAllowed (CloudFunctions.origin rq)
              then CloudFunctions.origin rq else None)) as Hcors.
  { intros out [H|H]; rewrite H;
      [apply CloudFacts.get_allow_origin | apply CloudFacts.get_allow_origin_preflight]. }
  split; [|split; [|split]].
  - apply Hcors. unfold CloudFunctions.encryptChatMessage.
    destruct (String.eqb (CloudFunctions.method rq) "OPTIONS"); [right; reflexivity|].
    left. destruct (negb _); [reflexivity|].
    destruct (CloudFunctions.authenticate sv env rq) as [[refusal|] made] eqn:Ea.
    + apply (CloudFacts.authenticate_refuses sv env rq refusal made Ea).
    + destruct (CloudFunctions.body rq "plaintext") as [|p|]; try reflexivity.
      destruct (nonEmpty p); [|reflexivity].
      destruct (CloudFunctions.getAndValidateKmsKeyPath env validated)
        as [[error|path] validated'].
      * apply CloudFacts.headers_encryptFailed.
      * cbv zeta. destruct (CloudFunctions.kmsEncrypt Buffer sv _ _) as [error|resp].
        -- apply CloudFacts.headers_encryptFailed.
        -- destruct (CloudFunctions.encryptedCiphertext Buffer resp);
             [reflexivity | apply CloudFacts.headers_encryptFailed].
  - apply Hcors. unfold CloudFunctions.decryptChatMessage.
    destruct (String.eqb (CloudFunctions.method rq) "OPTIONS"); [right; reflexivity|].
    left. destruct (negb _); [reflexivity|].
    destruct (CloudFunctions.authenticate sv env rq) as [[refusal|] made] eqn:Ea.
    + apply (CloudFacts.authenticate_refuses sv env rq refusal made Ea).
    + destruct (CloudFunctions.body rq "ciphertext") as [|c|]; try reflexivity.
      destruct (nonEmpty c); [|reflexivity].
      destruct (CloudFunctions.body rq "kmsKeyVersionName") as [|k|]; try reflexivity.
      destruct (nonEmpty k && includes "/cryptoKeyVersions/" k); [|reflexivity].
      cbv zeta. destruct (CloudFunctions.kmsDecrypt Buffer sv _ _) as [error|resp].
      * apply CloudFacts.headers_decryptFailed.
      * destruct (CloudFunctions.decryptedPlaintext Buffer resp);
          [reflexivity | apply CloudFacts.headers_decryptFailed].
  - intros Hm. unfold CloudFunctions.encryptChatMessage, CloudFunctions.decryptChatMessage.
    rewrite Hm. cbn. auto.
  - intros Ho Hp. apply String.eqb_neq in Ho, Hp.
    unfold CloudFunctions.encryptChatMessage, CloudFunctions.decryptChatMessage.
    rewrite Ho, Hp. cbn. auto.
Qed.

(** X24.  For a key version name [key/cryptoKeyVersions/version], where
    [version] has no slash, the key path that [decryptChatMessage] derives is
    [key], and an authenticated POST with that name and a ciphertext makes
    exactly one more service call: [kmsClient.decrypt] with the name [key] and
    the decoded ciphertext. *)
Theorem decrypt_asks_for_the_key_of_the_version
  {Buffer : Type} (fromBase64 : string -> Buffer) (toUtf8 : Buffer -> string)
  (sv : CloudFunctions.Services Buffer) (env : CloudFunctions.Env)
  (validated : option string) (rq : CloudFunctions.Request)
  (key version ciphertext : string) (made : list (CloudFunctions.ServiceCall Buffer)) :
  CloudFunctions.slashFree version = true ->
  CloudFunctions.cryptoKeyPathOf (key ++ "/cryptoKeyVersions/" ++ version) = key /\
  (CloudFunctions.method rq = "POST" ->
   CloudFunctions.authenticate sv env rq = (None, made) ->
   CloudFunctions.body rq "ciphertext" = CloudFunctions.Text ciphertext ->
   nonEmpty ciphertext = true ->
   CloudFunctions.body rq "kmsKeyVersionName" =
     CloudFunctions.Text (key ++ "/cryptoKeyVersions/" ++ version) ->
   CloudFunctions.calls
     (CloudFunctions.decryptChatMessage fromBase64 toUtf8 sv env validated rq)
   = made ++ [CloudFunctions.KmsDecrypt key (fromBase64 ciphertext)]).
Proof.
  intros Hv. pose proof (CloudFacts.cryptoKeyPathOf_version key version Hv) as Hpath.
  split; [exact Hpath|].
  intros Hm Ha Hc Hne Hk. unfold CloudFunctions.decryptChatMessage.
  rewrite Hm, Ha, Hc, Hne, Hk. cbn [String.eqb negb].
  assert (nonEmpty (key ++ "/cryptoKeyVersions/" ++ version) = true) as ->
      by (destruct key; reflexivity).
  rewrite CloudFacts.includes_marker, Hpath. cbn [andb].
  destruct (CloudFunctions.kmsDecrypt Buffer sv key (fromBase64 ciphertext)) as [e|resp];
    [reflexivity|].
  destruct (CloudFunctions.decryptedPlaintext Buffer resp); reflexivity.
Qed.

Lemma key_of_version_one :
  CloudFunctions.slashFree "1" = true /\
  CloudFunctions.cryptoKeyPathOf
    "projects/p/locations/l/keyRings/r/cryptoKeys/k/cryptoKeyVersions/1"
  = "projects/p/locations/l/keyRings/r/cryptoKeys/k".
Proof.
  split; [reflexivity|].
  exact (proj1 (decrypt_asks_for_the_key_of_the_version
                  (fun s => s) (fun s => s)
                  (CloudFunctions.mkServices
                     (fun _ => None)
                     (fun _ _ => inl (CloudFunctions.plainError "unused"))
                     (fun _ _ => inl (CloudFunctions.plainError "unused")))
                  (CloudFunctions.mkEnv None None) None
                  (CloudFunctions.mkRequest "POST" None None
                     (fun _ => CloudFunctions.Missing))
                  "projects/p/locations/l/keyRings/r/cryptoKeys/k" "1" "" []
                  eq_refl)).
Defined.

(** ** The encrypt call of the API client *)

(** X25.  When [encryptChatMessageAPI] returns a result, the result has a
    non-empty [ciphertext] and a non-empty [kmsKeyVersionName], the URL of the
    service is configured, and the result is the body of a response with an ok
    status to the authenticated request that carries the plaintext.  When the
    URL is not set or is a placeholder, the call fails before any request and
    leaves the state of the client as it was. *)
Theorem encryptChatMessageAPI_returns_only_complete_results
  (stringify : list (string * string) -> string)
  (json : Api.Response -> JsError + JSMap.t string)
  (statusText : Api.Response -> string)
  (url : option string) (w : Api.World) (plaintext : string) (s : Api.State) :
  let out := ApiCrypto.encryptChatMessageAPI stringify json statusText url w plaintext s in
  (forall result,
      fst out = inr result ->
      (exists c k,
          JSMap.get "ciphertext" result = Some c /\ nonEmpty c = true /\
          JSMap.get "kmsKeyVersionName" result = Some k /\ nonEmpty k = true) /\
      (exists u response,
          url = Some u /\ includes "URL_PLACEHOLDER" u = false /\
          fst (Api.makeAuthenticatedRequest w u (stringify [("plaintext", plaintext)])
                 0 false s) = inr response /\
          Api.ok response = true /\ json response = inr result)) /\
  (truthy url = false \/
   (exists u, url = Some u /\ includes "URL_PLACEHOLDER" u = true) ->
   exists error, out = (inl error, s)).
Proof.
  cbv zeta. unfold ApiCrypto.encryptChatMessageAPI, ApiCrypto.validateApiUrl. split.
  - intros result.
    destruct url as [u|]; cbn [truthy negb orb]; [|discriminate].
    destruct u as [|a u]; cbn [truthy negb orb]; [discriminate|].
    destruct (includes "URL_PLACEHOLDER" (String a u)) eqn:Ep; [discriminate|].
    destruct (Api.makeAuthenticatedRequest w (String a u) _ 0 false s)
      as [[error|response] s1] eqn:Er; [discriminate|].
    destruct (ApiCrypto.readEncryptResponse json statusText response) as [error|r] eqn:Eread;
      [discriminate|].
    cbn [fst]. intros [= <-].
    destruct (ApiCryptoFacts.readEncryptResponse_complete json statusText response r Eread)
      as (Hok & Hjson & Hc & Hk).
    split.
    + destruct (JSMap.get "ciphertext" r) as [c|]; [|discriminate].
      destruct (JSMap.get "kmsKeyVersionName" r) as [k|]; [|discriminate].
      exists c, k. repeat split; try reflexivity.
      * destruct c; [discriminate | reflexivity].
      * destruct k; [discriminate | reflexivity].
    + exists (String a u), response. rewrite Er. cbn [fst].
      repeat split; assumption || reflexivity.
  - intros [H|(u & -> & H)].
    + rewrite H. cbn [negb orb]. eauto.
    + rewrite H, orb_true_r. eauto.
Qed.

(** X26.  With the mutators wired to [encryptChatMessageAPI]: when the user is
    signed in, the URL is configured and [fetch] fails with a [TypeError]
    whose message contains [fetch], [createNewChat] and [addMessageToChat]
    throw, and show as the hook's error, the text made of their own prefix,
    [Unable to secure your message. ] and [Unable to encrypt message. Please
    check your connection and try again.]; the store is not written. *)
Theorem network_failure_surfaces_in_the_chat_mutators
  (stringify : list (string * string) -> string)
  (json : Api.Response -> JsError + JSMap.t string)
  (statusText : Api.Response -> string)
  (url uid text chatId sender : string) (w : Api.World) (s : Api.State)
  (store : ChatMutator.World) (st : ChatMutator.State) (e : JsError) :
  nonEmpty url = true -> includes "URL_PLACEHOLDER" url = false ->
  Api.alwaysSignedIn w ->
  Api.network w (List.length (Api.fetched s)) = Api.Throws e ->
  name e = "TypeError" -> includes "fetch" (message e) = true ->
  nonEmpty uid = true -> nonEmpty (ChatMutator.trim text) = true ->
  let wired := ApiCrypto.mutatorWorld stringify json statusText (Some url) w s store in
  let created :=
    "Failed to create chat. Unable to secure your message. Unable to encrypt message. Please check your connection and try again." in
  let sent :=
    "Failed to send message. Unable to secure your message. Unable to encrypt message. Please check your connection and try again." in
  ChatMutator.createNewChat (Some uid) text wired st =
    (inl (newError created), ChatMutator.mkState (ChatMutator.db st) (Some created)) /\
  (nonEmpty chatId = true -> nonEmpty sender = true ->
   ChatMutator.addMessageToChat (Some uid) chatId text sender wired st =
     (inl (newError sent), ChatMutator.mkState (ChatMutator.db st) (Some sent))).
Proof.
  intros Hurl Hph Hin Hnet Hname Hfetch Huid Htext wired created sent.
  assert (forall plaintext,
             ChatMutator.encryptChatMessageAPI wired plaintext =
             inl (newError
                    "Unable to encrypt message. Please check your connection and try again."))
    as Henc.
  { intros plaintext. unfold wired, ApiCrypto.mutatorWorld.
    cbn [ChatMutator.encryptChatMessageAPI].
    unfold ApiCrypto.encryptor, ApiCrypto.encryptChatMessageAPI,
      ApiCrypto.validateApiUrl.
    assert (truthy (Some url) = true) as -> by (destruct url; [discriminate | reflexivity]).
    rewrite Hph. cbn [negb orb].
    rewrite ApiFacts.unfold_mar. unfold Api.lookup.
    destruct (ApiFacts.token_signed_in w s Hin) as (t & s2 & Htok & Htr & Hf & _).
    rewrite Htok, Htr. unfold Api.fetch. rewrite Hf, Hnet.
    unfold Api.rethrow. rewrite Hname, Hfetch. reflexivity. }
  assert (truthy (Some uid) = true) as Htruthy
      by (destruct uid; [discriminate | reflexivity]).
  split.
  - unfold ChatMutator.createNewChat. rewrite Htruthy, Htext, Henc. reflexivity.
  - intros Hchat Hsender. unfold ChatMutator.addMessageToChat.
    rewrite Htruthy, Hchat, Htext, Hsender, Henc. reflexivity.
Qed.

Lemma createNewChat_when_offline :
  Api.alwaysSignedIn offlineWorld /\
  fst (ChatMutator.createNewChat (Some "u1") "Hello"
         (ApiCrypto.mutatorWorld (fun _ => "{}") (fun _ => inr []) (fun _ => "")
            (Some "https://gw/encrypt") offlineWorld freshApiState obligingWorld)
         emptyStore)
  = inl (newError
           "Failed to create chat. Unable to secure your message. Unable to encrypt message. Please check your connection and try again.").
Proof.
  assert (Api.alwaysSignedIn offlineWorld) as Hin by (intros n; reflexivity).
  split; [exact Hin|].
  rewrite (proj1 (network_failure_surfaces_in_the_chat_mutators
                    (fun _ => "{}") (fun _ => inr []) (fun _ => "")
                    "https://gw/encrypt" "u1" "Hello" "chat-1" "user"
                    offlineWorld freshApiState obligingWorld emptyStore
                    (mkError "TypeError" "Failed to fetch" "")
                    eq_refl eq_refl Hin eq_refl eq_refl eq_refl eq_refl eq_refl)).
  reflexivity.
Defined.

(** ** Sending a message from the window *)




(** X29.  In an active chat that exists in the store, when the user's message
    is stored and [getBotResponse] then fails with an error, the chat gains
    two messages, the user's and one of sender [system] that holds the
    ciphertext of [Lo siento, encontré un error: ] followed by the message of
    the error; one toast reports the failure, no [Error al enviar mensaje]
    toast is raised, the bot was asked once and the typing indicator is off. *)
Theorem bot_failure_is_stored_as_a_system_message
  (uid chat text : string) (w : AppSend.World) (s : AppSend.State)
  (e : JsError) (c1 k1 c2 k2 : string) :
  nonEmpty uid = true -> nonEmpty chat = true ->
  nonEmpty (ChatMutator.trim text) = true ->
  AppSend.activeChatId s = Some chat ->
  Firestore.exists_ chat (ChatMutator.db (AppSend.store s)) = true ->
  ChatMutator.encryptChatMessageAPI (AppSend.mutator w (AppSend.mutations s))
    (ChatMutator.trim text) = inr (c1, k1) ->
  ChatMutator.updateDocFails (AppSend.mutator w (AppSend.mutations s)) = None ->
  AppSend.getBotResponse w text = inl e ->
  ChatMutator.encryptChatMessageAPI (AppSend.mutator w (S (AppSend.mutations s)))
    (ChatMutator.trim ("Lo siento, encontré un error: " ++ message e)) = inr (c2, k2) ->
  ChatMutator.updateDocFails (AppSend.mutator w (S (AppSend.mutations s))) = None ->
  AppSend.handleSendMessage (Some uid) text w s =
  AppSend.mkState (Some chat) false
    (AppSend.toasts s ++
     [("Falló la obtención de respuesta del bot: " ++ message e)%string])
    (AppSend.prompts s ++ [text]) (S (S (AppSend.mutations s)))
    (ChatMutator.mkState
       (Firestore.appendMessage chat
          (Firestore.mkStored
             (ChatMutator.uuidv4 (AppSend.mutator w (S (AppSend.mutations s))))
             c2 k2 "system"
             (ChatMutator.timestampNow (AppSend.mutator w (S (AppSend.mutations s)))))
          (Firestore.appendMessage chat
             (Firestore.mkStored
                (ChatMutator.uuidv4 (AppSend.mutator w (AppSend.mutations s)))
                c1 k1 "user"
                (ChatMutator.timestampNow (AppSend.mutator w (AppSend.mutations s))))
             (ChatMutator.db (AppSend.store s))))
       None).
Proof.
  set (first := AppSend.mutator w (AppSend.mutations s)).
  set (second := AppSend.mutator w (S (AppSend.mutations s))).
  set (apology := ("Lo siento, encontré un error: " ++ message e)%string).
  intros Hu Hc Ht Ha Hex He1 Hup1 Hbot He2 Hup2.
  unfold AppSend.handleSendMessage.
  rewrite AppSendFacts.blank_test, Ht, Ha. cbn [negb].
  assert (truthy (Some chat) = true) as ->
      by (destruct chat; [discriminate | reflexivity]).
  cbn [negb]. cbv zeta.
  change (match Some chat with Some c => c | None => "" end) with chat.
  unfold AppSend.mutate at 1. unfold AppSend.setIsBotReplying.
  cbn [AppSend.mutations AppSend.store AppSend.activeChatId AppSend.toasts
       AppSend.prompts AppSend.isBotReplying].
  fold first.
  rewrite (AppSendFacts.addMessageToChat_stores uid chat text "user" first
             (AppSend.store s) c1 k1 Hu Hc Ht eq_refl He1 Hup1 Hex).
  unfold AppSend.fetchBotResponse. rewrite Hc. cbn [negb orb].
  unfold AppSend.askBot. rewrite Hbot.
  cbn [AppSend.mutations AppSend.store AppSend.activeChatId AppSend.toasts
       AppSend.prompts AppSend.isBotReplying].
  unfold AppSend.mutate, AppSend.toastError, AppSend.setIsBotReplying.
  cbn [AppSend.mutations AppSend.store AppSend.activeChatId AppSend.toasts
       AppSend.prompts AppSend.isBotReplying].
  fold second. fold apology.
  rewrite (AppSendFacts.addMessageToChat_stores uid chat apology "system" second
             _ c2 k2 Hu Hc (AppSendFacts.apology_not_blank (message e)) eq_refl
             He2 Hup2).
  - cbn [snd ChatMutator.db]. rewrite ?Ha. reflexivity.
  - cbn [ChatMutator.db]. rewrite AppSendFacts.exists_appendMessage. exact Hex.
Qed.

Lemma bot_failure_in_chat_one :
  AppSend.toasts
    (AppSend.handleSendMessage (Some "u1") "Hello" silentBotWorld
       (AppSend.mkState (Some "chat-1") false [] [] 0
          (ChatMutator.mkState [docNamed "chat-1"] None)))
  = ["Falló la obtención de respuesta del bot: Too many requests. Please wait a moment and try again."]
  /\
  map (fun d => map Firestore.originalSender (Firestore.messages d))
      (ChatMutator.db
         (AppSend.store
            (AppSend.handleSendMessage (Some "u1") "Hello" silentBotWorld
               (AppSend.mkState (Some "chat-1") false [] [] 0
                  (ChatMutator.mkState [docNamed "chat-1"] None)))))
  = [["user"; "system"]].
Proof.
  rewrite (bot_failure_is_stored_as_a_system_message "u1" "chat-1" "Hello"
             silentBotWorld
             (AppSend.mkState (Some "chat-1") false [] [] 0
                (ChatMutator.mkState [docNamed "chat-1"] None))
             (newError "Too many requests. Please wait a moment and try again.")
             "Q0lQSEVSVEVYVA==" "keys/chat/1" "Q0lQSEVSVEVYVA==" "keys/chat/1"
             eq_refl eq_refl eq_refl eq_refl eq_refl eq_refl eq_refl eq_refl
             eq_refl eq_refl).
  split; reflexivity.
Defined.
